(** * BCCE command-line kit: workflow, policy and config commands

    A shallow embedding of the TypeScript sources
    - [cli/src/commands/workflow/workflow.ts] (validate, run, resume, diagram,
      scaffold),
    - [cli/src/commands/policy/policy.ts] (print, validate),
    - [cli/src/lib/config.ts] (loadConfig, saveConfig, validateConfig),
    - [cli/src/commands/init/init.ts] (init),
    with the theorems that settle what the specification says about them,
    followed by further properties of the commands.

    The commands are Node.js callbacks: they read and write files, print to
    the console, end the process with [process.exit] and may throw.  They are
    embedded in a small monad [Proc] over a [World] (file system and console),
    whose results distinguish normal return, process exit and a thrown
    error. *)

From stdpp Require Import base strings gmap list pretty.

(** ** JavaScript values

    What [yaml.parse] and [JSON.parse] return: data, never a function.
    [JNum n] stands for the integer-valued number [n]; fractional numbers, NaN
    and the infinities are outside the model.  Every parsed collection is a distinct object (YAML
    aliases, which make two nodes the same object, are outside the model), and
    the keys of an object are pairwise distinct, as both parsers guarantee. *)

#[local] Set Warnings "-register-all".

Inductive JValue : Type :=
| JUndefined
| JNull
| JBool (b : bool)
| JNum (n : Z)
| JStr (s : string)
| JArr (xs : list JValue)
| JObj (fields : list (string * JValue)).

(** Errors a callback can throw, and the errors of the YAML parser. *)
Inductive JsError : Type :=
| TypeError_read (v : JValue) (k : string)   (* property [k] of null/undefined *)
| TypeError_not_iterable (v : JValue)
| TypeError_not_function (v : JValue) (k : string)
| TypeError_convert (v : JValue)             (* no primitive value for [v] *)
| SyntaxError_json (text : string)
| Error_compile (schema : JValue)            (* ajv.compile on a bad schema *)
| Error_fs (code : string) (p : string)      (* EISDIR, ENOENT, ENOTDIR, EEXIST *)
| Error_yaml (msg : string).

Record YamlError := {
  yaml_message : string;
  yaml_linePos : option (Z * Z)   (* error.linePos[0].line, .col when present *)
}.

(** One entry of ajv's [validate.errors]. *)
Record ErrorObject := {
  instancePath : string;
  message : string;
  data : option JValue            (* only set when ajv runs with [verbose] *)
}.

Definition slash : Ascii.ascii := Ascii.ascii_of_nat 47.

(** The name of a directory entry: not empty, without a slash, and neither
    [.] nor [..]. *)
Definition plain_name (name : string) : bool :=
  negb (String.eqb name EmptyString) && negb (String.eqb name ".")
  && negb (String.eqb name "..")
  && forallb (λ c, negb (Ascii.eqb c slash)) (String.list_ascii_of_string name).

(** The collaborators outside the sources: Node's [path], the [yaml] and
    [ajv] packages, [JSON], and the engine's error texts and string
    primitives.  [path_dirname q] is the directory that holds the absolute
    path [q]; the three laws are those of [path.resolve] and
    [path.dirname]. *)
Class Platform := {
  path_resolve : string → string;
  path_dirname : string → string;
  path_resolve_resolve : ∀ p, path_resolve (path_resolve p) = path_resolve p;
  path_dirname_name : ∀ name,
    plain_name name = true → path_dirname (path_resolve name) = path_resolve ".";
  path_dirname_child : ∀ dir name,
    dir ≠ EmptyString → plain_name name = true →
    path_dirname (path_resolve (dir +:+ "/" +:+ name)) = path_resolve dir;
  yaml_parse : string → YamlError + JValue;
  json_parse : string → option JValue;
  json_stringify : JValue → string;
  json_stringify_pretty : JValue → string;      (* JSON.stringify(v, null, 2) *)
  (* every violation of a document against a schema; None: the schema does
     not compile *)
  ajv_violations : JValue → option (JValue → list ErrorObject);
  error_message : JsError → string;
  (* Number.prototype.toString beyond 2^53, where the digits are those of
     the nearest double and, from 1e21 on, in exponent notation *)
  number_to_string : Z → string;
  code_units : string → list string;            (* s[0], s[1], ... *)
  code_points : string → list string;           (* what for-of visits *)
  (* s.replace(/\*:/g, r) and s.replace(/:(\*:)/g, r) *)
  replace_star_colon : string → string → string;
  replace_colon_star_colon : string → string → string
}.

Definition dquote : string := String (Ascii.ascii_of_nat 34) EmptyString.
Definition newline : string := String (Ascii.ascii_of_nat 10) EmptyString.
Definition backslash : string := String (Ascii.ascii_of_nat 92) EmptyString.

(** [Boolean(v)]: the falsy values are undefined, null, false, 0 and the
    empty string. *)
Definition truthy (v : JValue) : bool :=
  match v with
  | JUndefined | JNull => false
  | JBool b => b
  | JNum n => negb (n =? 0)%Z
  | JStr s => negb (String.eqb s EmptyString)
  | JArr _ | JObj _ => true
  end.

(** [a || b] *)
Definition js_or (a b : JValue) : JValue := if truthy a then a else b.

Fixpoint assoc (k : string) (fields : list (string * JValue)) : option JValue :=
  match fields with
  | [] => None
  | (k', v) :: rest => if String.eqb k k' then Some v else assoc k rest
  end.

(** [String(v)], as template literals and [Array.prototype.join] apply it,
    for a value that has a primitive value (see [convertible]). *)
Fixpoint to_string `{P : Platform} (v : JValue) : string :=
  match v with
  | JUndefined => "undefined"
  | JNull => "null"
  | JBool true => "true"
  | JBool false => "false"
  | JNum n => if (Z.abs n <=? 9007199254740992)%Z then pretty n else number_to_string n
  | JStr s => s
  | JArr xs =>
      String.concat ","
        ((fix elems (l : list JValue) : list string :=
            match l with
            | [] => []
            | x :: r =>
                match x with
                | JUndefined | JNull => EmptyString
                | _ => to_string x
                end :: elems r
            end) xs)
  | JObj _ => "[object Object]"
  end.

(** [xs.join(sep)], for elements that have a primitive value. *)
Definition array_join `{P : Platform} (sep : string) (xs : list JValue) : string :=
  String.concat sep
    (map (λ x, match x with JUndefined | JNull => EmptyString | _ => to_string x end) xs).

(** Whether a value has a primitive value.  An object of a parsed document
    that has a key [toString] has none: the key hides the method of the
    prototype and its value is not a function, and [valueOf] returns the
    object itself.  An array is converted by joining its elements. *)
Fixpoint convertible (v : JValue) : bool :=
  match v with
  | JObj fields =>
      match assoc "toString" fields with
      | Some _ => false
      | None => true
      end
  | JArr xs =>
      (fix all (l : list JValue) : bool :=
         match l with
         | [] => true
         | x :: r => convertible x && all r
         end) xs
  | _ => true
  end.

(** [`${v}`] and [String(v)]: the conversion throws a TypeError for a value
    without primitive value. *)
Definition ToString `{P : Platform} (v : JValue) : JsError + string :=
  if convertible v then inr (to_string v) else inl (TypeError_convert v).

(** [xs.join(sep)] *)
Definition Array_join `{P : Platform} (sep : string) (xs : list JValue)
  : JsError + string :=
  if convertible (JArr xs) then inr (array_join sep xs)
  else inl (TypeError_convert (JArr xs)).

(** SameValueZero, the equality of [Set.prototype.has]: primitives by value,
    objects by identity (two parsed collections are never the same
    object). *)
Definition same_value_zero (a b : JValue) : bool :=
  match a, b with
  | JUndefined, JUndefined => true
  | JNull, JNull => true
  | JBool x, JBool y => bool_decide (x = y)
  | JNum x, JNum y => (x =? y)%Z
  | JStr x, JStr y => String.eqb x y
  | _, _ => false
  end.

(** [a === b], used here only with a string literal on the right. *)
Definition strict_eq_str (a : JValue) (s : string) : bool :=
  match a with
  | JStr x => String.eqb x s
  | _ => false
  end.

(** ** The world and the process monad *)

Inductive Node := File (content : string) | Dir.

(** The objects policy.ts creates when the module is loaded.  A statement
    object is known by its address; the two [Statement] arrays hold
    addresses, so that a statement pushed twice is the same object twice. *)
Inductive Resource := ResStr (s : string) | ResArr (xs : list string).

Record Statement := {
  st_Effect : string;
  st_Action : list string;
  st_Resource : Resource
}.

Inductive StmtRef := BASE0 | BASE1 | INF0 | INF1 | GUARDRAILS_ADDON.

Inductive ArrRef := BASELINE_Statement | INFERENCE_PROFILE_Statement.

Record Memory := {
  m_stmt : StmtRef → Statement;    (* the statement objects *)
  m_arr : ArrRef → list StmtRef    (* the two Statement arrays *)
}.

Inductive Out := Log (line : string) | Err (line : string).

Record World := {
  w_fs : gmap string Node;     (* keyed by absolute path *)
  w_out : list Out;            (* console, oldest line first *)
  w_mem : Memory               (* module-level objects of policy.ts *)
}.

Inductive Res (A : Type) : Type :=
| Ret (a : A)
| Exit (code : Z)
| Throw (e : JsError).
Arguments Ret {A} a.
Arguments Exit {A} code.
Arguments Throw {A} e.

Definition Proc (A : Type) : Type := World → World * Res A.

Definition ret {A} (a : A) : Proc A := λ w, (w, Ret a).

Definition bind {A B} (m : Proc A) (f : A → Proc B) : Proc B :=
  λ w, match m w with
       | (w', Ret a) => f a w'
       | (w', Exit c) => (w', Exit c)
       | (w', Throw e) => (w', Throw e)
       end.

#[global] Instance proc_ret : MRet Proc := @ret.
#[global] Instance proc_bind : MBind Proc := λ A B f m, bind m f.

Definition throw {A} (e : JsError) : Proc A := λ w, (w, Throw e).

(** [process.exit(code)] *)
Definition process_exit {A} (code : Z) : Proc A := λ w, (w, Exit code).

(** [try { body } catch (error) { handler }] *)
Definition try_catch {A} (body : Proc A) (handler : JsError → Proc A) : Proc A :=
  λ w, match body w with
       | (w', Throw e) => handler e w'
       | r => r
       end.

(** The world after [lines] have been printed. *)
Definition emit (lines : list Out) (w : World) : World :=
  {| w_fs := w_fs w; w_out := w_out w ++ lines; w_mem := w_mem w |}.

Definition console_log (line : string) : Proc unit :=
  λ w, (emit [Log line] w, Ret tt).

Definition console_error (line : string) : Proc unit :=
  λ w, (emit [Err line] w, Ret tt).

(** [if (c) { m }] *)
Definition when (c : bool) (m : Proc unit) : Proc unit := if c then m else ret tt.

(** Lifting a pure computation that may throw. *)
Definition lift {A} (r : JsError + A) : Proc A :=
  match r with
  | inl e => throw e
  | inr a => ret a
  end.

Section Platform.
Context `{P : Platform}.

(** [v.k] for the property names the commands read ([steps], [id], [type],
    [prompt_file], [command], [policy], [model], [guardrails], [metadata],
    [created], [length]); none of them is inherited from a prototype except
    [length] of arrays and strings. *)
Definition get (v : JValue) (k : string) : JsError + JValue :=
  match v with
  | JUndefined | JNull => inl (TypeError_read v k)
  | JObj fields => inr (default JUndefined (assoc k fields))
  | JArr xs => inr (if String.eqb k "length" then JNum (Z.of_nat (length xs)) else JUndefined)
  | JStr s => inr (if String.eqb k "length" then JNum (Z.of_nat (length (code_units s))) else JUndefined)
  | JBool _ | JNum _ => inr JUndefined
  end.

(** [v?.k] *)
Definition get_opt (v : JValue) (k : string) : JValue :=
  match get v k with
  | inl _ => JUndefined
  | inr x => x
  end.

(** The values a [for (const x of v)] loop visits. *)
Definition iterate (v : JValue) : JsError + list JValue :=
  match v with
  | JArr xs => inr xs
  | JStr s => inr (JStr <$> code_points s)
  | _ => inl (TypeError_not_iterable v)
  end.

(** [fs.existsSync(p)] *)
Definition existsSync (p : string) : Proc bool :=
  λ w, (w, Ret (bool_decide (is_Some (w_fs w !! path_resolve p)))).

(** [fs.readFileSync(p, 'utf-8')] *)
Definition readFileSync (p : string) : Proc string :=
  λ w, match w_fs w !! path_resolve p with
       | Some (File content) => (w, Ret content)
       | Some Dir => (w, Throw (Error_fs "EISDIR" p))
       | None => (w, Throw (Error_fs "ENOENT" p))
       end.

(** [fs.writeFileSync(p, content)]: a file that exists is replaced; a new
    file needs its directory, and is refused with ENOENT when that is
    missing and with ENOTDIR when it is a file.  The current directory
    exists as long as the process runs. *)
Definition writeFileSync (p content : string) : Proc unit :=
  λ w,
    let written :=
      ({| w_fs := <[path_resolve p := File content]> (w_fs w);
          w_out := w_out w; w_mem := w_mem w |}, Ret tt) in
    match w_fs w !! path_resolve p with
    | Some Dir => (w, Throw (Error_fs "EISDIR" p))
    | Some (File _) => written
    | None =>
        let dir := path_dirname (path_resolve p) in
        if String.eqb dir (path_resolve ".") then written
        else
          match w_fs w !! dir with
          | Some Dir => written
          | Some (File _) => (w, Throw (Error_fs "ENOTDIR" p))
          | None => (w, Throw (Error_fs "ENOENT" p))
          end
    end.

(** [JSON.parse(text)] *)
Definition JSON_parse (text : string) : Proc JValue :=
  match json_parse text with
  | Some v => ret v
  | None => throw (SyntaxError_json text)
  end.

(** [error.message] in a catch clause: the parser's own text for a YAML
    error, the engine's text for the others. *)
Definition message_of (e : JsError) : string :=
  match e with
  | Error_yaml msg => msg
  | _ => error_message e
  end.

(** ** workflow.ts *)

(** [new Ajv({ allErrors: true })].  With [allErrors] ajv collects every
    violation; without it, it stops at the first one. *)
Record AjvOptions := { allErrors : bool }.

Definition ajv : AjvOptions := {| allErrors := true |}.

(** [ajv.compile(schema)]: the validating function, here returning
    [validate.errors] (empty when the document is valid). *)
Definition ajv_compile (opts : AjvOptions) (schema : JValue) : Proc (JValue → list ErrorObject) :=
  match ajv_violations schema with
  | Some all => ret (λ doc, if allErrors opts then all doc else take 1 (all doc))
  | None => throw (Error_compile schema)
  end.

(** The loop over [validate.errors || []]. *)
Fixpoint report_schema_errors (errors : list ErrorObject) : Proc unit :=
  match errors with
  | [] => ret tt
  | error :: rest =>
      console_error ("   " +:+
        (if String.eqb (instancePath error) EmptyString then "root" else instancePath error)
        +:+ ": " +:+ message error);;
      match data error with
      | Some d => console_error ("   Value: " +:+ json_stringify d)
      | None => ret tt
      end;;
      report_schema_errors rest
  end.

(** [stepIds.has(id)] *)
Definition set_has (stepIds : list JValue) (id : JValue) : bool :=
  existsb (same_value_zero id) stepIds.

(** The semantic loop [for (const step of workflow.steps || [])], with the
    set [stepIds] built so far. *)
Fixpoint check_steps (stepIds : list JValue) (steps : list JValue) : Proc unit :=
  match steps with
  | [] => ret tt
  | step :: rest =>
      id ← lift (get step "id");
      when (set_has stepIds id)
        (shown ← lift (ToString id);
         console_error ("❌ Duplicate step ID: " +:+ shown);;
         process_exit 1);;
      type ← lift (get step "type");
      prompt_file ← lift (get step "prompt_file");
      when (strict_eq_str type "prompt" && negb (truthy prompt_file))
        (shown ← lift (ToString id);
         console_error ("❌ Step '" +:+ shown +:+ "': prompt steps require prompt_file");;
         process_exit 1);;
      command ← lift (get step "command");
      when (strict_eq_str type "cmd" && negb (truthy command))
        (shown ← lift (ToString id);
         console_error ("❌ Step '" +:+ shown +:+ "': cmd steps require command");;
         process_exit 1);;
      policy ← lift (get step "policy");
      when (strict_eq_str type "agent" && negb (truthy policy))
        (shown ← lift (ToString id);
         console_error ("❌ Step '" +:+ shown +:+ "': agent steps require policy constraints");;
         process_exit 1);;
      check_steps (stepIds ++ [id]) rest
  end.

(** The lines printed once both passes have succeeded. *)
Definition report_passed (file : string) (workflow : JValue) : Proc unit :=
  console_log "✅ Workflow validation passed";;
  console_log ("   File: " +:+ path_resolve file);;
  steps ← lift (get workflow "steps");
  count ← lift (ToString (js_or (get_opt steps "length") (JNum 0)));
  console_log ("   Steps: " +:+ count);;
  model ← lift (get workflow "model");
  shown ← lift (ToString (js_or model (JStr "default")));
  console_log ("   Model: " +:+ shown);;
  guardrails ← lift (get workflow "guardrails");
  when (truthy (get_opt guardrails "length"))
    (match guardrails with
     | JArr xs =>
         joined ← lift (Array_join ", " xs);
         console_log ("   Guardrails: " +:+ joined)
     | _ => throw (TypeError_not_function guardrails "join")
     end).

(** The part of [validate] headed "Additional semantic validation". *)
Definition semantic_validation (workflow : JValue) : Proc unit :=
  steps ← lift (get workflow "steps");
  steps ← lift (iterate (js_or steps (JArr [])));
  check_steps [] steps.

Definition schema_file : string := "workflows/schemas/workflow.v1.schema.json".

(** The [catch] clause that encloses the body of [validate]. *)
Definition catch_validation_error (error : JsError) : Proc unit :=
  console_error ("❌ Validation error: " +:+ message_of error);;
  process_exit 1.

(** [bcce workflow validate <file>] *)
Definition validate_action (file : string) : Proc unit :=
  try_catch
    (found ← existsSync file;
     when (negb found)
       (console_error ("❌ File not found: " +:+ file);; process_exit 1);;
     content ← readFileSync file;
     workflow ←
       match yaml_parse content with
       | inr doc => ret doc
       | inl error =>
           console_error ("❌ YAML parsing error: " +:+ yaml_message error);;
           console_error ("   File: " +:+ file);;
           match yaml_linePos error with
           | Some (line, col) =>
               console_error ("   Line: " +:+ pretty line +:+ ", Column: " +:+ pretty col)
           | None => ret tt
           end;;
           process_exit 1
       end;
     let schemaPath := path_resolve schema_file in
     found ← existsSync schemaPath;
     when (negb found)
       (console_error ("❌ Schema not found: " +:+ schemaPath);; process_exit 1);;
     text ← readFileSync schemaPath;
     schema ← JSON_parse text;
     validate ← ajv_compile ajv schema;
     let errors := validate workflow in
     when (bool_decide (errors ≠ []))
       (console_error "❌ Schema validation failed:";;
        report_schema_errors errors;;
        console_error ("   File: " +:+ path_resolve file);;
        process_exit 1);;
     semantic_validation workflow;;
     report_passed file workflow)
    catch_validation_error.

Record RunOpts := { dryRun : bool; approveAll : bool }.

(** [bcce workflow run <file>] *)
Definition run_action (file : string) (opts : RunOpts) : Proc unit :=
  console_log ("▶️  Running workflow: " +:+ file);;
  if dryRun opts
  then console_log "🔍 Dry run mode - would execute:"
  else console_log "🚧 Workflow execution not yet implemented".

Record ResumeOpts := { from : option string }.

(** [bcce workflow resume <runId>] *)
Definition resume_action (runId : string) (opts : ResumeOpts) : Proc unit :=
  console_log ("⏩  Resume workflow run " +:+ runId);;
  match from opts with
  | Some stepId =>
      when (negb (String.eqb stepId EmptyString))
        (console_log ("   Starting from step: " +:+ stepId))
  | None => ret tt
  end;;
  console_log "🚧 Resume functionality not yet implemented".

Record DiagramOpts := { opt_format : string; opt_output : option string }.

(** The statement the first loop appends for [step]: [type] is
    [step.type], [id] and [tag] are what the template makes of [step.id]
    and [step.type]. *)
Definition node_stmt (type : JValue) (id tag : string) : string :=
  let shape := if strict_eq_str type "agent" then "diamond" else "box" in
  let color :=
    if strict_eq_str type "cmd" then "lightblue"
    else if strict_eq_str type "agent" then "orange"
    else if strict_eq_str type "apply_diff" then "lightcoral"
    else "lightgreen" in
  "  " +:+ dquote +:+ id +:+ dquote +:+ " [label=" +:+ dquote +:+ id
  +:+ backslash +:+ "n(" +:+ tag +:+ ")" +:+ dquote +:+ ", shape=" +:+ shape
  +:+ ", fillcolor=" +:+ color +:+ ", style=filled];" +:+ newline.

(** The statement the second loop appends for [steps[i]] and
    [steps[i + 1]], given what the template makes of their ids. *)
Definition edge_stmt (id next : string) : string :=
  "  " +:+ dquote +:+ id +:+ dquote +:+ " -> " +:+ dquote +:+ next
  +:+ dquote +:+ ";" +:+ newline.

(** [for (const step of steps) output += ...] *)
Fixpoint add_nodes (output : string) (steps : list JValue) : Proc string :=
  match steps with
  | [] => ret output
  | step :: rest =>
      type ← lift (get step "type");
      id ← lift (get step "id");
      id ← lift (ToString id);
      tag ← lift (ToString type);
      add_nodes (output +:+ node_stmt type id tag) rest
  end.

(** [for (let i = 0; i < steps.length - 1; i++) output += ...] over the
    elements [steps[0]], [steps[1]], ... *)
Fixpoint add_edges (output : string) (steps : list JValue) : Proc string :=
  match steps with
  | step :: (next :: _) as rest =>
      id ← lift (get step "id");
      id ← lift (ToString id);
      id' ← lift (get next "id");
      id' ← lift (ToString id');
      add_edges (output +:+ edge_stmt id id') rest
  | _ => ret output
  end.

(** The indexed elements of an iterable value. *)
Definition elements_of (steps : JValue) : list JValue :=
  match steps with
  | JArr xs => xs
  | JStr s => JStr <$> code_units s
  | _ => []
  end.

Definition diagram_header : string :=
  "digraph workflow {" +:+ newline +:+ "  rankdir=TB;" +:+ newline
  +:+ "  node [shape=box, style=rounded];" +:+ newline +:+ newline.

(** The last block of [diagram]: the text goes to the file [opts.output]
    when that option is given, to the console otherwise. *)
Definition deliver_diagram (opts : DiagramOpts) (output : string) : Proc unit :=
  match opt_output opts with
  | Some path =>
      if negb (String.eqb path EmptyString) then
        writeFileSync path output;;
        console_log ("📊 Diagram saved to: " +:+ path)
      else
        console_log ("📊 Workflow diagram (DOT format):" +:+ newline);;
        console_log output
  | None =>
      console_log ("📊 Workflow diagram (DOT format):" +:+ newline);;
      console_log output
  end.

(** The [catch] clause that encloses the body of [diagram]. *)
Definition catch_diagram_error (error : JsError) : Proc unit :=
  console_error ("❌ Diagram generation error: " +:+ message_of error);;
  process_exit 1.

(** [bcce workflow diagram <file>] *)
Definition diagram_action (file : string) (opts : DiagramOpts) : Proc unit :=
  try_catch
    (found ← existsSync file;
     when (negb found)
       (console_error ("❌ File not found: " +:+ file);; process_exit 1);;
     content ← readFileSync file;
     workflow ←
       match yaml_parse content with
       | inr doc => ret doc
       | inl error => throw (Error_yaml (yaml_message error))
       end;
     steps ← lift (get workflow "steps");
     let steps := js_or steps (JArr []) in
     let output := diagram_header in
     elements ← lift (iterate steps);
     output ← add_nodes output elements;
     let output := output +:+ newline in
     output ← add_edges output (elements_of steps);
     let output := output +:+ "}" +:+ newline in
     deliver_diagram opts output)
    catch_diagram_error.

(** ** lib/config.ts *)

Definition CONFIG_PATH : string := path_resolve ".bcce.config.json".

(** A canonical array index: the decimal text, without a leading zero, of
    a number below 2^32 - 1. *)
Fixpoint decimal_value (acc : N) (s : string) : option N :=
  match s with
  | EmptyString => Some acc
  | String c rest =>
      let d := Ascii.nat_of_ascii c in
      if (48 <=? d) && (d <=? 57)
      then decimal_value (10 * acc + N.of_nat (d - 48)) rest
      else None
  end.

Definition array_index (k : string) : option N :=
  match k with
  | EmptyString => None
  | String c rest =>
      if Ascii.eqb c (Ascii.ascii_of_nat 48) && negb (String.eqb rest EmptyString) then None
      else
        match decimal_value 0 k with
        | Some n => if (n <? 4294967295)%N then Some n else None
        | None => None
        end
  end.

(** The order in which the engine lists the keys of an object: the array
    indices in ascending order, then the other keys as they were added. *)
Definition goes_before (k k' : string) : bool :=
  match array_index k, array_index k' with
  | Some n, Some n' => (n <? n')%N
  | Some _, None => true
  | None, _ => false
  end.

Fixpoint update_prop (k : string) (v : JValue) (fields : list (string * JValue))
  : list (string * JValue) :=
  match fields with
  | [] => []
  | (k', v') :: rest =>
      if String.eqb k k' then (k, v) :: rest else (k', v') :: update_prop k v rest
  end.

Fixpoint insert_prop (k : string) (v : JValue) (fields : list (string * JValue))
  : list (string * JValue) :=
  match fields with
  | [] => [(k, v)]
  | (k', v') :: rest =>
      if goes_before k k' then (k, v) :: fields else (k', v') :: insert_prop k v rest
  end.

(** Defining property [k] of an object under construction: an existing key
    keeps its place and takes the new value, a new key takes its place in
    the engine's order. *)
Definition set_prop (k : string) (v : JValue) (fields : list (string * JValue))
  : list (string * JValue) :=
  match assoc k fields with
  | Some _ => update_prop k v fields
  | None => insert_prop k v fields
  end.

(** The own enumerable properties [{ ...source }] copies. *)
Definition own_props (source : JValue) : list (string * JValue) :=
  match source with
  | JObj fields => fields
  | JArr xs => imap (λ i x, (pretty i, x)) xs
  | JStr s => imap (λ i u, (pretty i, JStr u)) (code_units s)
  | _ => []
  end.

(** [{ ...target, ...source }] *)
Definition spread (target : list (string * JValue)) (source : JValue)
  : list (string * JValue) :=
  foldl (λ acc kv, set_prop kv.1 kv.2 acc) target (own_props source).

(** The [config] object of [saveConfig]. *)
Definition build_config (timestamp : string) (existingConfig cfg : JValue)
  : JsError + list (string * JValue) :=
  match get existingConfig "metadata" with
  | inl e => inl e
  | inr metadata =>
      let created := js_or (get_opt metadata "created") (JStr timestamp) in
      inr (spread (spread
             [("version", JStr "0.1.0");
              ("auth", JStr "identity-center");
              ("regions", JArr [JStr "us-east-1"]);
              ("guardrails", JBool false);
              ("privatelink", JBool false);
              ("metadata", JObj [("created", created); ("updated", JStr timestamp)])]
             existingConfig) cfg)
  end.

(** [saveConfig(cfg)], where [timestamp] is what
    [new Date().toISOString()] returns at the call. *)
Definition saveConfig (timestamp : string) (cfg : JValue) : Proc string :=
  found ← existsSync CONFIG_PATH;
  existingConfig ←
    (if found : bool then
       try_catch (text ← readFileSync CONFIG_PATH; JSON_parse text)
                 (λ _, ret (JObj []))
     else ret (JObj []));
  config ← lift (build_config timestamp existingConfig cfg);
  writeFileSync CONFIG_PATH (json_stringify_pretty (JObj config));;
  ret CONFIG_PATH.

(** ** policy.ts *)

(** The statement objects as the module creates them. *)
Definition initial_stmt (r : StmtRef) : Statement :=
  match r with
  | BASE0 =>
      {| st_Effect := "Allow";
         st_Action := ["bedrock:InvokeModel"; "bedrock:InvokeModelWithResponseStream";
                       "bedrock:ListFoundationModels"];
         st_Resource := ResStr "*" |}
  | BASE1 =>
      {| st_Effect := "Allow";
         st_Action := ["bedrock:ListInferenceProfiles"; "bedrock:GetInferenceProfile"];
         st_Resource := ResStr "*" |}
  | INF0 =>
      {| st_Effect := "Allow";
         st_Action := ["bedrock:InvokeModel"; "bedrock:InvokeModelWithResponseStream"];
         st_Resource := ResArr ["arn:aws:bedrock:*:*:inference-profile/*";
                                "arn:aws:bedrock:*:*:foundation-model/anthropic.*"] |}
  | INF1 =>
      {| st_Effect := "Allow";
         st_Action := ["bedrock:ListInferenceProfiles"; "bedrock:GetInferenceProfile";
                       "bedrock:ListFoundationModels"];
         st_Resource := ResStr "*" |}
  | GUARDRAILS_ADDON =>
      {| st_Effect := "Allow";
         st_Action := ["bedrock:GetGuardrail"; "bedrock:ListGuardrails"];
         st_Resource := ResStr "*" |}
  end.

(** [BASELINE_POLICY.Statement] and [INFERENCE_PROFILE_POLICY.Statement] as
    the module creates them. *)
Definition initial_arr (a : ArrRef) : list StmtRef :=
  match a with
  | BASELINE_Statement => [BASE0; BASE1]
  | INFERENCE_PROFILE_Statement => [INF0; INF1]
  end.

Definition initial_memory : Memory :=
  {| m_stmt := initial_stmt; m_arr := initial_arr |}.

#[global] Instance StmtRef_eq_dec : EqDecision StmtRef.
Proof. solve_decision. Defined.

#[global] Instance ArrRef_eq_dec : EqDecision ArrRef.
Proof. solve_decision. Defined.

(** [policy.Statement.push(r)], on the array object [a]. *)
Definition push (a : ArrRef) (r : StmtRef) : Proc unit :=
  λ w, ({| w_fs := w_fs w; w_out := w_out w;
           w_mem := {| m_stmt := m_stmt (w_mem w);
                       m_arr := λ a', if decide (a' = a) then m_arr (w_mem w) a' ++ [r]
                                      else m_arr (w_mem w) a' |} |}, Ret tt).

(** [statement.Resource = resource], on the statement object [r]. *)
Definition set_Resource (r : StmtRef) (resource : Resource) : Proc unit :=
  λ w, ({| w_fs := w_fs w; w_out := w_out w;
           w_mem := {| m_stmt := λ r', if decide (r' = r) then
                                         {| st_Effect := st_Effect (m_stmt (w_mem w) r');
                                            st_Action := st_Action (m_stmt (w_mem w) r');
                                            st_Resource := resource |}
                                       else m_stmt (w_mem w) r';
                       m_arr := m_arr (w_mem w) |} |}, Ret tt).

Definition read_arr (a : ArrRef) : Proc (list StmtRef) :=
  λ w, (w, Ret (m_arr (w_mem w) a)).

Definition read_stmt (r : StmtRef) : Proc Statement :=
  λ w, (w, Ret (m_stmt (w_mem w) r)).

(** The statement objects an array of addresses denotes at present. *)
Definition read_statements (statements : list StmtRef) : Proc (list Statement) :=
  λ w, (w, Ret (m_stmt (w_mem w) <$> statements)).

Record PrintOpts := { region : option string; accountId : option string }.

(** Truth of an optional string option of the command line. *)
Definition given (o : option string) : bool :=
  match o with
  | Some s => negb (String.eqb s EmptyString)
  | None => false
  end.

(** The callback of [statement.Resource.map]. *)
Definition scope_resource (opts : PrintOpts) (resource : string) : string :=
  let resource :=
    if given (region opts)
    then replace_star_colon resource (default EmptyString (region opts) +:+ ":")
    else resource in
  if given (accountId opts)
  then replace_colon_star_colon resource (":" +:+ default EmptyString (accountId opts) +:+ ":")
  else resource.

(** [for (const statement of policy.Statement)] of the scoping block. *)
Fixpoint scope_statements (opts : PrintOpts) (statements : list StmtRef) : Proc unit :=
  match statements with
  | [] => ret tt
  | r :: rest =>
      statement ← read_stmt r;
      match st_Resource statement with
      | ResArr xs => set_Resource r (ResArr (scope_resource opts <$> xs))
      | ResStr _ => ret tt
      end;;
      scope_statements opts rest
  end.

(** The JSON value of a policy object whose [Statement] array holds
    [statements]. *)
Definition statement_json (s : Statement) : JValue :=
  JObj [("Effect", JStr (st_Effect s));
        ("Action", JArr (JStr <$> st_Action s));
        ("Resource", match st_Resource s with
                     | ResStr x => JStr x
                     | ResArr xs => JArr (JStr <$> xs)
                     end)].

Definition policy_json (statements : list Statement) : JValue :=
  JObj [("Version", JStr "2012-10-17"); ("Statement", JArr (statement_json <$> statements))].

(** The [switch (type)] of [print].  The local [policy] is a fresh object
    whose [Statement] property is the array of the policy it was spread
    from; it is known here by that array. *)
Definition select_policy (type : string) : Proc ArrRef :=
  if String.eqb type "baseline" then ret BASELINE_Statement
  else if String.eqb type "inference-profile" then ret INFERENCE_PROFILE_Statement
  else if String.eqb type "guardrails" then
    push BASELINE_Statement GUARDRAILS_ADDON;; ret BASELINE_Statement
  else
    console_error "‚ùå Invalid policy type. Use: baseline, inference-profile, or guardrails";;
    process_exit 1.

(** The scoping block and the final [console.log] of [print]. *)
Definition scope_and_print (opts : PrintOpts) (policy : ArrRef) : Proc unit :=
  when (given (region opts) || given (accountId opts))
    (statements ← read_arr policy; scope_statements opts statements);;
  statements ← read_arr policy;
  statements ← read_statements statements;
  console_log (json_stringify_pretty (policy_json statements)).

(** [bcce policy print [type]] *)
Definition print_action (type : string) (opts : PrintOpts) : Proc unit :=
  policy ← select_policy type;
  scope_and_print opts policy.

(** Successive invocations of [print] in one process; the process ends at
    the first exit or uncaught error. *)
Fixpoint print_all (calls : list (string * PrintOpts)) : Proc unit :=
  match calls with
  | [] => ret tt
  | (type, opts) :: rest => print_action type opts;; print_all rest
  end.

End Platform.

(** ** A validator for the examples

    The keywords [type: object] and [required] of JSON Schema, with the
    entries ajv makes for them; no other keyword is interpreted, and a
    schema without these two admits every document. *)

(** An entry of [validate.errors] as ajv makes it without [verbose]. *)
Definition violation (path msg : string) : ErrorObject :=
  {| instancePath := path; message := msg; data := None |}.

Definition type_violations (type doc : JValue) : list ErrorObject :=
  if strict_eq_str type "object" then
    match doc with
    | JObj _ => []
    | _ => [violation EmptyString "must be object"]
    end
  else [].

Definition required_violations (keys : list JValue) (doc : JValue) : list ErrorObject :=
  match doc with
  | JObj fields =>
      flat_map (λ k, match k with
                     | JStr k =>
                         match assoc k fields with
                         | Some _ => []
                         | None =>
                             [violation EmptyString
                                ("must have required property '" +:+ k +:+ "'")]
                         end
                     | _ => []
                     end) keys
  | _ => []
  end.

Definition schema_violations (schema doc : JValue) : list ErrorObject :=
  match schema with
  | JObj keywords =>
      match assoc "type" keywords with
      | Some type => type_violations type doc
      | None => []
      end
      ++ match assoc "required" keywords with
         | Some (JArr keys) => required_violations keys doc
         | _ => []
         end
  | _ => []
  end.

(** ** A platform for the examples

    Paths are taken as they are, relative to the current directory [.], the
    directory of a path is its text before the last slash, the parsers know the
    texts of a table, a schema compiles to the validator above, strings are
    ASCII. *)

Fixpoint lookup_text {A} (text : string) (table : list (string * A)) : option A :=
  match table with
  | [] => None
  | (t, a) :: rest => if String.eqb text t then Some a else lookup_text text rest
  end.

Fixpoint replace_all (pat rep : string) (skip : nat) (s : string) : string :=
  match s with
  | EmptyString => EmptyString
  | String c s' =>
      match skip with
      | S k => replace_all pat rep k s'
      | O =>
          if String.prefix pat s
          then rep +:+ replace_all pat rep (String.length pat - 1) s'
          else String c (replace_all pat rep 0 s')
      end
  end.

(** A compact rendering of a value as JSON text (no escapes). *)
Fixpoint show_json (v : JValue) : string :=
  match v with
  | JUndefined => "undefined"
  | JNull => "null"
  | JBool true => "true"
  | JBool false => "false"
  | JNum n => pretty n
  | JStr s => dquote +:+ s +:+ dquote
  | JArr xs =>
      "[" +:+ String.concat ","
        ((fix items (l : list JValue) : list string :=
            match l with
            | [] => []
            | x :: r => show_json x :: items r
            end) xs) +:+ "]"
  | JObj fields =>
      "{" +:+ String.concat ","
        ((fix members (l : list (string * JValue)) : list string :=
            match l with
            | [] => []
            | (k, x) :: r => (dquote +:+ k +:+ dquote +:+ ":" +:+ show_json x) :: members r
            end) fields) +:+ "}"
  end.

Definition chars (s : string) : list string :=
  (λ c, String c EmptyString) <$> String.list_ascii_of_string s.

(** The text of a path before its last slash, if it has one. *)
Fixpoint parent_of (p : string) : option string :=
  match p with
  | EmptyString => None
  | String c rest =>
      match parent_of rest with
      | Some dir => Some (String c dir)
      | None => if Ascii.eqb c slash then Some EmptyString else None
      end
  end.

Definition dirname_of (p : string) : string := default "." (parent_of p).

Definition dirname_of_name name : plain_name name = true → dirname_of name = ".".
Proof.
  unfold plain_name, dirname_of. intros Hname.
  apply andb_prop in Hname as [_ Hname].
  assert (parent_of name = None) as ->; [|done].
  induction name as [|c name IH]; [done|].
  cbn [String.list_ascii_of_string forallb] in Hname.
  apply andb_prop in Hname as [Hc Hname].
  cbn [parent_of]. rewrite (IH Hname).
  by destruct (Ascii.eqb c slash).
Qed.

Definition dirname_of_child dir name :
  plain_name name = true → dirname_of (dir +:+ "/" +:+ name) = dir.
Proof.
  intros Hname. unfold dirname_of.
  assert (parent_of (dir +:+ "/" +:+ name) = Some dir) as ->; [|done].
  assert (parent_of name = None) as Hnone.
  { pose proof (dirname_of_name name Hname) as Hdir. unfold dirname_of in Hdir.
    unfold plain_name in Hname. apply andb_prop in Hname as [_ Hname].
    clear Hdir. induction name as [|c name IH]; [done|].
    cbn [String.list_ascii_of_string forallb] in Hname.
    apply andb_prop in Hname as [Hc Hname].
    cbn [parent_of]. rewrite (IH Hname). by destruct (Ascii.eqb c slash). }
  induction dir as [|c dir IH].
  - change (EmptyString +:+ "/" +:+ name) with (String slash name).
    cbn [parent_of]. by rewrite Hnone.
  - change (String c dir +:+ "/" +:+ name) with (String c (dir +:+ "/" +:+ name)).
    cbn [parent_of]. by rewrite IH.
Qed.

Definition sample_platform (docs : list (string * JValue)) : Platform :=
  {| path_resolve := id;
     path_dirname := dirname_of;
     path_resolve_resolve _ := eq_refl;
     path_dirname_name := dirname_of_name;
     path_dirname_child dir name _ := dirname_of_child dir name;
     yaml_parse text :=
       match lookup_text text docs with
       | Some doc => inr doc
       | None => inl {| yaml_message := "Unexpected input"; yaml_linePos := Some (1, 1)%Z |}
       end;
     json_parse text := lookup_text text docs;
     json_stringify := show_json;
     json_stringify_pretty := show_json;
     ajv_violations schema := Some (schema_violations schema);
     error_message _ := "error";
     number_to_string := pretty;
     code_units := chars;
     code_points := chars;
     replace_star_colon s r := replace_all "*:" r 0 s;
     replace_colon_star_colon s r := replace_all ":*:" r 0 s |}.

(** ** Vocabulary of the statements *)

(** The entries a command adds to the file system.  A Run's Artifact Store
    is a directory tree with one subdirectory per StepExecution, so a run
    that records [N] StepExecutions adds at least [N] entries. *)
Definition added_entries (before after : World) : gset string :=
  dom (w_fs after) ∖ dom (w_fs before).

(** A line printed to the error stream between two worlds. *)
Definition reports_error (before after : World) : Prop :=
  ∃ line, Err line ∈ drop (length (w_out before)) (w_out after).

(** How [validate] shows the path of a schema violation, and the lines it
    prints for a list of violations. *)
Definition shown_path (e : ErrorObject) : string :=
  if String.eqb (instancePath e) EmptyString then "root" else instancePath e.

Definition schema_error_lines `{P : Platform} (errors : list ErrorObject) : list Out :=
  flat_map (λ e, Err ("   " +:+ shown_path e +:+ ": " +:+ message e)
                 :: match data e with
                    | Some d => [Err ("   Value: " +:+ json_stringify d)]
                    | None => []
                    end) errors.

(** [step.id], and whether reading a property of [step] throws. *)
Definition id_of `{P : Platform} (step : JValue) : JValue := get_opt step "id".

Definition nullish (v : JValue) : bool :=
  match v with
  | JUndefined | JNull => true
  | _ => false
  end.

(** The mandatory field of a step type and the words with which [validate]
    asks for it. *)
Definition requirement (type : string) : option (string * string) :=
  if String.eqb type "prompt" then Some ("prompt_file", "prompt_file")
  else if String.eqb type "cmd" then Some ("command", "command")
  else if String.eqb type "agent" then Some ("policy", "policy constraints")
  else None.

(** A step of a type that has a mandatory field, without a truthy value for
    it. *)
Definition lacks_mandatory `{P : Platform} (step : JValue) : bool :=
  match get_opt step "type" with
  | JStr type =>
      match requirement type with
      | Some (field, _) => negb (truthy (get_opt step field))
      | None => false
      end
  | _ => false
  end.

Definition duplicate_message (id : string) : string :=
  "❌ Duplicate step ID: " +:+ id.

Definition missing_message (id type wording : string) : string :=
  "❌ Step '" +:+ id +:+ "': " +:+ type +:+ " steps require " +:+ wording.

(** What one turn of the semantic loop prints when it stops at [step],
    [stepIds] being the ids seen so far. *)
Definition step_error `{P : Platform} (stepIds : list JValue) (step : JValue) : option string :=
  if set_has stepIds (id_of step) then Some (duplicate_message (to_string (id_of step)))
  else if lacks_mandatory step then
    match get_opt step "type" with
    | JStr type =>
        match requirement type with
        | Some (_, wording) => Some (missing_message (to_string (id_of step)) type wording)
        | None => None
        end
    | _ => None
    end
  else None.

(** A computation that ends the process only with code 1. *)
Definition only_exit_1 {A} (m : Proc A) : Prop :=
  ∀ w w' c, m w = (w', Exit c) → c = 1%Z.

(** A graph: a node is a step, given by its id and tagged with its type; an
    edge is a pair of ids. *)
Record Graph := {
  nodes : list (string * string);
  edges : list (string * string)
}.

(** A step of the data model, with its id and its type. *)
Definition described `{P : Platform} (step : JValue) (n : string * string) : Prop :=
  id_of step = JStr n.1 ∧ get_opt step "type" = JStr n.2.

(** The graph of a sequence of steps: one node per step, one edge from each
    step to the next. *)
Definition graph_of (steps : list (string * string)) : Graph :=
  {| nodes := steps; edges := zip steps.*1 (drop 1 steps.*1) |}.

(** *** The DOT language, as far as [diagram] writes it

    A node statement is [  "id" [label="id\n(type)", shape=.., fillcolor=..,
    style=filled];], an edge statement is [  "a" -> "b";]; the attributes
    of a node follow from its type. *)
Definition node_shape (type : string) : string :=
  if String.eqb type "agent" then "diamond" else "box".

Definition node_color (type : string) : string :=
  if String.eqb type "cmd" then "lightblue"
  else if String.eqb type "agent" then "orange"
  else if String.eqb type "apply_diff" then "lightcoral"
  else "lightgreen".

Definition dot_node (n : string * string) : string :=
  "  " +:+ dquote +:+ n.1 +:+ dquote +:+ " [label=" +:+ dquote +:+ n.1
  +:+ backslash +:+ "n(" +:+ n.2 +:+ ")" +:+ dquote +:+ ", shape=" +:+ node_shape n.2
  +:+ ", fillcolor=" +:+ node_color n.2 +:+ ", style=filled];" +:+ newline.

Definition dot_edge (e : string * string) : string :=
  "  " +:+ dquote +:+ e.1 +:+ dquote +:+ " -> " +:+ dquote +:+ e.2 +:+ dquote
  +:+ ";" +:+ newline.

Definition dot_preamble : string :=
  "digraph workflow {" +:+ newline +:+ "  rankdir=TB;" +:+ newline
  +:+ "  node [shape=box, style=rounded];" +:+ newline +:+ newline.

(** The DOT text of a graph: the preamble, the node statements, a blank
    line, the edge statements and the closing brace. *)
Definition dot_text (g : Graph) : string :=
  dot_preamble
  +:+ foldr String.append EmptyString (dot_node <$> nodes g)
  +:+ newline
  +:+ foldr String.append EmptyString (dot_edge <$> edges g)
  +:+ "}" +:+ newline.










(** The types [policy print] accepts, and the number of guardrails prints
    in a sequence of invocations. *)
Definition policy_types : list string := ["baseline"; "inference-profile"; "guardrails"].

Definition guardrails_prints (calls : list (string * PrintOpts)) : nat :=
  length (filter (λ c, c.1 = "guardrails") calls).

(** [BASELINE_POLICY.Statement] after [n] guardrails statements have been
    pushed, and the policy text a print of it emits. *)
Definition baseline_with (n : nat) : list StmtRef :=
  [BASE0; BASE1] ++ replicate n GUARDRAILS_ADDON.

Definition baseline_text `{P : Platform} (n : nat) : string :=
  json_stringify_pretty (policy_json (initial_stmt <$> baseline_with n)).

(** The state of policy.ts after [n] guardrails statements have been pushed:
    only the first inference-profile statement can have been rewritten. *)
Definition memory_after (n : nat) (m : Memory) : Prop :=
  m_arr m BASELINE_Statement = baseline_with n
  ∧ m_arr m INFERENCE_PROFILE_Statement = [INF0; INF1]
  ∧ ∀ r, r ≠ INF0 → m_stmt m r = initial_stmt r.

(** What [validate] prints when the schema reports [errors]. *)
Definition schema_failure_lines `{P : Platform} (file : string) (errors : list ErrorObject)
  : list Out :=
  [Err "❌ Schema validation failed:"] ++ schema_error_lines errors
  ++ [Err ("   File: " +:+ path_resolve file)].

(** ** Sample inputs *)

Definition world_of (files : list (string * Node)) : World :=
  {| w_fs := list_to_map files; w_out := []; w_mem := initial_memory |}.

Definition mk_step (id type : string) (more : list (string * JValue)) : JValue :=
  JObj (("id", JStr id) :: ("type", JStr type) :: more).

Definition mk_workflow (steps : list JValue) : JValue :=
  JObj [("version", JNum 1); ("workflow", JStr "demo"); ("model", JStr "claude");
        ("steps", JArr steps)].

Definition no_opts : RunOpts := {| dryRun := false; approveAll := false |}.

(** A workflow of one command step. *)
Definition one_step_yaml : string :=
  "{version: 1, workflow: demo, model: claude, steps: [{id: A, type: cmd, command: exit 0}]}".

Definition one_step_doc : JValue :=
  mk_workflow [mk_step "A" "cmd" [("command", JStr "exit 0")]].

(** A workflow of four steps, one of each type. *)
Definition pipeline_yaml : string :=
  "{version: 1, workflow: demo, model: claude, steps: [{id: plan, type: prompt, prompt_file: plan.md}, {id: fix, type: agent, policy: {timeout_seconds: 60, max_files: 1, max_edits: 1, allowed_paths: [src/**], cmd_allowlist: []}}, {id: test, type: cmd, command: make test}, {id: land, type: apply_diff}]}".

Definition pipeline_steps : list JValue :=
  [mk_step "plan" "prompt" [("prompt_file", JStr "plan.md")];
   mk_step "fix" "agent"
     [("policy", JObj [("timeout_seconds", JNum 60); ("max_files", JNum 1);
                       ("max_edits", JNum 1); ("allowed_paths", JArr [JStr "src/**"]);
                       ("cmd_allowlist", JArr [])])];
   mk_step "test" "cmd" [("command", JStr "make test")];
   mk_step "land" "apply_diff" []].


(** A workflow whose agent step may apply no edit. *)
Definition zero_edits_yaml : string :=
  "{version: 1, workflow: demo, model: claude, steps: [{id: A, type: agent, policy: {timeout_seconds: 60, max_files: 1, max_edits: 0, allowed_paths: [src/**], cmd_allowlist: []}}]}".

Definition zero_edits_doc : JValue :=
  mk_workflow
    [mk_step "A" "agent"
       [("policy", JObj [("timeout_seconds", JNum 60); ("max_files", JNum 1);
                         ("max_edits", JNum 0); ("allowed_paths", JArr [JStr "src/**"]);
                         ("cmd_allowlist", JArr [])])]].

(** Four command steps with ids a, b, b, a: the first duplicate is b. *)
Definition dup_yaml : string :=
  "{version: 1, workflow: demo, model: claude, steps: [{id: a, type: cmd, command: x}, {id: b, type: cmd, command: y}, {id: b, type: cmd, command: z}, {id: a, type: cmd, command: x}]}".

Definition dup_steps : list JValue :=
  [mk_step "a" "cmd" [("command", JStr "x")];
   mk_step "b" "cmd" [("command", JStr "y")];
   mk_step "b" "cmd" [("command", JStr "z")];
   mk_step "a" "cmd" [("command", JStr "x")]].

(** A prompt step without prompt_file, then two steps with the id b. *)
Definition missing_then_dup_yaml : string :=
  "{version: 1, workflow: demo, model: claude, steps: [{id: a, type: prompt}, {id: b, type: cmd, command: y}, {id: b, type: cmd, command: z}]}".

Definition missing_then_dup_steps : list JValue :=
  [mk_step "a" "prompt" [];
   mk_step "b" "cmd" [("command", JStr "y")];
   mk_step "b" "cmd" [("command", JStr "z")]].

(** A prompt step without prompt_file, then a cmd step without command. *)
Definition two_missing_yaml : string :=
  "{version: 1, workflow: demo, model: claude, steps: [{id: a, type: prompt}, {id: b, type: cmd}]}".

Definition two_missing_steps : list JValue :=
  [mk_step "a" "prompt" []; mk_step "b" "cmd" []].

(** A command step, then an agent step without policy. *)
Definition no_policy_yaml : string :=
  "{version: 1, workflow: demo, model: claude, steps: [{id: a, type: cmd, command: x}, {id: b, type: agent}]}".

Definition no_policy_steps : list JValue :=
  [mk_step "a" "cmd" [("command", JStr "x")]; mk_step "b" "agent" []].

(** A configuration file written some time ago. *)
Definition old_config : list (string * JValue) :=
  [("version", JStr "0.0.9"); ("auth", JStr "cognito-oidc");
   ("regions", JArr [JStr "eu-west-1"]);
   ("metadata", JObj [("created", JStr "2024-01-01"); ("updated", JStr "2024-02-02")])].

Definition old_config_text : string := show_json (JObj old_config).

(** A schema that asks for an object with the four top-level fields of a
    workflow, and its text. *)
Definition top_level_schema : JValue :=
  JObj [("type", JStr "object");
        ("required", JArr [JStr "version"; JStr "workflow"; JStr "model"; JStr "steps"])].

Definition top_level_schema_text : string := show_json top_level_schema.

Definition sample_docs : list (string * JValue) :=
  [(one_step_yaml, one_step_doc); (pipeline_yaml, mk_workflow pipeline_steps);
   (zero_edits_yaml, zero_edits_doc);
   (dup_yaml, mk_workflow dup_steps);
   (missing_then_dup_yaml, mk_workflow missing_then_dup_steps);
   (two_missing_yaml, mk_workflow two_missing_steps);
   (no_policy_yaml, mk_workflow no_policy_steps);
   (old_config_text, JObj old_config);
   (top_level_schema_text, top_level_schema);
   ("{}", JObj [])].

Definition unscoped : PrintOpts := {| region := None; accountId := None |}.

Definition east : PrintOpts := {| region := Some "us-east-1"; accountId := None |}.

(** The world with the workflow text [yaml] in wf.yml and a schema file
    that admits every document. *)
Definition workflow_world (yaml : string) : World :=
  world_of [("wf.yml", File yaml); (schema_file, File "{}")].

(** The sample platform with these texts. *)
Definition sample : Platform := sample_platform sample_docs.

Definition one_step_world : World :=
  world_of [("wf.yml", File one_step_yaml); (schema_file, File "{}")].

(** ** lib/config.ts: loadConfig and validateConfig *)

Section Config_more.
Context `{P : Platform}.

(** [Array.isArray(v)] *)
Definition is_array (v : JValue) : bool :=
  match v with
  | JArr _ => true
  | _ => false
  end.

(** [typeof v] *)
Definition typeof (v : JValue) : string :=
  match v with
  | JUndefined => "undefined"
  | JNull => "object"
  | JBool _ => "boolean"
  | JNum _ => "number"
  | JStr _ => "string"
  | JArr _ | JObj _ => "object"
  end.

(** [loadConfig()].  The function returns the configuration or throws an
    [Error]; the result [inl message] stands for the thrown error with that
    message.  The first error is thrown outside the [try]; inside it, every
    error, the function's own "Invalid config format" included, is caught
    and thrown again with a prefix. *)
Definition loadConfig : Proc (string + JValue) :=
  found ← existsSync CONFIG_PATH;
  if negb found then
    ret (inl ("Config not found: " +:+ CONFIG_PATH +:+ ". Run 'bcce init' first."))
  else
    try_catch
      (content ← readFileSync CONFIG_PATH;
       config ← JSON_parse content;
       version ← lift (get config "version");
       auth ← lift (get config "auth");
       regions ← lift (get config "regions");
       if negb (truthy version) || negb (truthy auth) || negb (is_array regions)
       then ret (inl ("Failed to load config: " +:+ "Invalid config format"))
       else ret (inr config))
      (λ error, ret (inl ("Failed to load config: " +:+ message_of error))).

(** [validateConfig(config)]: a chain of [&&], whose value is [config]
    itself when that is falsy and a boolean otherwise. *)
Definition validateConfig (config : JValue) : JValue :=
  if negb (truthy config) then config
  else
    JBool
      (String.eqb (typeof config) "object"
       && String.eqb (typeof (get_opt config "version")) "string"
       && existsb (same_value_zero (get_opt config "auth"))
            [JStr "identity-center"; JStr "cognito-oidc"]
       && is_array (get_opt config "regions")
       && forallb (λ r, String.eqb (typeof r) "string")
            (match get_opt config "regions" with JArr rs => rs | _ => [] end)
       && String.eqb (typeof (get_opt config "guardrails")) "boolean"
       && String.eqb (typeof (get_opt config "privatelink")) "boolean").

(** [getConfigPath()] *)
Definition getConfigPath : string := CONFIG_PATH.

End Config_more.

(** ** policy.ts: validate *)

(** [execSync(command, { stdio: 'pipe' })] of node:child_process: the output
    of the command, or nothing when the command fails and [execSync]
    throws. *)
Class Shell := { execSync : string → option string }.

Record Check := { action : string; required : bool }.

Definition checks : list Check :=
  [{| action := "bedrock:ListFoundationModels"; required := true |};
   {| action := "bedrock:InvokeModel"; required := true |};
   {| action := "bedrock:ListInferenceProfiles"; required := false |};
   {| action := "bedrock:ListGuardrails"; required := false |}].

Definition colon : Ascii.ascii := Ascii.ascii_of_nat 58.
Definition comma : Ascii.ascii := Ascii.ascii_of_nat 44.
Definition hyphen : Ascii.ascii := Ascii.ascii_of_nat 45.
(** [s.split(sep)] for a separator of one character. *)
Fixpoint String_split (sep : Ascii.ascii) (s : string) : list string :=
  match s with
  | EmptyString => [EmptyString]
  | String c rest =>
      if Ascii.eqb c sep then EmptyString :: String_split sep rest
      else match String_split sep rest with
           | [] => [String c EmptyString]
           | piece :: pieces => String c piece :: pieces
           end
  end.

(** [a === s] for an element read from an array of strings: [None] is the
    undefined of an index past the end. *)
Definition is_string (a : option string) (s : string) : bool :=
  match a with
  | Some a => String.eqb a s
  | None => false
  end.

Section Policy_validate.
Context `{S : Shell}.

(** The catch clause of the loop body. *)
Definition permission_denied (check : Check) : Proc unit :=
  let icon := if required check then "‚ùå" else "‚ö†Ô∏è" in
  console_log (icon +:+ " " +:+ action check +:+ " - Permission denied");;
  when (required check)
    (console_log "   This permission is required for BCCE to function").

(** The body of the loop over [checks].  Only the probe of
    ListFoundationModels can reach the outer catch clause: the other two
    have a try block of their own. *)
Definition run_check (check : Check) : Proc unit :=
  let service := String_split colon (action check) !! 0%nat in
  let action' := String_split colon (action check) !! 1%nat in
  if is_string service "bedrock" then
    if is_string action' "ListFoundationModels" then
      match execSync "aws bedrock list-foundation-models --max-items 1" with
      | Some _ => console_log ("‚úÖ " +:+ action check)
      | None => permission_denied check
      end
    else if is_string action' "ListInferenceProfiles" then
      match execSync "aws bedrock list-inference-profiles --max-items 1" with
      | Some _ => console_log ("‚úÖ " +:+ action check)
      | None => console_log ("‚ö†Ô∏è  " +:+ action check +:+ " (not available in this region)")
      end
    else if is_string action' "ListGuardrails" then
      match execSync "aws bedrock list-guardrails --max-items 1" with
      | Some _ => console_log ("‚úÖ " +:+ action check)
      | None => console_log ("‚ö†Ô∏è  " +:+ action check +:+ " (not available or no guardrails)")
      end
    else console_log ("‚è≠Ô∏è  " +:+ action check +:+ " (cannot test without invoking models)")
  else ret tt.

Fixpoint run_checks (l : list Check) : Proc unit :=
  match l with
  | [] => ret tt
  | check :: rest => run_check check;; run_checks rest
  end.

(** [bcce policy validate] *)
Definition policy_validate_action : Proc unit :=
  console_log "üîç Validating current IAM permissions...";;
  run_checks checks;;
  console_log (newline +:+ "üí° Run `bcce doctor` for comprehensive validation").

End Policy_validate.

(** ** commands/init/init.ts *)

(** The string methods that depend on the engine's tables of characters. *)
Class Text := {
  trim : string → string;          (* String.prototype.trim *)
  toLowerCase : string → string    (* String.prototype.toLowerCase *)
}.

(** The options of [bcce init] as commander passes them: a value option is
    a string or undefined, [--force] is true or undefined. *)
Record InitOpts := {
  o_auth : option string;
  o_regions : option string;
  o_guardrails : option string;
  o_privatelink : option string;
  o_force : bool
}.

(** What the user answers to each prompt, should it be shown. *)
Record Answers := {
  overwrite : bool;
  a_auth : string;
  a_regions : string;
  a_guardrails : string;
  a_privatelink : string
}.

Definition opt_value (o : option string) : JValue :=
  match o with
  | Some s => JStr s
  | None => JUndefined
  end.

Definition is_lower (c : Ascii.ascii) : bool :=
  (97 <=? Ascii.nat_of_ascii c)%nat && (Ascii.nat_of_ascii c <=? 122)%nat.

Definition is_digit (c : Ascii.ascii) : bool :=
  (48 <=? Ascii.nat_of_ascii c)%nat && (Ascii.nat_of_ascii c <=? 57)%nat.

(** [\d+$] *)
Fixpoint digits (s : string) : bool :=
  match s with
  | EmptyString => false
  | String c EmptyString => is_digit c
  | String c rest => is_digit c && digits rest
  end.

(** [[a-z]+-\d+$]; [seen] tells whether a letter has been read. *)
Fixpoint letters_digits (seen : bool) (s : string) : bool :=
  match s with
  | EmptyString => false
  | String c rest =>
      if is_lower c then letters_digits true rest
      else if Ascii.eqb c hyphen then seen && digits rest
      else false
  end.

(** [/^[a-z]{2}-[a-z]+-\d+$/.test(region)] *)
Definition regionPattern_test (region : string) : bool :=
  match region with
  | String a (String b (String c rest)) =>
      is_lower a && is_lower b && Ascii.eqb c hyphen && letters_digits false rest
  | _ => false
  end.

(** The loop of the validator: the message for the first region that does
    not match, if any. *)
Fixpoint check_regions (regions : list string) : option string :=
  match regions with
  | [] => None
  | region :: rest =>
      if negb (regionPattern_test region)
      then Some ("Invalid region format: " +:+ region +:+ ". Expected format: us-east-1")
      else check_regions rest
  end.

Section Init.
Context `{P : Platform} `{T : Text}.

(** [input.split(',').map(s => s.trim()).filter(Boolean)] *)
Definition region_list (input : string) : list string :=
  filter (λ s, s ≠ EmptyString) (trim <$> String_split comma input).

(** The [validate] function of the regions prompt: [None] is its answer
    true, [Some message] its complaint. *)
Definition validate_regions (input : string) : option string :=
  let regions := region_list input in
  if (length regions =? 0)%nat then Some "At least one region is required"
  else check_regions regions.

(** [inquirer.prompt] on the four questions: the object of the answers to
    the questions asked, those whose option was not given. *)
Definition prompt (opts : InitOpts) (user : Answers) : JValue :=
  JObj ((if negb (given (o_auth opts)) then [("auth", JStr (a_auth user))] else [])
        ++ (if negb (given (o_regions opts)) then [("regions", JStr (a_regions user))] else [])
        ++ (if negb (given (o_guardrails opts))
            then [("guardrails", JStr (a_guardrails user))] else [])
        ++ (if negb (given (o_privatelink opts))
            then [("privatelink", JStr (a_privatelink user))] else [])).

(** The lines printed after the configuration has been saved. *)
Definition report_saved (configPath : string) (auth : JValue) (regionList : list string)
    (guardrails privatelink : bool) : Proc unit :=
  console_log (newline +:+ "✅ BCCE configuration saved!");;
  console_log ("📄 Config file: " +:+ configPath +:+ newline);;
  console_log "📋 Configuration Summary:";;
  console_log ("   Auth Track: " +:+ to_string auth);;
  console_log ("   Regions: " +:+ String.concat ", " regionList);;
  console_log ("   Guardrails: " +:+ (if guardrails : bool then "Enabled" else "Disabled"));;
  console_log ("   PrivateLink: " +:+ (if privatelink : bool then "Enabled" else "Disabled") +:+ newline);;
  console_log "🎯 Next Steps:";;
  (if strict_eq_str auth "identity-center" then
     console_log "1. 🔑 Set up AWS SSO: aws configure sso";;
     console_log "2. 🩺 Run health check: bcce doctor";;
     console_log "3. 🚀 Deploy infrastructure: bcce deploy"
   else
     console_log "1. 🏗️  Deploy Cognito infrastructure: bcce deploy";;
     console_log "2. 📦 Build credential helpers: bcce package";;
     console_log "3. 🩺 Run health check: bcce doctor");;
  console_log "4. 🔄 Try a workflow: bcce workflow scaffold my-first-workflow";;
  when privatelink
    (console_log (newline +:+ "⚠️  PrivateLink enabled: Ensure VPC endpoints are configured")).

(** [bcce init], where [user] answers the prompts and [timestamp] is the
    time at which the configuration is saved. *)
Definition init_action (timestamp : string) (opts : InitOpts) (user : Answers)
  : Proc unit :=
  configExists ← existsSync ".bcce.config.json";
  proceed ←
    (if configExists && negb (o_force opts) then
       console_log "⚠️  BCCE config already exists (.bcce.config.json)";;
       if negb (overwrite user) then
         console_log "❌ Cancelled. Use --force to overwrite existing config.";;
         ret false
       else ret true
     else ret true);
  if negb proceed then ret tt
  else
    console_log ("🚀 Initializing BCCE configuration..." +:+ newline);;
    let answers := prompt opts user in
    let auth := js_or (opt_value (o_auth opts)) (get_opt answers "auth") in
    let regionList :=
      region_list (to_string (js_or (opt_value (o_regions opts))
                                (get_opt answers "regions"))) in
    let guardrails :=
      strict_eq_str (js_or (opt_value (o_guardrails opts)) (get_opt answers "guardrails"))
        "on" in
    let privatelink :=
      strict_eq_str (js_or (opt_value (o_privatelink opts)) (get_opt answers "privatelink"))
        "on" in
    let config :=
      JObj [("auth", auth);
            ("regions", JArr (JStr <$> regionList));
            ("guardrails", JBool guardrails);
            ("privatelink", JBool privatelink)] in
    try_catch
      (configPath ← saveConfig timestamp config;
       report_saved configPath auth regionList guardrails privatelink)
      (λ error,
         console_error ("❌ Failed to save configuration:" +:+ " " +:+ message_of error);;
         process_exit 1).

End Init.

(** ** workflow.ts: scaffold *)

(** [fs.mkdirSync(p, { recursive: true })] visits [p] after its ancestors,
    which are the prefixes of [p] that end before a slash. *)
Fixpoint path_prefixes (seen p : string) : list string :=
  match p with
  | EmptyString => [seen]
  | String c rest =>
      if Ascii.eqb c slash then seen :: path_prefixes (seen +:+ "/") rest
      else path_prefixes (seen +:+ String c EmptyString) rest
  end.

(** The callback of [replace(/[^a-z0-9-]/g, '-')] on one code unit. *)
Definition safe_unit (u : string) : string :=
  match u with
  | String c EmptyString =>
      if is_lower c || is_digit c || Ascii.eqb c hyphen then u else "-"
  | _ => "-"
  end.

Record ScaffoldOpts := { template : string }.

(** [promptContent] *)
Definition promptContent (opts : ScaffoldOpts) : string :=
  if String.eqb (template opts) "test-grader" then
    "# Test Grader Workflow" +:+ newline
    +:+ newline +:+ "Analyze the test suite and suggest improvements." +:+ newline
    +:+ newline +:+ "## Tasks" +:+ newline
    +:+ "1. Find all test files" +:+ newline
    +:+ "2. Identify missing test coverage" +:+ newline
    +:+ "3. Suggest additional test cases" +:+ newline
  else if String.eqb (template opts) "agent" then
    "# Agent Workflow" +:+ newline
    +:+ newline +:+ "Perform automated code analysis and fixes." +:+ newline
    +:+ newline +:+ "## Instructions" +:+ newline
    +:+ "Analyze the codebase and make improvements while following best practices." +:+ newline
  else
    "# Basic Workflow" +:+ newline
    +:+ newline +:+ "Your workflow description here." +:+ newline
    +:+ newline +:+ "## Steps" +:+ newline
    +:+ "Describe what this workflow should accomplish." +:+ newline.

(** [workflowContent] *)
Definition workflowContent (name : string) (opts : ScaffoldOpts) : string :=
  if String.eqb (template opts) "test-grader" then
    "version: 1" +:+ newline
    +:+ "workflow: " +:+ dquote +:+ "Test grader - " +:+ name +:+ dquote +:+ newline
    +:+ "model: ${BEDROCK_MODEL_ID}" +:+ newline
    +:+ "guardrails: [" +:+ dquote +:+ "pii-basic" +:+ dquote +:+ ", " +:+ dquote +:+ "secrets-default" +:+ dquote +:+ "]" +:+ newline
    +:+ newline +:+ "env:" +:+ newline
    +:+ "  max_runtime_seconds: 900" +:+ newline
    +:+ "  artifacts_dir: .bcce_runs/${RUN_ID}" +:+ newline
    +:+ newline +:+ "steps:" +:+ newline
    +:+ "  - id: discover_tests" +:+ newline
    +:+ "    type: prompt" +:+ newline
    +:+ "    prompt_file: prompt.md" +:+ newline
    +:+ "    available_tools: [ReadFile, Search]" +:+ newline
    +:+ "    inputs:" +:+ newline
    +:+ "      paths: [" +:+ dquote +:+ "**/*test*" +:+ dquote +:+ ", " +:+ dquote +:+ "**/test*/**" +:+ dquote +:+ "]" +:+ newline
    +:+ "      file_size_limit_kb: 256" +:+ newline
    +:+ newline +:+ "  - id: analyze_coverage  " +:+ newline
    +:+ "    type: agent" +:+ newline
    +:+ "    policy:" +:+ newline
    +:+ "      timeout_seconds: 300" +:+ newline
    +:+ "      max_files: 20" +:+ newline
    +:+ "      max_edits: 1" +:+ newline
    +:+ "      allowed_paths: [" +:+ dquote +:+ "**/*test*" +:+ dquote +:+ ", " +:+ dquote +:+ "src/**" +:+ dquote +:+ ", " +:+ dquote +:+ "lib/**" +:+ dquote +:+ "]" +:+ newline
    +:+ "      cmd_allowlist: [" +:+ dquote +:+ "npm" +:+ dquote +:+ ", " +:+ dquote +:+ "yarn" +:+ dquote +:+ ", " +:+ dquote +:+ "pytest" +:+ dquote +:+ ", " +:+ dquote +:+ "go" +:+ dquote +:+ ", " +:+ dquote +:+ "mvn" +:+ dquote +:+ "]" +:+ newline
    +:+ "    available_tools: [ReadFile, Search, Cmd]" +:+ newline
    +:+ newline +:+ "  - id: run_tests" +:+ newline
    +:+ "    type: cmd" +:+ newline
    +:+ "    command: " +:+ dquote +:+ "npm test || pytest || go test ./... || echo 'No test runner detected'" +:+ dquote +:+ newline
    +:+ "    on_error: continue" +:+ newline
    +:+ newline +:+ "  - id: generate_report" +:+ newline
    +:+ "    type: prompt" +:+ newline
    +:+ "    prompt_file: prompt.md" +:+ newline
    +:+ "    available_tools: [ReadFile]" +:+ newline
  else if String.eqb (template opts) "agent" then
    "version: 1" +:+ newline
    +:+ "workflow: " +:+ dquote +:+ "Agent workflow - " +:+ name +:+ dquote +:+ newline
    +:+ "model: ${BEDROCK_MODEL_ID}" +:+ newline
    +:+ "guardrails: [" +:+ dquote +:+ "pii-basic" +:+ dquote +:+ "]" +:+ newline
    +:+ newline +:+ "env:" +:+ newline
    +:+ "  max_runtime_seconds: 600" +:+ newline
    +:+ newline +:+ "steps:" +:+ newline
    +:+ "  - id: analyze" +:+ newline
    +:+ "    type: agent" +:+ newline
    +:+ "    policy:" +:+ newline
    +:+ "      timeout_seconds: 300" +:+ newline
    +:+ "      max_files: 50" +:+ newline
    +:+ "      max_edits: 10" +:+ newline
    +:+ "      allowed_paths: [" +:+ dquote +:+ "src/**" +:+ dquote +:+ ", " +:+ dquote +:+ "lib/**" +:+ dquote +:+ ", " +:+ dquote +:+ "*.ts" +:+ dquote +:+ ", " +:+ dquote +:+ "*.js" +:+ dquote +:+ ", " +:+ dquote +:+ "*.py" +:+ dquote +:+ "]" +:+ newline
    +:+ "      cmd_allowlist: [" +:+ dquote +:+ "npm" +:+ dquote +:+ ", " +:+ dquote +:+ "yarn" +:+ dquote +:+ ", " +:+ dquote +:+ "pip" +:+ dquote +:+ ", " +:+ dquote +:+ "go" +:+ dquote +:+ "]" +:+ newline
    +:+ "    available_tools: [ReadFile, Search, Diff, Apply, Cmd]" +:+ newline
    +:+ newline +:+ "  - id: apply_changes" +:+ newline
    +:+ "    type: apply_diff" +:+ newline
    +:+ "    approve: false" +:+ newline
  else
    "version: 1" +:+ newline
    +:+ "workflow: " +:+ dquote +:+ name +:+ dquote +:+ newline
    +:+ "model: ${BEDROCK_MODEL_ID}" +:+ newline
    +:+ newline +:+ "steps:" +:+ newline
    +:+ "  - id: main_task" +:+ newline
    +:+ "    type: prompt" +:+ newline
    +:+ "    prompt_file: prompt.md" +:+ newline
    +:+ "    available_tools: [ReadFile, Search]" +:+ newline
    +:+ "    inputs:" +:+ newline
    +:+ "      paths: [" +:+ dquote +:+ "src/**" +:+ dquote +:+ "]" +:+ newline.

Section Scaffold.
Context `{P : Platform} `{T : Text}.

(** [fs.mkdirSync(p, { recursive: true })]: a file in the way makes it
    throw, EEXIST when [p] itself is the file and ENOTDIR when an ancestor
    is; otherwise [p] and its ancestors are directories afterwards. *)
Definition mkdirSync_recursive (p : string) : Proc unit :=
  λ w,
    let dirs := path_resolve <$> path_prefixes EmptyString p in
    let is_file d := match w_fs w !! d with Some (File _) => true | _ => false end in
    if existsb is_file dirs
    then (w, Throw (Error_fs (if is_file (path_resolve p) then "EEXIST" else "ENOTDIR") p))
    else ({| w_fs := foldr (λ d fs, <[d := Dir]> fs) (w_fs w) dirs;
             w_out := w_out w; w_mem := w_mem w |}, Ret tt).

(** [name.toLowerCase().replace(/[^a-z0-9-]/g, '-')] *)
Definition safeName (name : string) : string :=
  String.concat EmptyString (safe_unit <$> code_units (toLowerCase name)).

(** [bcce workflow scaffold <name>] *)
Definition scaffold_action (name : string) (opts : ScaffoldOpts) : Proc unit :=
  let dir := "workflows/examples/" +:+ safeName name in
  try_catch
    (mkdirSync_recursive dir;;
     writeFileSync (dir +:+ "/prompt.md") (promptContent opts);;
     writeFileSync (dir +:+ "/workflow.yml") (workflowContent name opts);;
     console_log "✨ Workflow scaffolded successfully!";;
     console_log ("   Directory: " +:+ dir);;
     console_log ("   Template: " +:+ template opts);;
     console_log (newline +:+ "Next steps:");;
     console_log ("1. Edit " +:+ dir +:+ "/prompt.md with your specific requirements");;
     console_log ("2. Customize " +:+ dir +:+ "/workflow.yml as needed");;
     console_log ("3. Validate: bcce workflow validate " +:+ dir +:+ "/workflow.yml");;
     console_log ("4. Run: bcce workflow run " +:+ dir +:+ "/workflow.yml"))
    (λ error,
       console_error ("❌ Scaffolding error:" +:+ " " +:+ message_of error);;
       process_exit 1).

End Scaffold.

(** ** Further vocabulary *)

(** The defaults [saveConfig] starts from, given what it found on disk. *)
Definition defaults_for `{P : Platform} (timestamp : string) (existingConfig : JValue)
  : list (string * JValue) :=
  [("version", JStr "0.1.0");
   ("auth", JStr "identity-center");
   ("regions", JArr [JStr "us-east-1"]);
   ("guardrails", JBool false);
   ("privatelink", JBool false);
   ("metadata",
    JObj [("created",
           js_or (get_opt (get_opt existingConfig "metadata") "created") (JStr timestamp));
          ("updated", JStr timestamp)])].

(** What [saveConfig] takes for the existing configuration: the parsed
    file, or the empty object when there is no file or it cannot be read or
    parsed. *)
Definition existing_config `{P : Platform} (w : World) : JValue :=
  match w_fs w !! path_resolve CONFIG_PATH with
  | Some (File text) => default (JObj []) (json_parse text)
  | _ => JObj []
  end.

(** The world after [saveConfig] has written [config]. *)
Definition config_written `{P : Platform} (config : list (string * JValue)) (w : World)
  : World :=
  {| w_fs := <[path_resolve CONFIG_PATH := File (json_stringify_pretty (JObj config))]>
               (w_fs w);
     w_out := w_out w; w_mem := w_mem w |}.

(** The message of [policy print] for a type it does not know. *)
Definition invalid_type_message : string :=
  "‚ùå Invalid policy type. Use: baseline, inference-profile, or guardrails".


(** The test of [loadConfig] on a parsed configuration. *)
Definition loadable `{P : Platform} (config : JValue) : bool :=
  truthy (get_opt config "version") && truthy (get_opt config "auth")
  && is_array (get_opt config "regions").

(** The field [k] of a configuration made of [cfg] over [existing] over
    [defaults]. *)
Definition layered (cfg existing defaults : list (string * JValue)) (k : string)
  : option JValue :=
  match assoc k cfg with
  | Some v => Some v
  | None =>
      match assoc k existing with
      | Some v => Some v
      | None => assoc k defaults
      end
  end.

(** A computation that leaves the module memory alone and changes the file
    system at most at the paths [allowed]. *)
Definition writes_within {A} (allowed : string → Prop) (m : Proc A) : Prop :=
  ∀ w, w_mem (m w).1 = w_mem w
       ∧ ∀ q, ¬ allowed q → w_fs (m w).1 !! q = w_fs w !! q.

(** The steps a document declares: those of its [steps] array, none when
    the key is absent or null. *)
Definition declared_steps `{P : Platform} (doc : JValue) : option (list JValue) :=
  match get_opt doc "steps" with
  | JArr xs => Some xs
  | JUndefined | JNull => Some []
  | _ => None
  end.

(** What [validate] prints for a document of [n] steps that passes: the
    verdict with the file, the steps and the model, then the guardrails. *)
Definition verdict_lines `{P : Platform} (file : string) (doc : JValue) (n : nat) : list Out :=
  [Log "✅ Workflow validation passed";
   Log ("   File: " +:+ path_resolve file);
   Log ("   Steps: " +:+ to_string (JNum (Z.of_nat n)));
   Log ("   Model: " +:+ to_string (js_or (get_opt doc "model") (JStr "default")))].

Definition passed_lines `{P : Platform} (file : string) (doc : JValue) (n : nat) : list Out :=
  verdict_lines file doc n
  ++ match get_opt doc "guardrails" with
     | JArr (g :: gs) => [Log ("   Guardrails: " +:+ array_join ", " (g :: gs))]
     | _ => []
     end.

(** The two ends of [validate] after the passes: the document is accepted,
    or printing it fails with [e] and the [catch] clause reports that. *)
Definition accepted `{P : Platform} (file : string) (doc : JValue) (n : nat) (w : World)
  : World * Res unit :=
  (emit (passed_lines file doc n) w, Ret tt).

Definition fails_after_verdict `{P : Platform} (file : string) (doc : JValue) (n : nat)
    (e : JsError) (w : World) : World * Res unit :=
  (emit (verdict_lines file doc n ++ [Err ("❌ Validation error: " +:+ message_of e)]) w,
   Exit 1).

(** Why the file system refuses to write a file at [path], if it does:
    the path is a directory, or it is free and its directory is missing or
    is a file. *)
Definition write_refused `{P : Platform} (w : World) (path : string) : option string :=
  match w_fs w !! path_resolve path with
  | Some Dir => Some "EISDIR"
  | Some (File _) => None
  | None =>
      if String.eqb (path_dirname (path_resolve path)) (path_resolve ".") then None
      else
        match w_fs w !! path_dirname (path_resolve path) with
        | Some Dir => None
        | Some (File _) => Some "ENOTDIR"
        | None => Some "ENOENT"
        end
  end.

(** What [validate] prints for an error of the YAML parser. *)
Definition yaml_error_lines (file : string) (error : YamlError) : list Out :=
  [Err ("❌ YAML parsing error: " +:+ yaml_message error);
   Err ("   File: " +:+ file)]
  ++ match yaml_linePos error with
     | Some (line, col) =>
         [Err ("   Line: " +:+ pretty line +:+ ", Column: " +:+ pretty col)]
     | None => []
     end.

(** A line on the output stream, as opposed to the error stream. *)
Definition is_log (o : Out) : bool :=
  match o with
  | Log _ => true
  | Err _ => false
  end.

(** A probe of [policy validate] fails: [execSync] throws. *)
Definition probe_fails `{S : Shell} (command : string) : Prop := execSync command = None.

(** The value of a setting of [init]: the option when it is given (and not
    empty), the answer to the prompt otherwise. *)
Definition setting (o : option string) (answer : string) : string :=
  if given o then default EmptyString o else answer.

(** The fields [init] passes to [saveConfig]. *)
Definition init_fields `{T : Text} (opts : InitOpts) (user : Answers)
  : list (string * JValue) :=
  [("auth", JStr (setting (o_auth opts) (a_auth user)));
   ("regions", JArr (JStr <$> region_list (setting (o_regions opts) (a_regions user))));
   ("guardrails", JBool (String.eqb (setting (o_guardrails opts) (a_guardrails user)) "on"));
   ("privatelink",
    JBool (String.eqb (setting (o_privatelink opts) (a_privatelink user)) "on"))].

(** Whether [init] goes on to ask its questions: there is no configuration
    in the current directory, or [--force] is given, or the user agrees to
    overwrite. *)
Definition proceeds `{P : Platform} (opts : InitOpts) (user : Answers) (w : World) : bool :=
  negb (bool_decide (is_Some (w_fs w !! path_resolve ".bcce.config.json")))
  || o_force opts || overwrite user.

(** A string of characters that all satisfy [p], and at least one. *)
Definition run_of (p : Ascii.ascii → bool) (s : string) : Prop :=
  s ≠ EmptyString ∧ forallb p (String.list_ascii_of_string s) = true.

(** The strings the region pattern describes: two lower-case letters, a
    hyphen, lower-case letters, a hyphen, digits. *)
Definition region_shape (region : string) : Prop :=
  ∃ a b mid num,
    region = String a (String b (String hyphen (mid +:+ String hyphen num)))
    ∧ is_lower a = true ∧ is_lower b = true
    ∧ run_of is_lower mid ∧ run_of is_digit num.

(** The characters [scaffold] lets through into a directory name. *)
Definition safe_char (c : Ascii.ascii) : bool :=
  is_lower c || is_digit c || Ascii.eqb c hyphen.

(** The directory of a scaffolded workflow, and every path [scaffold] may
    touch: the directory, its ancestors and the two files. *)
Definition scaffold_dir `{P : Platform} `{T : Text} (name : string) : string :=
  "workflows/examples/" +:+ safeName name.

Definition scaffold_paths `{P : Platform} `{T : Text} (name : string) : list string :=
  path_resolve <$> (path_prefixes EmptyString (scaffold_dir name)
                    ++ [scaffold_dir name +:+ "/prompt.md";
                        scaffold_dir name +:+ "/workflow.yml"]).

(** The file system after [mkdirSync_recursive] has made [dirs]. *)
Definition with_dirs (dirs : list string) (fs : gmap string Node) : gmap string Node :=
  foldr (λ d fs, <[d := Dir]> fs) fs dirs.

(** The file system [scaffold] leaves behind when nothing is in its way. *)
Definition scaffolded `{P : Platform} `{T : Text} (name : string) (opts : ScaffoldOpts)
    (fs : gmap string Node) : gmap string Node :=
  <[path_resolve (scaffold_dir name +:+ "/workflow.yml") := File (workflowContent name opts)]>
    (<[path_resolve (scaffold_dir name +:+ "/prompt.md") := File (promptContent opts)]>
       (with_dirs (path_resolve <$> path_prefixes EmptyString (scaffold_dir name)) fs)).

(** Nothing is in the way of [scaffold]: no directory it needs is a file,
    and neither of its files is one of those directories or a directory
    already. *)
Definition clear_for `{P : Platform} `{T : Text} (name : string) (fs : gmap string Node)
  : Prop :=
  Forall (λ d, ∀ content, fs !! d ≠ Some (File content))
    (path_resolve <$> path_prefixes EmptyString (scaffold_dir name))
  ∧ Forall (λ f, (path_resolve f
                  ∉ path_resolve <$> path_prefixes EmptyString (scaffold_dir name))
                 ∧ fs !! path_resolve f ≠ Some Dir)
      [scaffold_dir name +:+ "/prompt.md"; scaffold_dir name +:+ "/workflow.yml"].

(** ** Further sample inputs *)

(** A workflow document without steps. *)
Definition no_steps_yaml : string := "{version: 1, workflow: demo, model: claude}".

Definition no_steps_doc : JValue :=
  JObj [("version", JNum 1); ("workflow", JStr "demo"); ("model", JStr "claude")].

(** A complete configuration, and the one a first save with guardrails
    switched on writes at the time T1. *)
Definition full_config : list (string * JValue) :=
  [("version", JStr "0.1.0"); ("auth", JStr "cognito-oidc");
   ("regions", JArr [JStr "eu-west-1"; JStr "us-east-1"]);
   ("guardrails", JBool true); ("privatelink", JBool false);
   ("metadata", JObj [("created", JStr "2024-01-01"); ("updated", JStr "2024-02-02")])].

Definition guardrails_on : JValue := JObj [("guardrails", JBool true)].

Definition first_save : list (string * JValue) :=
  [("version", JStr "0.1.0"); ("auth", JStr "identity-center");
   ("regions", JArr [JStr "us-east-1"]);
   ("guardrails", JBool true); ("privatelink", JBool false);
   ("metadata", JObj [("created", JStr "T1"); ("updated", JStr "T1")])].

Definition more_docs : list (string * JValue) :=
  [(no_steps_yaml, no_steps_doc);
   (show_json (JObj full_config), JObj full_config);
   (show_json (JObj first_save), JObj first_save);
   ("{}", JObj [])].

(** The sample platform with these texts. *)
Definition sample_more : Platform := sample_platform more_docs.


Definition to_console : DiagramOpts := {| opt_format := "dot"; opt_output := None |}.

(** String methods for the examples: ASCII letters and spaces. *)
Definition lower_ascii (c : Ascii.ascii) : Ascii.ascii :=
  if (65 <=? Ascii.nat_of_ascii c)%nat && (Ascii.nat_of_ascii c <=? 90)%nat
  then Ascii.ascii_of_nat (Ascii.nat_of_ascii c + 32)
  else c.

Fixpoint skip_spaces (l : list Ascii.ascii) : list Ascii.ascii :=
  match l with
  | c :: rest => if Ascii.eqb c (Ascii.ascii_of_nat 32) then skip_spaces rest else l
  | [] => []
  end.

Definition sample_text : Text :=
  {| trim s :=
       String.string_of_list_ascii
         (rev (skip_spaces (rev (skip_spaces (String.list_ascii_of_string s)))));
     toLowerCase s :=
       String.string_of_list_ascii (lower_ascii <$> String.list_ascii_of_string s) |}.

(** [bcce init] without options, and with every option and [--force]. *)
Definition no_init_opts : InitOpts :=
  {| o_auth := None; o_regions := None; o_guardrails := None; o_privatelink := None;
     o_force := false |}.

Definition forced : InitOpts :=
  {| o_auth := Some "cognito-oidc"; o_regions := Some "eu-west-1, us-east-1";
     o_guardrails := Some "ON"; o_privatelink := Some "on"; o_force := true |}.

(** A user who declines to overwrite and otherwise picks two regions and
    the guardrails. *)
Definition cautious : Answers :=
  {| overwrite := false; a_auth := "identity-center";
     a_regions := "us-east-1, eu-west-2"; a_guardrails := "on"; a_privatelink := "off" |}.

Definition configured : World := world_of [(".bcce.config.json", File old_config_text)].

Definition basic : ScaffoldOpts := {| template := "basic" |}.

(** Refuting membership in an explicit list of lines. *)
Ltac no_member H :=
  repeat (apply elem_of_cons in H as [H|H]; [discriminate|]);
  by apply elem_of_nil in H.

(** * Theorems *)

Section Proc_lemmas.
Context `{P : Platform}.

Lemma append_assoc (s1 s2 s3 : string) : (s1 +:+ s2) +:+ s3 = s1 +:+ s2 +:+ s3.
Proof.
  induction s1 as [|c s1 IH]; [reflexivity|].
  change (String c ((s1 +:+ s2) +:+ s3) = String c (s1 +:+ s2 +:+ s3)).
  by rewrite IH.
Qed.

Lemma append_empty_r (s : string) : s +:+ EmptyString = s.
Proof.
  induction s as [|c s IH]; [reflexivity|].
  change (String c (s +:+ EmptyString) = String c s). by rewrite IH.
Qed.

Lemma emit_nil w : emit [] w = w.
Proof. destruct w; unfold emit; simpl. by rewrite app_nil_r. Qed.

Lemma emit_emit l1 l2 w : emit l2 (emit l1 w) = emit (l1 ++ l2) w.
Proof. unfold emit; simpl. by rewrite app_assoc. Qed.

Lemma emit_fs l w : w_fs (emit l w) = w_fs w.
Proof. reflexivity. Qed.

Lemma emit_mem l w : w_mem (emit l w) = w_mem w.
Proof. reflexivity. Qed.

Lemma emit_out l w : w_out (emit l w) = w_out w ++ l.
Proof. reflexivity. Qed.

Lemma bind_ret {A B} (a : A) (f : A → Proc B) w : (ret a ≫= f) w = f a w.
Proof. reflexivity. Qed.

Lemma bind_exit {A B} c (f : A → Proc B) w : (process_exit c ≫= f) w = (w, Exit c).
Proof. reflexivity. Qed.

Lemma bind_throw {A B} e (f : A → Proc B) w : (throw e ≫= f) w = (w, Throw e).
Proof. reflexivity. Qed.

Lemma bind_log {B} line (f : unit → Proc B) w :
  (console_log line ≫= f) w = f tt (emit [Log line] w).
Proof. reflexivity. Qed.

Lemma bind_error {B} line (f : unit → Proc B) w :
  (console_error line ≫= f) w = f tt (emit [Err line] w).
Proof. reflexivity. Qed.

Lemma bind_run {A B} (m : Proc A) (f : A → Proc B) w w' a :
  m w = (w', Ret a) → (m ≫= f) w = f a w'.
Proof. intros Hm. unfold mbind, proc_bind, bind. by rewrite Hm. Qed.

Lemma bind_assoc {A B C} (m : Proc A) (f : A → Proc B) (g : B → Proc C) w :
  ((m ≫= f) ≫= g) w = (m ≫= λ a, f a ≫= g) w.
Proof.
  unfold mbind, proc_bind, bind. destruct (m w) as [w' [a|c|e]]; reflexivity.
Qed.

Lemma bind_lift_inr {A B} (a : A) (f : A → Proc B) w : (lift (inr a) ≫= f) w = f a w.
Proof. reflexivity. Qed.

Lemma bind_lift_inl {A B} e (f : A → Proc B) w : (lift (inl e) ≫= f) w = (w, Throw e).
Proof. reflexivity. Qed.

Lemma bind_when_false {B} m (f : unit → Proc B) w : (when false m ≫= f) w = f tt w.
Proof. reflexivity. Qed.

Lemma bind_when_true {B} m (f : unit → Proc B) w : (when true m ≫= f) w = (m ≫= f) w.
Proof. reflexivity. Qed.

Lemma bind_existsSync {B} p (f : bool → Proc B) w :
  (existsSync p ≫= f) w = f (bool_decide (is_Some (w_fs w !! path_resolve p))) w.
Proof. reflexivity. Qed.

Lemma bind_readFileSync {B} p content (f : string → Proc B) w :
  w_fs w !! path_resolve p = Some (File content) →
  (readFileSync p ≫= f) w = f content w.
Proof.
  intros H. unfold mbind, proc_bind, bind, readFileSync. by rewrite H.
Qed.

Lemma bind_ToString {A B} v (k : string → Proc A) (f : A → Proc B) w :
  ((shown ← lift (ToString v); k shown) ≫= f) w
  = if convertible v then (k (to_string v) ≫= f) w else (w, Throw (TypeError_convert v)).
Proof. unfold ToString. by destruct (convertible v). Qed.

Lemma ToString_string s : ToString (JStr s) = inr s.
Proof. reflexivity. Qed.

Lemma report_schema_errors_spec errors w :
  report_schema_errors errors w = (emit (schema_error_lines errors) w, Ret tt).
Proof.
  revert w. induction errors as [|e errors IH]; intros w.
  - simpl. by rewrite emit_nil.
  - cbn [report_schema_errors]. rewrite bind_error.
    destruct (data e) as [d|] eqn:Hd.
    + rewrite bind_error, IH, !emit_emit. cbn. by rewrite Hd.
    + rewrite bind_ret, IH, !emit_emit. cbn. by rewrite Hd.
Qed.

Lemma writeFileSync_run path content w :
  writeFileSync path content w =
    match write_refused w path with
    | None => ({| w_fs := <[path_resolve path := File content]> (w_fs w);
                  w_out := w_out w; w_mem := w_mem w |}, Ret tt)
    | Some code => (w, Throw (Error_fs code path))
    end.
Proof. unfold writeFileSync, write_refused. by repeat case_match. Qed.

(** The configuration file lies in the current directory: writing it is
    refused only when a directory is in its place. *)
Lemma write_refused_config w :
  write_refused w CONFIG_PATH
  = match w_fs w !! path_resolve CONFIG_PATH with
    | Some Dir => Some "EISDIR"
    | _ => None
    end.
Proof.
  unfold write_refused, CONFIG_PATH.
  rewrite path_resolve_resolve, path_dirname_name by reflexivity.
  by rewrite String.eqb_refl.
Qed.

End Proc_lemmas.

(** ** run and resume *)

Section Run_resume.
Context `{P : Platform}.

(** C1 (as the code has it): [run] executes nothing.  Whatever the workflow
    file and the options, it prints its banner and then either the dry-run
    line or "Workflow execution not yet implemented", returns normally, and
    leaves the file system and the module memory as they were: no
    StepExecution is produced and no artifact directory is created. *)
Theorem run_action_not_implemented (file : string) (opts : RunOpts) (w : World) :
  run_action file opts w =
    (emit [Log ("▶️  Running workflow: " +:+ file);
           Log (if dryRun opts then "🔍 Dry run mode - would execute:"
                else "🚧 Workflow execution not yet implemented")] w,
     Ret tt)
  ∧ added_entries w (run_action file opts w).1 = ∅.
Proof.
  assert (Hrun : run_action file opts w =
    (emit [Log ("▶️  Running workflow: " +:+ file);
           Log (if dryRun opts then "🔍 Dry run mode - would execute:"
                else "🚧 Workflow execution not yet implemented")] w, Ret tt)).
  { unfold run_action. rewrite bind_log.
    destruct (dryRun opts); unfold console_log; by rewrite emit_emit. }
  split; [exact Hrun|].
  rewrite Hrun. unfold added_entries. simpl. apply difference_diag_L.
Qed.

(** C3 (as the code has it): [resume] executes nothing and raises no error.
    For every run id and every [--from] step it prints its banner, the
    starting step when one is given, and "Resume functionality not yet
    implemented"; it returns normally without reading the file system, so
    neither an unknown run id, nor an unknown step, nor a changed workflow
    document is detected. *)
Theorem resume_action_not_implemented (runId : string) (opts : ResumeOpts) (w : World) :
  resume_action runId opts w =
    (emit ([Log ("⏩  Resume workflow run " +:+ runId)]
           ++ match from opts with
              | Some stepId =>
                  if String.eqb stepId EmptyString then []
                  else [Log ("   Starting from step: " +:+ stepId)]
              | None => []
              end
           ++ [Log "🚧 Resume functionality not yet implemented"]) w,
     Ret tt).
Proof.
  unfold resume_action. rewrite bind_log.
  destruct (from opts) as [stepId|].
  - destruct (String.eqb stepId EmptyString); cbn [negb].
    + rewrite bind_when_false. unfold console_log. by rewrite emit_emit.
    + rewrite bind_when_true, bind_log. unfold console_log. by rewrite !emit_emit.
  - rewrite bind_ret. unfold console_log. by rewrite emit_emit.
Qed.

End Run_resume.

(** C1, counterexample: a valid workflow of one step whose command succeeds.
    [validate] accepts the document, and [run] adds no entry to the file
    system, where one step subdirectory was to be created. *)
Lemma run_one_step_counterexample :
  @yaml_parse sample one_step_yaml = inr one_step_doc
  ∧ (@validate_action sample "wf.yml" one_step_world).2 = Ret tt
  ∧ (@run_action "wf.yml" no_opts one_step_world).2 = Ret tt
  ∧ ¬ (1 ≤ size (added_entries one_step_world (run_action "wf.yml" no_opts one_step_world).1)).
Proof.
  split; [reflexivity|]. split; [vm_compute; reflexivity|]. split; [reflexivity|].
  vm_compute. lia.
Qed.

(** C3, counterexample: resuming a run id of which the file system holds no
    record, from a step [B].  [resume] returns normally and prints only its
    banner lines: no error is returned. *)
Lemma resume_unknown_run_counterexample :
  resume_action "2025-01-15T10-30-45-abc123" {| from := Some "B" |} (world_of [])
  = (emit [Log "⏩  Resume workflow run 2025-01-15T10-30-45-abc123";
           Log "   Starting from step: B";
           Log "🚧 Resume functionality not yet implemented"] (world_of []),
     Ret tt)
  ∧ ¬ reports_error (world_of [])
        (resume_action "2025-01-15T10-30-45-abc123" {| from := Some "B" |} (world_of [])).1.
Proof.
  split; [reflexivity|].
  intros [line Hin]. cbn in Hin. no_member Hin.
Qed.

(** ** validate: the structural pass *)

Section Validate_schema.
Context `{P : Platform}.

Lemma validate_action_schema file w content doc text schema all :
  w_fs w !! path_resolve file = Some (File content) →
  yaml_parse content = inr doc →
  w_fs w !! path_resolve (path_resolve schema_file) = Some (File text) →
  json_parse text = Some schema →
  ajv_violations schema = Some all →
  validate_action file w =
    if bool_decide (all doc ≠ [])
    then (emit (schema_failure_lines file (all doc)) w, Exit 1)
    else try_catch (semantic_validation doc;; report_passed file doc)
                   catch_validation_error w.
Proof.
  intros Hfile Hyaml Hschema Hjson Hajv.
  unfold validate_action, try_catch.
  rewrite bind_existsSync, Hfile.
  rewrite bool_decide_true by eauto. cbn [negb].
  rewrite bind_when_false, (bind_readFileSync _ content) by done.
  rewrite Hyaml, bind_ret. cbn zeta.
  rewrite bind_existsSync, Hschema.
  rewrite bool_decide_true by eauto. cbn [negb].
  rewrite bind_when_false, (bind_readFileSync _ text) by done.
  unfold JSON_parse, ajv_compile. rewrite Hjson, bind_ret, Hajv, bind_ret.
  cbn [allErrors ajv].
  destruct (bool_decide (all doc ≠ [])) eqn:Hne.
  - rewrite bind_when_true, bind_assoc, bind_error, bind_assoc.
    unfold mbind at 1, proc_bind, bind at 1.
    rewrite report_schema_errors_spec.
    rewrite bind_assoc, bind_error, bind_exit, !emit_emit.
    reflexivity.
  - rewrite bind_when_false. reflexivity.
Qed.

Lemma schema_error_line_elem (e : ErrorObject) errors :
  e ∈ errors →
  Err ("   " +:+ shown_path e +:+ ": " +:+ message e) ∈ schema_error_lines errors.
Proof.
  intros He. unfold schema_error_lines.
  apply list_elem_of_In, in_flat_map. exists e. split.
  - by apply list_elem_of_In.
  - by left.
Qed.

(** C7: when the schema reports two or more violations of a document,
    [validate] prints all of them in one run: after the heading, one line
    per violation with its path in the document ("root" for the document
    itself) and its message, in ajv's order, then the file, and it ends the
    process with code 1. *)
Theorem validate_reports_all_violations file w content doc text schema all :
  w_fs w !! path_resolve file = Some (File content) →
  yaml_parse content = inr doc →
  w_fs w !! path_resolve (path_resolve schema_file) = Some (File text) →
  json_parse text = Some schema →
  ajv_violations schema = Some all →
  2 ≤ length (all doc) →
  validate_action file w = (emit (schema_failure_lines file (all doc)) w, Exit 1)
  ∧ ∀ e, e ∈ all doc →
         Err ("   " +:+ shown_path e +:+ ": " +:+ message e)
           ∈ w_out (validate_action file w).1.
Proof.
  intros Hfile Hyaml Hschema Hjson Hajv Htwo.
  rewrite (validate_action_schema file w content doc text schema all) by done.
  rewrite bool_decide_true by (intros Hnil; rewrite Hnil in Htwo; simpl in Htwo; lia).
  split; [reflexivity|].
  intros e He. cbn [fst]. rewrite emit_out. unfold schema_failure_lines.
  apply elem_of_app. right. apply elem_of_cons. right.
  apply elem_of_app. left. by apply schema_error_line_elem.
Qed.

End Validate_schema.

(** C7, witness: the empty document lacks the four required top-level
    fields. *)
Lemma validate_reports_all_violations_witness :
  2 ≤ length (schema_violations top_level_schema (JObj []))
  ∧ @validate_action sample "bad.yml"
      (world_of [("bad.yml", File "{}"); (schema_file, File top_level_schema_text)])
    = (emit (@schema_failure_lines sample "bad.yml"
               (schema_violations top_level_schema (JObj [])))
         (world_of [("bad.yml", File "{}"); (schema_file, File top_level_schema_text)]),
       Exit 1).
Proof.
  split; [vm_compute; lia|].
  apply (@validate_reports_all_violations sample "bad.yml"
           (world_of [("bad.yml", File "{}"); (schema_file, File top_level_schema_text)])
           "{}" (JObj []) top_level_schema_text top_level_schema
           (schema_violations top_level_schema));
    try reflexivity.
  vm_compute; lia.
Defined.

(** ** validate: the semantic pass *)

Section Validate_semantic.
Context `{P : Platform}.

Lemma get_not_nullish step k : nullish step = false → get step k = inr (get_opt step k).
Proof.
  intros Hn. unfold get_opt. destruct step; try discriminate; reflexivity.
Qed.

Lemma get_nullish step k : nullish step = true → get step k = inl (TypeError_read step k).
Proof. destruct step; try discriminate; reflexivity. Qed.

Lemma strict_eq_str_true v s : strict_eq_str v s = true → v = JStr s.
Proof.
  destruct v; try discriminate. simpl. intros H. by apply String.eqb_eq in H as ->.
Qed.

Lemma check_steps_nullish stepIds step rest w :
  nullish step = true →
  check_steps stepIds (step :: rest) w = (w, Throw (TypeError_read step "id")).
Proof.
  intros Hn. cbn [check_steps]. by rewrite (get_nullish step "id" Hn), bind_lift_inl.
Qed.

Lemma check_steps_cons stepIds step rest w :
  nullish step = false →
  check_steps stepIds (step :: rest) w =
    match step_error stepIds step with
    | Some msg =>
        if convertible (id_of step) then (emit [Err msg] w, Exit 1)
        else (w, Throw (TypeError_convert (id_of step)))
    | None => check_steps (stepIds ++ [id_of step]) rest w
    end.
Proof.
  intros Hn. cbn [check_steps]. unfold step_error, lacks_mandatory.
  rewrite !(get_not_nullish _ _ Hn), bind_lift_inr. fold (id_of step).
  destruct (set_has stepIds (id_of step)).
  { rewrite bind_when_true, bind_ToString.
    destruct (convertible (id_of step)); [|done].
    by rewrite bind_assoc, bind_error, bind_exit. }
  rewrite bind_when_false, !bind_lift_inr.
  destruct (strict_eq_str (get_opt step "type") "prompt") eqn:Hprompt.
  { apply strict_eq_str_true in Hprompt as ->. cbn [requirement String.eqb Ascii.eqb Bool.eqb].
    cbn [andb]. destruct (truthy (get_opt step "prompt_file")); cbn [negb].
    - rewrite bind_when_false, bind_lift_inr. cbn [strict_eq_str String.eqb Ascii.eqb Bool.eqb andb].
      rewrite bind_when_false, bind_lift_inr, bind_when_false. reflexivity.
    - rewrite bind_when_true, bind_ToString.
      destruct (convertible (id_of step)); [|done].
      rewrite bind_assoc, bind_error, bind_exit.
      unfold missing_message. reflexivity. }
  cbn [andb]. rewrite bind_when_false, bind_lift_inr.
  destruct (strict_eq_str (get_opt step "type") "cmd") eqn:Hcmd.
  { apply strict_eq_str_true in Hcmd as ->. cbn [requirement String.eqb Ascii.eqb Bool.eqb].
    cbn [andb]. destruct (truthy (get_opt step "command")); cbn [negb].
    - rewrite bind_when_false, bind_lift_inr. cbn [strict_eq_str String.eqb Ascii.eqb Bool.eqb andb].
      rewrite bind_when_false. reflexivity.
    - rewrite bind_when_true, bind_ToString.
      destruct (convertible (id_of step)); [|done].
      rewrite bind_assoc, bind_error, bind_exit.
      unfold missing_message. reflexivity. }
  cbn [andb]. rewrite bind_when_false, bind_lift_inr.
  destruct (strict_eq_str (get_opt step "type") "agent") eqn:Hagent.
  { apply strict_eq_str_true in Hagent as ->. cbn [requirement String.eqb Ascii.eqb Bool.eqb].
    cbn [andb]. destruct (truthy (get_opt step "policy")); cbn [negb].
    - rewrite bind_when_false. reflexivity.
    - rewrite bind_when_true, bind_ToString.
      destruct (convertible (id_of step)); [|done].
      rewrite bind_assoc, bind_error, bind_exit.
      unfold missing_message. reflexivity. }
  cbn [andb]. rewrite bind_when_false.
  destruct (get_opt step "type") as [| |b|n|type|xs|fields]; try reflexivity.
  unfold requirement. cbn [strict_eq_str] in Hprompt, Hcmd, Hagent.
  by rewrite Hprompt, Hcmd, Hagent.
Qed.

Lemma step_error_None stepIds step :
  set_has stepIds (id_of step) = false →
  lacks_mandatory step = false →
  step_error stepIds step = None.
Proof. intros Hset Hlacks. unfold step_error. by rewrite Hset, Hlacks. Qed.

Lemma step_error_None_inv stepIds step :
  step_error stepIds step = None →
  set_has stepIds (id_of step) = false ∧ lacks_mandatory step = false.
Proof.
  unfold step_error, lacks_mandatory.
  destruct (set_has stepIds (id_of step)); [discriminate|].
  destruct (get_opt step "type") as [| |b|n|type|xs|fields]; try done.
  destruct (requirement type) as [[field wording]|]; [|done].
  destruct (negb (truthy (get_opt step field))); [discriminate|done].
Qed.

(** A prefix of steps without fault is passed over. *)
Lemma check_steps_skip pre : ∀ stepIds rest w,
  (∀ k s, pre !! k = Some s →
          nullish s = false ∧ step_error (stepIds ++ (id_of <$> take k pre)) s = None) →
  check_steps stepIds (pre ++ rest) w = check_steps (stepIds ++ (id_of <$> pre)) rest w.
Proof.
  induction pre as [|s pre IH]; intros stepIds rest w Hpre.
  - simpl. by rewrite app_nil_r.
  - destruct (Hpre 0 s eq_refl) as [Hn He].
    cbn [take fmap list_fmap] in He. rewrite app_nil_r in He.
    change ((s :: pre) ++ rest) with (s :: (pre ++ rest)).
    rewrite (check_steps_cons _ _ _ _ Hn), He, IH.
    + rewrite fmap_cons. by rewrite <- app_assoc.
    + intros k s' Hk. destruct (Hpre (S k) s' Hk) as [Hn' He'].
      split; [done|]. rewrite <- app_assoc. exact He'.
Qed.

(** A loop that returns has found no fault at any step. *)
Lemma check_steps_ret steps : ∀ stepIds w w',
  check_steps stepIds steps w = (w', Ret tt) →
  ∀ k s, steps !! k = Some s →
         nullish s = false ∧ step_error (stepIds ++ (id_of <$> take k steps)) s = None.
Proof.
  induction steps as [|s0 steps IH]; intros stepIds w w' Hret k s Hk; [done|].
  destruct (nullish s0) eqn:Hn.
  { rewrite (check_steps_nullish _ _ _ _ Hn) in Hret. discriminate. }
  rewrite (check_steps_cons _ _ _ _ Hn) in Hret.
  destruct (step_error stepIds s0) as [msg|] eqn:He;
    [by destruct (convertible (id_of s0))|].
  destruct k as [|k].
  - injection Hk as <-. cbn [take fmap list_fmap]. by rewrite app_nil_r.
  - destruct (IH _ _ _ Hret k s Hk) as [Hn' He'].
    split; [done|]. cbn [take]. rewrite fmap_cons.
    by rewrite <- app_assoc in He'.
Qed.

Lemma set_has_elem stepIds (d : string) :
  JStr d ∈ stepIds → set_has stepIds (JStr d) = true.
Proof.
  intros Hin. unfold set_has. apply existsb_exists. exists (JStr d). split.
  - by apply list_elem_of_In.
  - simpl. apply String.eqb_refl.
Qed.

Lemma set_has_strings (ids : list string) (d : string) :
  set_has (JStr <$> ids) (JStr d) = bool_decide (d ∈ ids).
Proof.
  unfold set_has. induction ids as [|x ids IH]; [reflexivity|].
  rewrite fmap_cons. cbn [existsb same_value_zero]. rewrite IH.
  destruct (String.eqb_spec d x) as [->|Hne]; simpl.
  - symmetry. apply bool_decide_eq_true. left.
  - destruct (bool_decide (d ∈ ids)) eqn:Hd.
    + symmetry. apply bool_decide_eq_true. right. by apply bool_decide_eq_true in Hd.
    + symmetry. apply bool_decide_eq_false. intros Hin.
      apply elem_of_cons in Hin as [?|Hin]; [done|].
      by apply bool_decide_eq_false in Hd.
Qed.

Lemma semantic_validation_array doc steps w :
  get doc "steps" = inr (JArr steps) →
  semantic_validation doc w = check_steps [] steps w.
Proof.
  intros Hsteps. unfold semantic_validation.
  rewrite Hsteps, bind_lift_inr. unfold js_or. cbn [truthy iterate].
  by rewrite bind_lift_inr.
Qed.

(** *** Exits of the semantic pass *)

Lemma only_exit_1_bind {A B} (m : Proc A) (f : A → Proc B) :
  only_exit_1 m → (∀ a, only_exit_1 (f a)) → only_exit_1 (m ≫= f).
Proof.
  intros Hm Hf w w' c. unfold mbind, proc_bind, bind.
  destruct (m w) as [w1 [a|c1|e]] eqn:Hmw; intros Hrun.
  - by apply (Hf a w1 w').
  - injection Hrun as <- <-. by apply (Hm w w1).
  - discriminate.
Qed.

Lemma only_exit_1_ret {A} (a : A) : only_exit_1 (ret a).
Proof. intros w w' c Hrun. discriminate. Qed.

Lemma only_exit_1_throw {A} e : only_exit_1 (@throw A e).
Proof. intros w w' c Hrun. discriminate. Qed.

Lemma only_exit_1_lift {A} (r : JsError + A) : only_exit_1 (lift r).
Proof. destruct r; intros w w' c Hrun; discriminate. Qed.

Lemma only_exit_1_log line : only_exit_1 (console_log line).
Proof. intros w w' c Hrun. discriminate. Qed.

Lemma only_exit_1_when c m : only_exit_1 m → only_exit_1 (when c m).
Proof. destruct c; [done|]. intros _. apply only_exit_1_ret. Qed.

Lemma only_exit_1_check_steps steps : ∀ stepIds, only_exit_1 (check_steps stepIds steps).
Proof.
  induction steps as [|s steps IH]; intros stepIds w w' c Hrun; [discriminate|].
  destruct (nullish s) eqn:Hn.
  - rewrite (check_steps_nullish _ _ _ _ Hn) in Hrun. discriminate.
  - rewrite (check_steps_cons _ _ _ _ Hn) in Hrun.
    destruct (step_error stepIds s).
    + destruct (convertible (id_of s)); [|discriminate]. by injection Hrun as _ <-.
    + by apply (IH _ _ _ _ Hrun).
Qed.

Lemma only_exit_1_semantic_validation doc : only_exit_1 (semantic_validation doc).
Proof.
  unfold semantic_validation.
  apply only_exit_1_bind; [apply only_exit_1_lift|]. intros steps.
  apply only_exit_1_bind; [apply only_exit_1_lift|]. intros elements.
  apply only_exit_1_check_steps.
Qed.

Lemma only_exit_1_report_passed file doc : only_exit_1 (report_passed file doc).
Proof.
  unfold report_passed.
  apply only_exit_1_bind; [apply only_exit_1_log|intros _].
  apply only_exit_1_bind; [apply only_exit_1_log|intros _].
  apply only_exit_1_bind; [apply only_exit_1_lift|intros steps].
  apply only_exit_1_bind; [apply only_exit_1_lift|intros count].
  apply only_exit_1_bind; [apply only_exit_1_log|intros _].
  apply only_exit_1_bind; [apply only_exit_1_lift|intros model].
  apply only_exit_1_bind; [apply only_exit_1_lift|intros shown].
  apply only_exit_1_bind; [apply only_exit_1_log|intros _].
  apply only_exit_1_bind; [apply only_exit_1_lift|intros guardrails].
  apply only_exit_1_when.
  destruct guardrails; try apply only_exit_1_throw.
  apply only_exit_1_bind; [apply only_exit_1_lift|intros joined].
  apply only_exit_1_log.
Qed.

Lemma catch_validation_error_exit e w : (catch_validation_error e w).2 = Exit 1.
Proof. reflexivity. Qed.

(** The enclosing [try]: a body that cannot return and exits only with
    code 1 makes [validate] exit with code 1. *)
Lemma try_catch_rejects (body : Proc unit) w :
  only_exit_1 body →
  (∀ w', body w ≠ (w', Ret tt)) →
  (try_catch body catch_validation_error w).2 = Exit 1.
Proof.
  intros Hexit Hret. unfold try_catch.
  destruct (body w) as [w' [u|c|e]] eqn:Hbody.
  - destruct u. by destruct (Hret w').
  - by rewrite (Hexit _ _ _ Hbody).
  - apply catch_validation_error_exit.
Qed.

(** A document on which the semantic pass cannot return is rejected,
    whatever the schema file holds. *)
Lemma validate_action_rejects file w content doc :
  w_fs w !! path_resolve file = Some (File content) →
  yaml_parse content = inr doc →
  (∀ w1 w2, semantic_validation doc w1 ≠ (w2, Ret tt)) →
  (validate_action file w).2 = Exit 1.
Proof.
  intros Hfile Hyaml Hsem.
  destruct (w_fs w !! path_resolve (path_resolve schema_file)) as [[text|]|] eqn:Hschema.
  - destruct (json_parse text) as [schema|] eqn:Hjson.
    + destruct (ajv_violations schema) as [all|] eqn:Hajv.
      * rewrite (validate_action_schema file w content doc text schema all) by done.
        destruct (bool_decide (all doc ≠ [])); [reflexivity|].
        apply try_catch_rejects.
        -- apply only_exit_1_bind; [apply only_exit_1_semantic_validation|].
           intros _. apply only_exit_1_report_passed.
        -- intros w' Hrun. unfold mbind, proc_bind, bind in Hrun.
           destruct (semantic_validation doc w) as [w1 [u|c|e]] eqn:Hs;
             [destruct u; by apply (Hsem w w1)|discriminate..].
      * unfold validate_action, try_catch.
        rewrite bind_existsSync, Hfile, bool_decide_true by eauto. cbn [negb].
        rewrite bind_when_false, (bind_readFileSync _ content) by done.
        rewrite Hyaml, bind_ret. cbn zeta.
        rewrite bind_existsSync, Hschema, bool_decide_true by eauto. cbn [negb].
        rewrite bind_when_false, (bind_readFileSync _ text) by done.
        unfold JSON_parse, ajv_compile. rewrite Hjson, bind_ret, Hajv, bind_throw.
        reflexivity.
    + unfold validate_action, try_catch.
      rewrite bind_existsSync, Hfile, bool_decide_true by eauto. cbn [negb].
      rewrite bind_when_false, (bind_readFileSync _ content) by done.
      rewrite Hyaml, bind_ret. cbn zeta.
      rewrite bind_existsSync, Hschema, bool_decide_true by eauto. cbn [negb].
      rewrite bind_when_false, (bind_readFileSync _ text) by done.
      unfold JSON_parse. rewrite Hjson, bind_throw.
      reflexivity.
  - unfold validate_action, try_catch.
    rewrite bind_existsSync, Hfile, bool_decide_true by eauto. cbn [negb].
    rewrite bind_when_false, (bind_readFileSync _ content) by done.
    rewrite Hyaml, bind_ret. cbn zeta.
    rewrite bind_existsSync, Hschema, bool_decide_true by eauto. cbn [negb].
    rewrite bind_when_false.
    unfold mbind at 1, proc_bind, bind at 1, readFileSync. rewrite Hschema.
    reflexivity.
  - unfold validate_action, try_catch.
    rewrite bind_existsSync, Hfile, bool_decide_true by eauto. cbn [negb].
    rewrite bind_when_false, (bind_readFileSync _ content) by done.
    rewrite Hyaml, bind_ret. cbn zeta.
    rewrite bind_existsSync, Hschema.
    rewrite bool_decide_false by (intros [? ?]; discriminate). cbn [negb].
    rewrite bind_when_true, bind_assoc, bind_error, bind_exit.
    reflexivity.
Qed.

Lemma id_of_string_not_nullish step id : id_of step = JStr id → nullish step = false.
Proof. destruct step; try done; discriminate. Qed.

(** Steps with pairwise distinct string ids that carry their mandatory
    fields are steps without fault. *)
Lemma clean_prefix steps j ids :
  id_of <$> take j steps = JStr <$> ids →
  NoDup ids →
  (∀ k s, k < j → steps !! k = Some s → lacks_mandatory s = false) →
  ∀ k s, take j steps !! k = Some s →
         nullish s = false
         ∧ step_error ([] ++ (id_of <$> take k (take j steps))) s = None.
Proof.
  intros Hids Hnodup Hfields k s Hk.
  apply lookup_take_Some in Hk as [Hk Hlt].
  assert (Hid : ∃ x, ids !! k = Some x ∧ id_of s = JStr x).
  { assert (Hl : (id_of <$> take j steps) !! k = Some (id_of s)).
    { by rewrite list_lookup_fmap, lookup_take_lt, Hk. }
    rewrite Hids, list_lookup_fmap in Hl.
    destruct (ids !! k) as [x|]; [|discriminate].
    exists x. split; [done|]. by injection Hl. }
  destruct Hid as (x & Hx & Hid).
  split; [by apply (id_of_string_not_nullish _ x)|].
  apply step_error_None; [|by apply (Hfields k)].
  cbn [app]. rewrite fmap_take, Hids, <- fmap_take, Hid, set_has_strings.
  apply bool_decide_eq_false. intros Hin.
  apply elem_of_take in Hin as (k' & Hk' & Hlt').
  pose proof (proj1 (NoDup_alt ids) Hnodup _ _ _ Hk' Hx). lia.
Qed.

(** The loop reaches step [j] when the steps before it are without fault. *)
Lemma check_steps_reaches steps j step ids w :
  steps !! j = Some step →
  id_of <$> take j steps = JStr <$> ids →
  NoDup ids →
  (∀ k s, k < j → steps !! k = Some s → lacks_mandatory s = false) →
  check_steps [] steps w = check_steps (JStr <$> ids) (step :: drop (S j) steps) w.
Proof.
  intros Hj Hids Hnodup Hfields.
  rewrite <- (take_drop_middle steps j step Hj) at 1.
  rewrite check_steps_skip by (by apply (clean_prefix steps j ids)).
  cbn [app]. by rewrite Hids.
Qed.

Lemma semantic_failure_rejects file w content doc text schema all msg :
  w_fs w !! path_resolve file = Some (File content) →
  yaml_parse content = inr doc →
  w_fs w !! path_resolve (path_resolve schema_file) = Some (File text) →
  json_parse text = Some schema →
  ajv_violations schema = Some all →
  all doc = [] →
  semantic_validation doc w = (emit [Err msg] w, Exit 1) →
  validate_action file w = (emit [Err msg] w, Exit 1).
Proof.
  intros Hfile Hyaml Hschema Hjson Hajv Hall Hsem.
  rewrite (validate_action_schema file w content doc text schema all) by done.
  rewrite Hall, bool_decide_false by (by intros ?).
  unfold try_catch, mbind, proc_bind, bind. by rewrite Hsem.
Qed.

(** C4 (as the code has it): a workflow document with two steps of the same
    id is always rejected; the error names the first duplicate id (the id at
    the earliest index [j] whose value already occurred before [j]) when the
    document passes the schema and every step before [j] carries the
    mandatory field of its type.  (The loop checks, step by step, first the
    id and then the mandatory field, and stops at the first fault.) *)
Theorem validate_duplicate_step_id file w content doc steps i j d :
  w_fs w !! path_resolve file = Some (File content) →
  yaml_parse content = inr doc →
  get doc "steps" = inr (JArr steps) →
  i < j →
  id_of <$> steps !! i = Some (JStr d) →
  id_of <$> steps !! j = Some (JStr d) →
  (validate_action file w).2 = Exit 1
  ∧ ∀ text schema all ids,
      w_fs w !! path_resolve (path_resolve schema_file) = Some (File text) →
      json_parse text = Some schema →
      ajv_violations schema = Some all →
      all doc = [] →
      id_of <$> take j steps = JStr <$> ids →
      NoDup ids →
      (∀ k s, k < j → steps !! k = Some s → lacks_mandatory s = false) →
      validate_action file w = (emit [Err (duplicate_message d)] w, Exit 1).
Proof.
  intros Hfile Hyaml Hsteps Hij Hi Hj.
  destruct (steps !! i) as [si|] eqn:Hsi; [|discriminate].
  destruct (steps !! j) as [sj|] eqn:Hsj; [|discriminate].
  injection Hi as Hi. injection Hj as Hj.
  assert (Hseen : JStr d ∈ id_of <$> take j steps).
  { rewrite <- Hi. apply list_elem_of_fmap_2, elem_of_take. eauto. }
  split.
  - apply (validate_action_rejects file w content doc); [done..|].
    intros w1 w2 Hret. rewrite (semantic_validation_array _ steps) in Hret by done.
    destruct (check_steps_ret _ _ _ _ Hret j sj Hsj) as [_ He].
    apply step_error_None_inv in He as [He _].
    cbn [app] in He. rewrite Hj, set_has_elem in He by done. discriminate.
  - intros text schema all ids Hschema Hjson Hajv Hall Hids Hnodup Hfields.
    apply (semantic_failure_rejects file w content doc text schema all); [done..|].
    rewrite (semantic_validation_array _ steps) by done.
    rewrite (check_steps_reaches steps j sj ids) by done.
    rewrite check_steps_cons by (by apply (id_of_string_not_nullish _ d)).
    unfold step_error. rewrite <- Hids, Hj, set_has_elem by done.
    reflexivity.
Qed.

(** C6 (as the code has it): a workflow document with a prompt, cmd or
    agent step that has no truthy value for its mandatory field is always
    rejected; the error names that step's id and the field when the document
    passes the schema, the ids up to and including that step are pairwise
    distinct, and every earlier step carries its own mandatory field, that
    is, when the step is the first fault the loop meets. *)
Theorem validate_missing_mandatory_field file w content doc steps j step id type field wording :
  w_fs w !! path_resolve file = Some (File content) →
  yaml_parse content = inr doc →
  get doc "steps" = inr (JArr steps) →
  steps !! j = Some step →
  id_of step = JStr id →
  get_opt step "type" = JStr type →
  requirement type = Some (field, wording) →
  truthy (get_opt step field) = false →
  (validate_action file w).2 = Exit 1
  ∧ ∀ text schema all ids,
      w_fs w !! path_resolve (path_resolve schema_file) = Some (File text) →
      json_parse text = Some schema →
      ajv_violations schema = Some all →
      all doc = [] →
      id_of <$> take j steps = JStr <$> ids →
      NoDup (ids ++ [id]) →
      (∀ k s, k < j → steps !! k = Some s → lacks_mandatory s = false) →
      validate_action file w = (emit [Err (missing_message id type wording)] w, Exit 1).
Proof.
  intros Hfile Hyaml Hsteps Hj Hid Htype Hreq Hfalsy.
  assert (Hlacks : lacks_mandatory step = true).
  { unfold lacks_mandatory. by rewrite Htype, Hreq, Hfalsy. }
  split.
  - apply (validate_action_rejects file w content doc); [done..|].
    intros w1 w2 Hret. rewrite (semantic_validation_array _ steps) in Hret by done.
    destruct (check_steps_ret _ _ _ _ Hret j step Hj) as [_ He].
    apply step_error_None_inv in He as [_ He]. congruence.
  - intros text schema all ids Hschema Hjson Hajv Hall Hids Hnodup Hfields.
    apply NoDup_app in Hnodup as (Hnodup & Hfresh & _).
    apply (semantic_failure_rejects file w content doc text schema all); [done..|].
    rewrite (semantic_validation_array _ steps) by done.
    rewrite (check_steps_reaches steps j step ids) by done.
    rewrite check_steps_cons by (by apply (id_of_string_not_nullish _ id)).
    unfold step_error. rewrite Hid, set_has_strings, Hlacks, Htype, Hreq.
    rewrite bool_decide_false; [reflexivity|].
    intros Hin. apply (Hfresh id Hin). apply list_elem_of_here.
Qed.

End Validate_semantic.

(** C4, witness: ids a, b, b, a; the error names b, the first duplicate. *)
Lemma validate_duplicate_step_id_witness :
  @validate_action sample "wf.yml" (workflow_world dup_yaml)
  = (emit [Err "❌ Duplicate step ID: b"] (workflow_world dup_yaml), Exit 1).
Proof.
  apply (proj2 (@validate_duplicate_step_id sample "wf.yml" (workflow_world dup_yaml)
                  dup_yaml (mk_workflow dup_steps) dup_steps 1 2 "b"
                  eq_refl eq_refl eq_refl (le_n 2) eq_refl eq_refl)
           "{}" (JObj []) (schema_violations (JObj [])) ["a"; "b"]);
    try reflexivity.
  - apply NoDup_cons. split; [|apply NoDup_singleton].
    intros Hin. apply list_elem_of_singleton in Hin. discriminate.
  - intros k s Hk Hs. destruct k as [|[|k]]; [| |lia]; injection Hs as <-; reflexivity.
Defined.

(** C4, counterexample: the first step lacks prompt_file and the second and
    third share the id b.  [validate] stops at the first step and names no
    duplicate id. *)
Lemma validate_duplicate_counterexample :
  @yaml_parse sample missing_then_dup_yaml = inr (mk_workflow missing_then_dup_steps)
  ∧ @validate_action sample "wf.yml" (workflow_world missing_then_dup_yaml)
    = (emit [Err "❌ Step 'a': prompt steps require prompt_file"]
         (workflow_world missing_then_dup_yaml), Exit 1)
  ∧ ¬ (Err (duplicate_message "b")
         ∈ w_out (@validate_action sample "wf.yml" (workflow_world missing_then_dup_yaml)).1).
Proof.
  split; [reflexivity|]. split; [vm_compute; reflexivity|].
  intros Hin. vm_compute in Hin. no_member Hin.
Qed.

(** C6, witness: the agent step b has no policy and is the first fault. *)
Lemma validate_missing_mandatory_field_witness :
  @validate_action sample "wf.yml" (workflow_world no_policy_yaml)
  = (emit [Err "❌ Step 'b': agent steps require policy constraints"]
       (workflow_world no_policy_yaml), Exit 1).
Proof.
  apply (proj2 (@validate_missing_mandatory_field sample "wf.yml"
                  (workflow_world no_policy_yaml) no_policy_yaml
                  (mk_workflow no_policy_steps) no_policy_steps 1
                  (mk_step "b" "agent" []) "b" "agent" "policy" "policy constraints"
                  eq_refl eq_refl eq_refl eq_refl eq_refl eq_refl eq_refl eq_refl)
           "{}" (JObj []) (schema_violations (JObj [])) ["a"]);
    try reflexivity.
  - apply NoDup_cons. split; [|apply NoDup_singleton].
    intros Hin. apply list_elem_of_singleton in Hin. discriminate.
  - intros k s Hk Hs. destruct k as [|k]; [|lia]. injection Hs as <-. reflexivity.
Defined.

(** C6, counterexample: the cmd step b has no command, but the prompt step
    a before it has no prompt_file.  [validate] names a only; no message
    names b and its field. *)
Lemma validate_missing_field_counterexample :
  @yaml_parse sample two_missing_yaml = inr (mk_workflow two_missing_steps)
  ∧ @lacks_mandatory sample (mk_step "b" "cmd" []) = true
  ∧ @validate_action sample "wf.yml" (workflow_world two_missing_yaml)
    = (emit [Err "❌ Step 'a': prompt steps require prompt_file"]
         (workflow_world two_missing_yaml), Exit 1)
  ∧ ¬ (Err (missing_message "b" "cmd" "command")
         ∈ w_out (@validate_action sample "wf.yml" (workflow_world two_missing_yaml)).1).
Proof.
  split; [reflexivity|]. split; [reflexivity|]. split; [vm_compute; reflexivity|].
  intros Hin. vm_compute in Hin. no_member Hin.
Qed.

(** ** diagram *)

Section Diagram.
Context `{P : Platform}.

Lemma node_stmt_dot (n : string * string) : node_stmt (JStr n.2) n.1 n.2 = dot_node n.
Proof. reflexivity. Qed.

Lemma edge_stmt_dot (a b : string) : edge_stmt a b = dot_edge (a, b).
Proof. reflexivity. Qed.

Lemma described_not_nullish step n : described step n → nullish step = false.
Proof. intros [Hid _]. by apply (id_of_string_not_nullish _ n.1). Qed.

Lemma add_nodes_spec steps ns : ∀ output w,
  Forall2 described steps ns →
  add_nodes output steps w =
    (w, Ret (output +:+ foldr String.append EmptyString (dot_node <$> nodes (graph_of ns)))).
Proof.
  intros output w Hsteps. revert output.
  induction Hsteps as [|s n steps ns Hs _ IH]; intros output.
  - cbn [graph_of nodes fmap list_fmap foldr add_nodes]. by rewrite append_empty_r.
  - pose proof (described_not_nullish _ _ Hs) as Hn. destruct Hs as [Hid Htype].
    cbn [add_nodes]. rewrite !(get_not_nullish _ _ Hn), !bind_lift_inr.
    fold (id_of s). rewrite Hid, Htype.
    repeat (rewrite ToString_string || rewrite bind_lift_inr).
    rewrite IH, node_stmt_dot. cbn [graph_of nodes fmap list_fmap foldr].
    by rewrite append_assoc.
Qed.

Lemma add_edges_cons output s s' steps :
  add_edges output (s :: s' :: steps) =
    (id ← lift (get s "id");
     id ← lift (ToString id);
     id' ← lift (get s' "id");
     id' ← lift (ToString id');
     add_edges (output +:+ edge_stmt id id') (s' :: steps)).
Proof. reflexivity. Qed.

Lemma add_edges_spec steps ns : ∀ output w,
  Forall2 described steps ns →
  add_edges output steps w =
    (w, Ret (output +:+ foldr String.append EmptyString (dot_edge <$> edges (graph_of ns)))).
Proof.
  intros output w Hsteps. revert output.
  induction Hsteps as [|s n steps ns Hs Hrest IH]; intros output.
  - cbn. by rewrite append_empty_r.
  - destruct Hrest as [|s' n' steps ns Hs' Hrest].
    + cbn. by rewrite append_empty_r.
    + pose proof (described_not_nullish _ _ Hs) as Hn.
      pose proof (described_not_nullish _ _ Hs') as Hn'.
      destruct Hs as [Hid _]. destruct Hs' as [Hid' _].
      rewrite add_edges_cons.
      rewrite (get_not_nullish _ _ Hn), (get_not_nullish _ _ Hn'). fold (id_of s) (id_of s').
      rewrite Hid, Hid'. repeat (rewrite ToString_string || rewrite bind_lift_inr).
      rewrite IH, edge_stmt_dot.
      cbn [graph_of edges fmap list_fmap drop zip zip_with foldr fst snd].
      by rewrite append_assoc.
Qed.



(** *** Reading the text back *)
















End Diagram.


(** ** policy print *)

Section Policy_print.
Context `{P : Platform}.

Lemma initial_resource_str r : r ≠ INF0 → ∃ x, st_Resource (initial_stmt r) = ResStr x.
Proof. destruct r; try done; intros _; by eexists. Qed.

Lemma scope_statements_spec opts statements : ∀ w,
  (∀ r, r ≠ INF0 → m_stmt (w_mem w) r = initial_stmt r) →
  ∃ w', scope_statements opts statements w = (w', Ret tt)
        ∧ w_fs w' = w_fs w ∧ w_out w' = w_out w
        ∧ m_arr (w_mem w') = m_arr (w_mem w)
        ∧ ∀ r, r ≠ INF0 → m_stmt (w_mem w') r = initial_stmt r.
Proof.
  induction statements as [|r statements IH]; intros w Hstmt.
  - by exists w.
  - cbn [scope_statements]. unfold mbind at 1, proc_bind, bind at 1, read_stmt.
    destruct (st_Resource (m_stmt (w_mem w) r)) as [x|xs] eqn:Hres.
    + rewrite bind_ret. by apply IH.
    + assert (Hr : r = INF0).
      { destruct (decide (r = INF0)) as [|Hne]; [done|].
        rewrite (Hstmt r Hne) in Hres.
        destruct (initial_resource_str r Hne) as [x Hx]. congruence. }
      subst r. unfold mbind, proc_bind, bind, set_Resource.
      destruct (IH {| w_fs := w_fs w; w_out := w_out w;
                      w_mem := {| m_stmt := λ r', if decide (r' = INF0) then
                                     {| st_Effect := st_Effect (m_stmt (w_mem w) r');
                                        st_Action := st_Action (m_stmt (w_mem w) r');
                                        st_Resource := ResArr (scope_resource opts <$> xs) |}
                                   else m_stmt (w_mem w) r';
                                  m_arr := m_arr (w_mem w) |} |})
        as (w' & Hrun & Hfs & Hout & Harr & Hkeep).
      { intros r Hne. cbn. by rewrite decide_False, Hstmt. }
      exists w'. by rewrite Hrun.
Qed.

Lemma scope_and_print_spec opts policy w :
  (∀ r, r ≠ INF0 → m_stmt (w_mem w) r = initial_stmt r) →
  ∃ w', scope_and_print opts policy w = (w', Ret tt)
        ∧ w_fs w' = w_fs w
        ∧ m_arr (w_mem w') = m_arr (w_mem w)
        ∧ (∀ r, r ≠ INF0 → m_stmt (w_mem w') r = initial_stmt r)
        ∧ (INF0 ∉ m_arr (w_mem w) policy →
           w_out w' = w_out w
             ++ [Log (json_stringify_pretty
                        (policy_json (initial_stmt <$> m_arr (w_mem w) policy)))]).
Proof.
  intros Hstmt.
  assert (Hscoped : ∃ w2,
    when (given (region opts) || given (accountId opts))
      (statements ← read_arr policy; scope_statements opts statements) w
    = (w2, Ret tt) ∧ w_fs w2 = w_fs w ∧ w_out w2 = w_out w
      ∧ m_arr (w_mem w2) = m_arr (w_mem w)
      ∧ ∀ r, r ≠ INF0 → m_stmt (w_mem w2) r = initial_stmt r).
  { destruct (given (region opts) || given (accountId opts)).
    - destruct (scope_statements_spec opts (m_arr (w_mem w) policy) w Hstmt)
        as (w1 & Hrun & Hrest).
      exists w1. split; [|exact Hrest]. exact Hrun.
    - by exists w. }
  destruct Hscoped as (w2 & Hrun2 & Hfs2 & Hout2 & Harr2 & Hkeep2).
  unfold scope_and_print. rewrite (bind_run _ _ _ _ _ Hrun2).
  unfold mbind, proc_bind, bind, read_arr, read_statements, console_log.
  eexists. split; [reflexivity|]. rewrite !emit_fs, emit_mem, emit_out.
  split; [done|]. split; [done|]. split; [done|].
  intros Hno. rewrite Hout2, Harr2. do 5 f_equal.
  apply list_fmap_ext. intros i r Hr. apply Hkeep2. intros ->.
  apply Hno. by apply list_elem_of_lookup_2 in Hr.
Qed.

Lemma baseline_with_no_INF0 n : INF0 ∉ baseline_with n.
Proof.
  unfold baseline_with. intros Hin. apply elem_of_app in Hin as [Hin|Hin].
  - no_member Hin.
  - by apply elem_of_replicate in Hin as [? _].
Qed.

Lemma baseline_with_S n : baseline_with n ++ [GUARDRAILS_ADDON] = baseline_with (S n).
Proof.
  unfold baseline_with. rewrite <- app_assoc. f_equal.
  change [GUARDRAILS_ADDON] with (replicate 1 GUARDRAILS_ADDON). rewrite <- replicate_add.
  f_equal. lia.
Qed.

Lemma print_action_spec type opts n w :
  memory_after n (w_mem w) →
  type ∈ policy_types →
  ∃ w', print_action type opts w = (w', Ret tt)
        ∧ w_fs w' = w_fs w
        ∧ memory_after (if String.eqb type "guardrails" then S n else n) (w_mem w')
        ∧ (type ≠ "inference-profile" →
           w_out w' = w_out w
             ++ [Log (baseline_text (if String.eqb type "guardrails" then S n else n))]).
Proof.
  intros (Hbase & Hinf & Hstmt) Htype.
  unfold policy_types in Htype.
  apply elem_of_cons in Htype as [->|Htype];
    [|apply elem_of_cons in Htype as [->|Htype];
      [|apply list_elem_of_singleton in Htype as ->]];
    unfold print_action, select_policy; cbn [String.eqb Ascii.eqb Bool.eqb].
  - (* baseline *)
    rewrite bind_ret.
    destruct (scope_and_print_spec opts BASELINE_Statement w Hstmt)
      as (w' & Hrun & Hfs & Harr & Hkeep & Hout).
    exists w'. split; [done|]. split; [done|]. split.
    + split; [by rewrite Harr|]. split; [by rewrite Harr|done].
    + intros _. rewrite Hout, Hbase; [done|]. rewrite Hbase. apply baseline_with_no_INF0.
  - (* inference-profile *)
    rewrite bind_ret.
    destruct (scope_and_print_spec opts INFERENCE_PROFILE_Statement w Hstmt)
      as (w' & Hrun & Hfs & Harr & Hkeep & Hout).
    exists w'. split; [done|]. split; [done|]. split; [|done].
    split; [by rewrite Harr|]. split; [by rewrite Harr|done].
  - (* guardrails *)
    rewrite bind_assoc. unfold mbind at 1, proc_bind, bind at 1, push.
    rewrite bind_ret.
    set (w0 := {| w_fs := w_fs w; w_out := w_out w;
                  w_mem := {| m_stmt := m_stmt (w_mem w);
                              m_arr := λ a', if decide (a' = BASELINE_Statement)
                                             then m_arr (w_mem w) a' ++ [GUARDRAILS_ADDON]
                                             else m_arr (w_mem w) a' |} |}).
    assert (Hbase0 : m_arr (w_mem w0) BASELINE_Statement = baseline_with (S n)).
    { cbn. rewrite Hbase. apply baseline_with_S. }
    assert (Hinf0 : m_arr (w_mem w0) INFERENCE_PROFILE_Statement = [INF0; INF1]) by done.
    destruct (scope_and_print_spec opts BASELINE_Statement w0 Hstmt)
      as (w' & Hrun & Hfs & Harr & Hkeep & Hout).
    exists w'. split; [done|]. split; [done|]. split.
    + split; [by rewrite Harr|]. split; [by rewrite Harr|done].
    + intros _. rewrite Hout, Hbase0; [done|]. rewrite Hbase0. apply baseline_with_no_INF0.
Qed.

Lemma initial_memory_after : memory_after 0 initial_memory.
Proof. by split. Qed.

Lemma print_all_spec calls : ∀ n w,
  memory_after n (w_mem w) →
  Forall (λ c, c.1 ∈ policy_types) calls →
  ∃ w', print_all calls w = (w', Ret tt)
        ∧ w_fs w' = w_fs w
        ∧ memory_after (n + guardrails_prints calls) (w_mem w').
Proof.
  induction calls as [|[type opts] calls IH]; intros n w Hmem Hvalid.
  - exists w. split; [done|]. split; [done|].
    unfold guardrails_prints. cbn. by rewrite Nat.add_0_r.
  - apply Forall_cons in Hvalid as [Htype Hvalid]. cbn [fst] in Htype.
    destruct (print_action_spec type opts n w Hmem Htype)
      as (w1 & Hrun & Hfs & Hmem1 & _).
    destruct (IH _ w1 Hmem1 Hvalid) as (w' & Hrun' & Hfs' & Hmem').
    exists w'. cbn [print_all]. rewrite (bind_run _ _ _ _ _ Hrun).
    split; [done|]. split; [congruence|].
    unfold guardrails_prints in *. rewrite filter_cons. cbn [fst].
    destruct (String.eqb_spec type "guardrails") as [->|Hne].
    + rewrite decide_True by done. cbn [length].
      by replace (n + S (length (filter (λ c, c.1 = "guardrails") calls)))
        with (S n + length (filter (λ c, c.1 = "guardrails") calls)) by lia.
    + by rewrite decide_False by done.
Qed.


(** Policies with different numbers of guardrails statements are different
    documents: a print after a guardrails print does not repeat what the
    same print emitted before it. *)
Lemma baseline_policies_differ n m :
  n ≠ m →
  policy_json (initial_stmt <$> baseline_with n) ≠ policy_json (initial_stmt <$> baseline_with m).
Proof.
  intros Hne Heq.
  assert (Hlen : ∀ l1 l2, policy_json l1 = policy_json l2 → length l1 = length l2).
  { intros l1 l2 H. unfold policy_json in H. injection H as H.
    apply (f_equal length) in H. by rewrite !length_fmap in H. }
  apply Hlen in Heq. rewrite !length_fmap in Heq. unfold baseline_with in Heq.
  rewrite !length_app, !length_replicate in Heq. simpl in Heq. lia.
Qed.

End Policy_print.


(** ** saveConfig *)

Section Save_config.
Context `{P : Platform}.

Lemma assoc_update_prop k k' v fields :
  assoc k' fields ≠ None →
  assoc k (update_prop k' v fields) = if String.eqb k k' then Some v else assoc k fields.
Proof.
  induction fields as [|[k0 v0] fields IH]; cbn [update_prop assoc]; [done|].
  intros Hthere. destruct (String.eqb_spec k' k0) as [->|Hne]; cbn [assoc].
  - by destruct (String.eqb k k0).
  - rewrite IH by done. destruct (String.eqb_spec k k0) as [->|Hne'];
      [by rewrite (proj2 (String.eqb_neq _ _)) by done|done].
Qed.

Lemma assoc_insert_prop k k' v fields :
  assoc k' fields = None →
  assoc k (insert_prop k' v fields) = if String.eqb k k' then Some v else assoc k fields.
Proof.
  induction fields as [|[k0 v0] fields IH]; cbn [insert_prop assoc].
  - by destruct (String.eqb k k').
  - intros Hfree. destruct (String.eqb_spec k' k0) as [->|Hne]; [done|].
    destruct (goes_before k' k0); cbn [assoc]; [done|].
    rewrite IH by done. destruct (String.eqb_spec k k0) as [->|Hne'];
      [by rewrite (proj2 (String.eqb_neq _ _)) by done|done].
Qed.

Lemma assoc_set_prop k k' v fields :
  assoc k (set_prop k' v fields) = if String.eqb k k' then Some v else assoc k fields.
Proof.
  unfold set_prop. destruct (assoc k' fields) as [v'|] eqn:Hk.
  - apply assoc_update_prop. by rewrite Hk.
  - by apply assoc_insert_prop.
Qed.

(** Spreading leaves alone the keys the source does not have. *)
Lemma assoc_spread_absent k props : ∀ target,
  assoc k props = None →
  assoc k (foldl (λ acc kv, set_prop kv.1 kv.2 acc) target props) = assoc k target.
Proof.
  induction props as [|[k0 v0] props IH]; intros target Hk; [done|].
  cbn [assoc] in Hk. cbn [foldl fst snd].
  destruct (String.eqb k k0) eqn:Hkk0; [discriminate|].
  rewrite IH by done. by rewrite assoc_set_prop, Hkk0.
Qed.

(** Spreading gives the target the values of the source. *)
Lemma assoc_spread_present k v props : ∀ target,
  NoDup props.*1 →
  assoc k props = Some v →
  assoc k (foldl (λ acc kv, set_prop kv.1 kv.2 acc) target props) = Some v.
Proof.
  induction props as [|[k0 v0] props IH]; intros target Hnodup Hk; [done|].
  cbn [assoc] in Hk. cbn [foldl fst snd].
  rewrite fmap_cons in Hnodup. apply NoDup_cons in Hnodup as [Hfresh Hnodup].
  destruct (String.eqb_spec k k0) as [->|Hne].
  - injection Hk as ->. rewrite assoc_spread_absent.
    + by rewrite assoc_set_prop, String.eqb_refl.
    + destruct (assoc k0 props) as [v'|] eqn:Hin; [|done].
      exfalso. apply Hfresh. clear -Hin.
      induction props as [|[k1 v1] props IH]; [done|].
      cbn [assoc] in Hin. rewrite fmap_cons.
      destruct (String.eqb_spec k0 k1) as [->|Hne]; [apply list_elem_of_here|].
      apply list_elem_of_further. by apply IH.
  - by apply IH.
Qed.

(** C10: when the configuration file parses (to anything but [null]),
    [saveConfig] writes a configuration in which every field of the parsed
    value that [cfg] does not supply has the value it had in the file (the
    parser gives an object pairwise distinct keys).  In particular the whole
    [metadata] object is carried over, so that both [metadata.created] and
    [metadata.updated] keep their old values and the time of the save
    appears nowhere. *)
Theorem saveConfig_carries_over timestamp cfg w text existing :
  w_fs w !! path_resolve CONFIG_PATH = Some (File text) →
  json_parse text = Some existing →
  nullish existing = false →
  NoDup (own_props existing).*1 →
  ∃ config,
    saveConfig timestamp cfg w
    = ({| w_fs := <[path_resolve CONFIG_PATH := File (json_stringify_pretty (JObj config))]>
                    (w_fs w);
          w_out := w_out w; w_mem := w_mem w |}, Ret CONFIG_PATH)
    ∧ (∀ k v, assoc k (own_props existing) = Some v → assoc k (own_props cfg) = None →
              assoc k config = Some v)
    ∧ (∀ metadata, assoc "metadata" (own_props existing) = Some metadata →
                   assoc "metadata" (own_props cfg) = None →
                   ∃ written, assoc "metadata" config = Some written
                     ∧ get_opt written "created" = get_opt metadata "created"
                     ∧ get_opt written "updated" = get_opt metadata "updated").
Proof.
  intros Hfile Hjson Hnull Hnodup.
  destruct (build_config timestamp existing cfg) as [e|config] eqn:Hbuild.
  { unfold build_config in Hbuild. rewrite (get_not_nullish _ _ Hnull) in Hbuild.
    discriminate. }
  assert (Hcarry : ∀ k v, assoc k (own_props existing) = Some v →
                          assoc k (own_props cfg) = None → assoc k config = Some v).
  { intros k v Hk Hcfg. unfold build_config in Hbuild.
    rewrite (get_not_nullish _ _ Hnull) in Hbuild.
    injection Hbuild as <-. unfold spread at 1.
    rewrite assoc_spread_absent by done.
    unfold spread. by apply assoc_spread_present. }
  exists config. split; [|split; [exact Hcarry|]].
  - unfold saveConfig.
    rewrite bind_existsSync, Hfile, bool_decide_true by eauto.
    assert (Hread : try_catch (text ← readFileSync CONFIG_PATH; JSON_parse text)
                      (λ _, ret (JObj [])) w = (w, Ret existing)).
    { unfold try_catch. rewrite (bind_readFileSync _ text) by done.
      unfold JSON_parse. by rewrite Hjson. }
    rewrite (bind_run _ _ _ _ _ Hread), Hbuild, bind_lift_inr.
    unfold mbind, proc_bind, bind, writeFileSync. by rewrite Hfile.
  - intros metadata Hmeta Hcfg. exists metadata. by rewrite (Hcarry _ _ Hmeta Hcfg).
Qed.

(** A configuration file that holds [null] makes [saveConfig] throw before
    it writes anything. *)
Lemma saveConfig_null timestamp cfg w text :
  w_fs w !! path_resolve CONFIG_PATH = Some (File text) →
  json_parse text = Some JNull →
  saveConfig timestamp cfg w = (w, Throw (TypeError_read JNull "metadata")).
Proof.
  intros Hfile Hjson. unfold saveConfig.
  rewrite bind_existsSync, Hfile, bool_decide_true by eauto.
  assert (Hread : try_catch (text ← readFileSync CONFIG_PATH; JSON_parse text)
                    (λ _, ret (JObj [])) w = (w, Ret JNull)).
  { unfold try_catch. rewrite (bind_readFileSync _ text) by done.
    unfold JSON_parse. by rewrite Hjson. }
  by rewrite (bind_run _ _ _ _ _ Hread).
Qed.

End Save_config.

(** C10, witness: an old configuration is saved again with [guardrails]
    switched on; its version, track, regions and metadata are those of the
    file. *)
Lemma saveConfig_carries_over_witness :
  ∃ config,
    @saveConfig sample "2026-01-01T00:00:00.000Z" (JObj [("guardrails", JBool true)])
      (world_of [(".bcce.config.json", File old_config_text)])
    = ({| w_fs := <[".bcce.config.json" := File (show_json (JObj config))]>
                    (w_fs (world_of [(".bcce.config.json", File old_config_text)]));
          w_out := []; w_mem := initial_memory |}, Ret ".bcce.config.json")
    ∧ assoc "version" config = Some (JStr "0.0.9")
    ∧ assoc "metadata" config
      = Some (JObj [("created", JStr "2024-01-01"); ("updated", JStr "2024-02-02")]).
Proof.
  destruct (@saveConfig_carries_over sample "2026-01-01T00:00:00.000Z"
              (JObj [("guardrails", JBool true)])
              (world_of [(".bcce.config.json", File old_config_text)])
              old_config_text (JObj old_config) eq_refl eq_refl eq_refl)
    as (config & Hrun & Hcarry & _).
  - repeat (apply NoDup_cons; split; [intros Hin; no_member Hin|]). apply NoDup_nil_2.
  - exists config. split; [exact Hrun|]. split; apply Hcarry; reflexivity.
Defined.

(** * Further properties of the commands *)

(** ** Exits, exceptions and writes *)

Section Frames.
Context `{P : Platform}.

Lemma only_exit_1_error line : only_exit_1 (console_error line).
Proof. intros w w' c Hrun. discriminate. Qed.

Lemma only_exit_1_exit {A} : only_exit_1 (@process_exit A 1).
Proof. intros w w' c Hrun. by injection Hrun as _ <-. Qed.

Lemma only_exit_1_existsSync p : only_exit_1 (existsSync p).
Proof. intros w w' c Hrun. discriminate. Qed.

Lemma only_exit_1_readFileSync p : only_exit_1 (readFileSync p).
Proof.
  intros w w' c. unfold readFileSync.
  destruct (w_fs w !! path_resolve p) as [[content|]|]; discriminate.
Qed.

Lemma only_exit_1_writeFileSync p content : only_exit_1 (writeFileSync p content).
Proof.
  intros w w' c. unfold writeFileSync. repeat case_match; discriminate.
Qed.

Lemma only_exit_1_JSON_parse text : only_exit_1 (JSON_parse text).
Proof. unfold JSON_parse. destruct (json_parse text); intros w w' c Hrun; discriminate. Qed.

Lemma only_exit_1_ajv_compile opts schema : only_exit_1 (ajv_compile opts schema).
Proof.
  unfold ajv_compile. destruct (ajv_violations schema); intros w w' c Hrun; discriminate.
Qed.

Lemma only_exit_1_report_schema_errors errors : only_exit_1 (report_schema_errors errors).
Proof. intros w w' c. rewrite report_schema_errors_spec. discriminate. Qed.

(** The body of [validate], the part inside [try]. *)
Lemma only_exit_1_validate_body file :
  ∃ body, validate_action file = try_catch body catch_validation_error ∧ only_exit_1 body.
Proof.
  eexists. split; [reflexivity|].
  apply only_exit_1_bind; [apply only_exit_1_existsSync|intros found].
  apply only_exit_1_bind.
  { apply only_exit_1_when, only_exit_1_bind; [apply only_exit_1_error|intros _].
    apply only_exit_1_exit. }
  intros _. apply only_exit_1_bind; [apply only_exit_1_readFileSync|intros content].
  apply only_exit_1_bind.
  { destruct (yaml_parse content) as [error|doc]; [|apply only_exit_1_ret].
    apply only_exit_1_bind; [apply only_exit_1_error|intros _].
    apply only_exit_1_bind; [apply only_exit_1_error|intros _].
    apply only_exit_1_bind; [|intros _; apply only_exit_1_exit].
    destruct (yaml_linePos error) as [[line col]|];
      [apply only_exit_1_error|apply only_exit_1_ret]. }
  intros workflow. cbn zeta.
  apply only_exit_1_bind; [apply only_exit_1_existsSync|intros found'].
  apply only_exit_1_bind.
  { apply only_exit_1_when, only_exit_1_bind; [apply only_exit_1_error|intros _].
    apply only_exit_1_exit. }
  intros _. apply only_exit_1_bind; [apply only_exit_1_readFileSync|intros text].
  apply only_exit_1_bind; [apply only_exit_1_JSON_parse|intros schema].
  apply only_exit_1_bind; [apply only_exit_1_ajv_compile|intros validate].
  apply only_exit_1_bind.
  { apply only_exit_1_when.
    apply only_exit_1_bind; [apply only_exit_1_error|intros _].
    apply only_exit_1_bind; [apply only_exit_1_report_schema_errors|intros _].
    apply only_exit_1_bind; [apply only_exit_1_error|intros _].
    apply only_exit_1_exit. }
  intros _. apply only_exit_1_bind; [apply only_exit_1_semantic_validation|intros _].
  apply only_exit_1_report_passed.
Qed.

Lemma writes_within_weaken {A} (allowed allowed' : string → Prop) (m : Proc A) :
  (∀ q, allowed q → allowed' q) → writes_within allowed m → writes_within allowed' m.
Proof.
  intros Hsub Hm w. destruct (Hm w) as [Hmem Hfs]. split; [done|].
  intros q Hq. apply Hfs. intros Ha. by apply Hq, Hsub.
Qed.

Lemma writes_within_bind {A B} allowed (m : Proc A) (f : A → Proc B) :
  writes_within allowed m → (∀ a, writes_within allowed (f a)) →
  writes_within allowed (m ≫= f).
Proof.
  intros Hm Hf w. unfold mbind, proc_bind, bind.
  destruct (Hm w) as [Hmem Hfs]. destruct (m w) as [w1 [a|c|e]]; [|done..].
  destruct (Hf a w1) as [Hmem' Hfs']. cbn [fst] in *. split; [congruence|].
  intros q Hq. by rewrite Hfs', Hfs.
Qed.

Lemma writes_within_try_catch {A} allowed (body : Proc A) handler :
  writes_within allowed body → (∀ e, writes_within allowed (handler e)) →
  writes_within allowed (try_catch body handler).
Proof.
  intros Hm Hf w. unfold try_catch.
  destruct (Hm w) as [Hmem Hfs]. destruct (body w) as [w1 [a|c|e]]; [done..|].
  destruct (Hf e w1) as [Hmem' Hfs']. cbn [fst] in *. split; [congruence|].
  intros q Hq. by rewrite Hfs', Hfs.
Qed.

Lemma writes_within_ret {A} allowed (a : A) : writes_within allowed (ret a).
Proof. by intros w. Qed.

Lemma writes_within_throw {A} allowed e : writes_within allowed (@throw A e).
Proof. by intros w. Qed.

Lemma writes_within_exit {A} allowed c : writes_within allowed (@process_exit A c).
Proof. by intros w. Qed.

Lemma writes_within_log allowed line : writes_within allowed (console_log line).
Proof. by intros w. Qed.

Lemma writes_within_error allowed line : writes_within allowed (console_error line).
Proof. by intros w. Qed.

Lemma writes_within_lift {A} allowed (r : JsError + A) : writes_within allowed (lift r).
Proof. by destruct r; intros w. Qed.

Lemma writes_within_when allowed c m :
  writes_within allowed m → writes_within allowed (when c m).
Proof. destruct c; [done|]. intros _. apply writes_within_ret. Qed.

Lemma writes_within_existsSync allowed p : writes_within allowed (existsSync p).
Proof. by intros w. Qed.

Lemma writes_within_readFileSync allowed p : writes_within allowed (readFileSync p).
Proof.
  intros w. unfold readFileSync. by destruct (w_fs w !! path_resolve p) as [[content|]|].
Qed.

Lemma writes_within_writeFileSync p content :
  writes_within (λ q, q = path_resolve p) (writeFileSync p content).
Proof.
  intros w. unfold writeFileSync.
  repeat case_match; (split; [done|]); intros q Hq;
    cbn [fst w_fs]; try done; by rewrite lookup_insert_ne.
Qed.

Lemma writes_within_JSON_parse allowed text : writes_within allowed (JSON_parse text).
Proof. unfold JSON_parse. by destruct (json_parse text); intros w. Qed.

Lemma writes_within_ajv_compile allowed opts schema :
  writes_within allowed (ajv_compile opts schema).
Proof. unfold ajv_compile. by destruct (ajv_violations schema); intros w. Qed.

Lemma writes_within_report_schema_errors allowed errors :
  writes_within allowed (report_schema_errors errors).
Proof. intros w. by rewrite report_schema_errors_spec. Qed.

Lemma writes_within_check_steps allowed steps : ∀ stepIds,
  writes_within allowed (check_steps stepIds steps).
Proof.
  induction steps as [|s steps IH]; intros stepIds w; [done|].
  destruct (nullish s) eqn:Hn.
  - by rewrite (check_steps_nullish _ _ _ _ Hn).
  - rewrite (check_steps_cons _ _ _ _ Hn).
    destruct (step_error stepIds s); [by destruct (convertible (id_of s))|]. apply IH.
Qed.

Lemma writes_within_nothing {A} (m : Proc A) w :
  writes_within (λ _, False) m → w_fs (m w).1 = w_fs w ∧ w_mem (m w).1 = w_mem w.
Proof.
  intros Hm. destruct (Hm w) as [Hmem Hfs]. split; [|done].
  apply map_eq. intros q. apply Hfs. by intros [].
Qed.

End Frames.

Create HintDb frames.

#[export] Hint Resolve writes_within_ret writes_within_throw writes_within_exit
  writes_within_log writes_within_error writes_within_lift writes_within_when
  writes_within_existsSync writes_within_readFileSync writes_within_JSON_parse
  writes_within_ajv_compile writes_within_report_schema_errors
  writes_within_check_steps : frames.

#[export] Hint Extern 2 (writes_within _ (_ ≫= _)) =>
  apply writes_within_bind; [|intros ?] : frames.

#[export] Hint Extern 3 (writes_within _ (match ?x with _ => _ end)) =>
  destruct x : frames.

Section Validate_frames.
Context `{P : Platform}.

(** X1: [validate] never ends with an uncaught exception and never exits
    with a code other than 1: for every file and every state of the file
    system it either returns normally or ends the process with code 1. *)
Theorem validate_action_ends (file : string) (w : World) :
  (validate_action file w).2 = Ret tt ∨ (validate_action file w).2 = Exit 1.
Proof.
  destruct (only_exit_1_validate_body file) as (body & -> & Hexit).
  unfold try_catch. destruct (body w) as [w' [u|c|e]] eqn:Hbody.
  - left. by destruct u.
  - right. by rewrite (Hexit _ _ _ Hbody).
  - right. apply catch_validation_error_exit.
Qed.

(** X2: [validate] only reads: whatever it reports, it leaves the file
    system and the module memory exactly as it found them. *)
Theorem validate_action_read_only (file : string) (w : World) :
  w_fs (validate_action file w).1 = w_fs w
  ∧ w_mem (validate_action file w).1 = w_mem w.
Proof.
  apply writes_within_nothing. unfold validate_action.
  apply writes_within_try_catch.
  - unfold semantic_validation, report_passed. eauto 40 with frames.
  - intros e. unfold catch_validation_error. eauto with frames.
Qed.

Lemma steps_line steps_v steps :
  match steps_v with
  | JArr xs => Some xs
  | JUndefined | JNull => Some []
  | _ => None
  end = Some steps →
  js_or steps_v (JArr []) = JArr steps
  ∧ ToString (js_or (get_opt steps_v "length") (JNum 0))
    = inr (to_string (JNum (Z.of_nat (length steps)))).
Proof.
  destruct steps_v as [| |b|n|s|xs|fields]; try discriminate; intros [= <-]; try done.
  split; [done|]. unfold get_opt, js_or. cbn [get String.eqb Ascii.eqb Bool.eqb truthy].
  by destruct (Z.of_nat (length xs) =? 0)%Z eqn:Hz; [apply Z.eqb_eq in Hz as ->|].
Qed.

Lemma check_steps_passes steps ids w :
  id_of <$> steps = JStr <$> ids →
  NoDup ids →
  (∀ s, s ∈ steps → lacks_mandatory s = false) →
  check_steps [] steps w = (w, Ret tt).
Proof.
  intros Hids Hnodup Hfields.
  rewrite <- (app_nil_r steps) at 1. rewrite check_steps_skip; [done|].
  rewrite <- (firstn_all steps). apply (clean_prefix steps (length steps) ids).
  - by rewrite firstn_all.
  - done.
  - intros k s _ Hk. apply Hfields. by apply list_elem_of_lookup_2 in Hk.
Qed.

Lemma convertible_js_or a b :
  convertible a = true → convertible b = true → convertible (js_or a b) = true.
Proof. unfold js_or. by destruct (truthy a). Qed.

Lemma report_passed_run file doc steps w :
  nullish doc = false →
  declared_steps doc = Some steps →
  convertible (get_opt doc "model") = true →
  report_passed file doc w =
    match get_opt doc "guardrails" with
    | JArr gs =>
        if convertible (JArr gs) then (emit (passed_lines file doc (length steps)) w, Ret tt)
        else (emit (verdict_lines file doc (length steps)) w, Throw (TypeError_convert (JArr gs)))
    | g =>
        if truthy (get_opt g "length")
        then (emit (verdict_lines file doc (length steps)) w,
              Throw (TypeError_not_function g "join"))
        else (emit (passed_lines file doc (length steps)) w, Ret tt)
    end.
Proof.
  intros Hdoc Hsteps Hmodel.
  apply steps_line in Hsteps as [_ Hline].
  pose proof (convertible_js_or _ (JStr "default") Hmodel eq_refl) as Hshown.
  unfold report_passed, passed_lines, verdict_lines.
  rewrite !bind_log, !(get_not_nullish _ _ Hdoc), bind_lift_inr, Hline.
  rewrite bind_lift_inr, bind_log, bind_lift_inr.
  unfold ToString at 1. rewrite Hshown.
  rewrite bind_lift_inr, bind_log, !emit_emit.
  unfold mbind, proc_bind, bind, lift, ret. cbn [app].
  destruct (get_opt doc "guardrails") as [| |b|n|s|gs|fields] eqn:Hg.
  1-5, 7: by destruct (truthy (get_opt _ "length")); unfold when, throw, ret;
    rewrite ?app_nil_r.
  destruct gs as [|g gs]; [reflexivity|].
  change (truthy (get_opt (JArr (g :: gs)) "length")) with true.
  unfold when, Array_join. destruct (convertible (JArr (g :: gs))); [|reflexivity].
  unfold console_log. by rewrite emit_emit.
Qed.

(** The run of [validate] on a document that passes the schema and the
    semantic loop. *)
Lemma validate_action_verdict file w content doc text schema all steps ids :
  w_fs w !! path_resolve file = Some (File content) →
  yaml_parse content = inr doc →
  w_fs w !! path_resolve (path_resolve schema_file) = Some (File text) →
  json_parse text = Some schema →
  ajv_violations schema = Some all →
  all doc = [] →
  nullish doc = false →
  declared_steps doc = Some steps →
  id_of <$> steps = JStr <$> ids →
  NoDup ids →
  (∀ s, s ∈ steps → lacks_mandatory s = false) →
  convertible (get_opt doc "model") = true →
  validate_action file w =
    match get_opt doc "guardrails" with
    | JArr gs =>
        if convertible (JArr gs) then accepted file doc (length steps) w
        else fails_after_verdict file doc (length steps) (TypeError_convert (JArr gs)) w
    | g =>
        if truthy (get_opt g "length")
        then fails_after_verdict file doc (length steps) (TypeError_not_function g "join") w
        else accepted file doc (length steps) w
    end.
Proof.
  intros Hfile Hyaml Hschema Hjson Hajv Hall Hdoc Hsteps Hids Hnodup Hfields Hmodel.
  rewrite (validate_action_schema file w content doc text schema all) by done.
  rewrite Hall, bool_decide_false by (by intros ?).
  assert (Hsem : semantic_validation doc w = (w, Ret tt)).
  { unfold semantic_validation. apply steps_line in Hsteps as [Hor _].
    rewrite (get_not_nullish _ _ Hdoc), bind_lift_inr, Hor. cbn [iterate].
    rewrite bind_lift_inr. by apply (check_steps_passes steps ids). }
  unfold try_catch. rewrite (bind_run _ _ _ _ _ Hsem).
  rewrite (report_passed_run file doc steps w) by done.
  unfold accepted, fails_after_verdict, catch_validation_error.
  destruct (get_opt doc "guardrails") as [| |b|n|s|gs|fields];
    (destruct (truthy (get_opt _ "length")) || destruct (convertible (JArr gs)));
    try reflexivity;
    by rewrite bind_error, emit_emit.
Qed.

(** X3: a document that is not null, passes the schema, whose steps have
    pairwise distinct string ids and carry the mandatory field of their
    type, and whose model can be printed, gets the verdict: [validate]
    prints that the validation passed, the file, the number of steps and the
    model ("default" when none is given).  When [guardrails] is a list
    whose elements can be printed, or anything without a truthy [length],
    the non-empty list is printed as well and [validate] returns normally.
    Otherwise (a non-empty string, an object with a length, a list with an
    element that cannot be printed) the verdict is followed by a
    "Validation error" line and the process ends with code 1.  A document
    without [steps] counts as one of no steps. *)
Theorem validate_action_accepts file w content doc text schema all steps ids :
  w_fs w !! path_resolve file = Some (File content) →
  yaml_parse content = inr doc →
  w_fs w !! path_resolve (path_resolve schema_file) = Some (File text) →
  json_parse text = Some schema →
  ajv_violations schema = Some all →
  all doc = [] →
  nullish doc = false →
  declared_steps doc = Some steps →
  id_of <$> steps = JStr <$> ids →
  NoDup ids →
  (∀ s, s ∈ steps → lacks_mandatory s = false) →
  convertible (get_opt doc "model") = true →
  validate_action file w =
    match get_opt doc "guardrails" with
    | JArr gs =>
        if convertible (JArr gs) then accepted file doc (length steps) w
        else fails_after_verdict file doc (length steps) (TypeError_convert (JArr gs)) w
    | g =>
        if truthy (get_opt g "length")
        then fails_after_verdict file doc (length steps) (TypeError_not_function g "join") w
        else accepted file doc (length steps) w
    end.
Proof. apply validate_action_verdict. Qed.



(** X4: before it looks at the document, [validate] ends the process with
    code 1 and one diagnostic: when the file does not exist; when the file
    is not YAML (with the parser's message, the file and, when the parser
    gives one, the position); and when the schema file is not found under
    the current directory, however sound the document is. *)
Theorem validate_action_early_exits (file : string) (w : World) :
  (w_fs w !! path_resolve file = None →
   validate_action file w = (emit [Err ("❌ File not found: " +:+ file)] w, Exit 1))
  ∧ (∀ content error,
       w_fs w !! path_resolve file = Some (File content) →
       yaml_parse content = inl error →
       validate_action file w = (emit (yaml_error_lines file error) w, Exit 1))
  ∧ (∀ content doc,
       w_fs w !! path_resolve file = Some (File content) →
       yaml_parse content = inr doc →
       w_fs w !! path_resolve (path_resolve schema_file) = None →
       validate_action file w
       = (emit [Err ("❌ Schema not found: " +:+ path_resolve schema_file)] w, Exit 1)).
Proof.
  split; [|split].
  - intros Hfile. unfold validate_action, try_catch.
    rewrite bind_existsSync, Hfile.
    rewrite bool_decide_false by (intros [? ?]; discriminate). cbn [negb].
    by rewrite bind_when_true, bind_assoc, bind_error, bind_exit.
  - intros content error Hfile Hyaml. unfold validate_action, try_catch.
    rewrite bind_existsSync, Hfile, bool_decide_true by eauto. cbn [negb].
    rewrite bind_when_false, (bind_readFileSync _ content) by done.
    rewrite Hyaml, !bind_assoc, bind_error, bind_assoc, bind_error, bind_assoc.
    unfold yaml_error_lines.
    destruct (yaml_linePos error) as [[line col]|].
    + by rewrite bind_error, bind_exit, !emit_emit.
    + by rewrite bind_ret, bind_exit, !emit_emit.
  - intros content doc Hfile Hyaml Hschema. unfold validate_action, try_catch.
    rewrite bind_existsSync, Hfile, bool_decide_true by eauto. cbn [negb].
    rewrite bind_when_false, (bind_readFileSync _ content) by done.
    rewrite Hyaml, bind_ret. cbn zeta.
    rewrite bind_existsSync, Hschema.
    rewrite bool_decide_false by (intros [? ?]; discriminate). cbn [negb].
    by rewrite bind_when_true, bind_assoc, bind_error, bind_exit.
Qed.

End Validate_frames.

(** X3, witness: the sample workflow of one command step. *)
Lemma validate_action_accepts_witness :
  @validate_action sample "wf.yml" one_step_world
  = (emit [Log "✅ Workflow validation passed"; Log "   File: wf.yml";
           Log "   Steps: 1"; Log "   Model: claude"] one_step_world, Ret tt).
Proof.
  apply (@validate_action_accepts sample "wf.yml" one_step_world one_step_yaml
           one_step_doc "{}" (JObj []) (schema_violations (JObj []))
           [mk_step "A" "cmd" [("command", JStr "exit 0")]] ["A"]);
    try reflexivity.
  - apply NoDup_singleton.
  - intros s Hs. apply list_elem_of_singleton in Hs as ->. reflexivity.
Defined.



(** X4, witness: a sound workflow validated where no schema file is found. *)
Lemma validate_action_early_exits_witness :
  @validate_action sample "wf.yml" (world_of [("wf.yml", File one_step_yaml)])
  = (emit [Err "❌ Schema not found: workflows/schemas/workflow.v1.schema.json"]
       (world_of [("wf.yml", File one_step_yaml)]), Exit 1).
Proof.
  apply (proj2 (proj2 (@validate_action_early_exits sample "wf.yml"
                         (world_of [("wf.yml", File one_step_yaml)])))
           one_step_yaml one_step_doc);
    reflexivity.
Defined.

(** ** diagram: inputs without steps, the output file, failures *)

#[export] Hint Resolve only_exit_1_ret only_exit_1_throw only_exit_1_lift only_exit_1_log
  only_exit_1_error only_exit_1_exit only_exit_1_when only_exit_1_existsSync
  only_exit_1_readFileSync only_exit_1_writeFileSync only_exit_1_JSON_parse : frames.

#[export] Hint Extern 2 (only_exit_1 (_ ≫= _)) =>
  apply only_exit_1_bind; [|intros ?] : frames.

#[export] Hint Extern 3 (only_exit_1 (match ?x with _ => _ end)) =>
  destruct x : frames.

Section Diagram_more.
Context `{P : Platform}.

Lemma only_exit_1_add_nodes steps : ∀ output, only_exit_1 (add_nodes output steps).
Proof.
  induction steps as [|s steps IH]; intros output; cbn [add_nodes]; eauto with frames.
Qed.

Lemma only_exit_1_add_edges steps : ∀ output, only_exit_1 (add_edges output steps).
Proof.
  induction steps as [|s steps IH]; intros output; [apply only_exit_1_ret|].
  destruct steps as [|s' steps]; [apply only_exit_1_ret|].
  rewrite add_edges_cons. eauto with frames.
Qed.

Lemma writes_within_add_nodes allowed steps : ∀ output,
  writes_within allowed (add_nodes output steps).
Proof.
  induction steps as [|s steps IH]; intros output; cbn [add_nodes]; eauto with frames.
Qed.

Lemma writes_within_add_edges allowed steps : ∀ output,
  writes_within allowed (add_edges output steps).
Proof.
  induction steps as [|s steps IH]; intros output; [apply writes_within_ret|].
  destruct steps as [|s' steps]; [apply writes_within_ret|].
  rewrite add_edges_cons. eauto with frames.
Qed.

Lemma only_exit_1_deliver_diagram opts output : only_exit_1 (deliver_diagram opts output).
Proof.
  unfold deliver_diagram. destruct (opt_output opts) as [path|]; [|eauto with frames].
  destruct (negb (String.eqb path EmptyString)); eauto with frames.
Qed.

Lemma writes_within_deliver_diagram opts output :
  writes_within (λ q, ∃ path, opt_output opts = Some path ∧ q = path_resolve path)
    (deliver_diagram opts output).
Proof.
  unfold deliver_diagram. destruct (opt_output opts) as [path|]; [|eauto with frames].
  destruct (negb (String.eqb path EmptyString)); [|eauto with frames].
  apply writes_within_bind; [|intros _; apply writes_within_log].
  eapply writes_within_weaken; [|apply writes_within_writeFileSync].
  intros q ->. by exists path.
Qed.

(** The run of [diagram] on a document whose steps can be drawn. *)
Lemma diagram_action_delivers file opts w content doc steps ns :
  w_fs w !! path_resolve file = Some (File content) →
  yaml_parse content = inr doc →
  nullish doc = false →
  declared_steps doc = Some steps →
  Forall2 described steps ns →
  diagram_action file opts w
  = try_catch (deliver_diagram opts (dot_text (graph_of ns))) catch_diagram_error w.
Proof.
  intros Hfile Hyaml Hdoc Hsteps Hns.
  apply steps_line in Hsteps as [Hor _].
  unfold diagram_action, try_catch.
  rewrite bind_existsSync, Hfile, bool_decide_true by eauto. cbn [negb].
  rewrite bind_when_false, (bind_readFileSync _ content) by done.
  rewrite Hyaml, bind_ret, (get_not_nullish _ _ Hdoc), bind_lift_inr. cbn zeta.
  rewrite Hor. cbn [iterate elements_of]. rewrite bind_lift_inr.
  unfold mbind at 1, proc_bind, bind at 1. rewrite (add_nodes_spec steps ns) by done.
  unfold mbind at 1, proc_bind, bind at 1. rewrite (add_edges_spec steps ns) by done.
  unfold dot_text. rewrite !append_assoc. reflexivity.
Qed.


(** X6: on empty inputs.  A document that declares no steps (no [steps]
    key, a null, or an empty list) is drawn as the empty digraph: header,
    blank line, closing brace.  A document that is itself null (an empty
    file) makes [diagram] end with code 1 and the engine's message for
    reading [steps] of null. *)
Theorem diagram_action_empty file opts w content doc :
  w_fs w !! path_resolve file = Some (File content) →
  yaml_parse content = inr doc →
  opt_output opts = None →
  (nullish doc = false → declared_steps doc = Some [] →
   diagram_action file opts w
   = (emit [Log ("📊 Workflow diagram (DOT format):" +:+ newline);
            Log (diagram_header +:+ newline +:+ "}" +:+ newline)] w, Ret tt))
  ∧ (nullish doc = true →
     diagram_action file opts w
     = (emit [Err ("❌ Diagram generation error: "
                   +:+ error_message (TypeError_read doc "steps"))] w, Exit 1)).
Proof.
  intros Hfile Hyaml Hout. split.
  - intros Hdoc Hsteps.
    rewrite (diagram_action_delivers file opts w content doc [] []) by done.
    unfold try_catch, deliver_diagram. rewrite Hout, bind_log.
    unfold console_log. by rewrite emit_emit.
  - intros Hdoc. unfold diagram_action, try_catch.
    rewrite bind_existsSync, Hfile, bool_decide_true by eauto. cbn [negb].
    rewrite bind_when_false, (bind_readFileSync _ content) by done.
    rewrite Hyaml, bind_ret, (get_nullish _ _ Hdoc), bind_lift_inl.
    unfold catch_diagram_error. rewrite bind_error. unfold message_of.
    reflexivity.
Qed.

(** X7: [diagram] never ends with an uncaught exception and never exits
    with a code other than 1; it leaves the module memory alone and changes
    the file system at most at the path given by [--output]. *)
Theorem diagram_action_frame (file : string) (opts : DiagramOpts) (w : World) :
  ((diagram_action file opts w).2 = Ret tt ∨ (diagram_action file opts w).2 = Exit 1)
  ∧ w_mem (diagram_action file opts w).1 = w_mem w
  ∧ ∀ q, (∀ path, opt_output opts = Some path → q ≠ path_resolve path) →
         w_fs (diagram_action file opts w).1 !! q = w_fs w !! q.
Proof.
  split.
  - unfold diagram_action.
    match goal with |- context [try_catch ?b _] => set (body := b) end.
    assert (Hexit : only_exit_1 body).
    { unfold body.
      repeat (apply only_exit_1_bind;
              [eauto using only_exit_1_add_nodes, only_exit_1_add_edges with frames
              |intros ?]).
      cbn zeta. apply only_exit_1_deliver_diagram. }
    unfold try_catch. destruct (body w) as [w' [u|c|e]] eqn:Hbody.
    + left. by destruct u.
    + right. by rewrite (Hexit _ _ _ Hbody).
    + by right.
  - assert (Hw : writes_within
                   (λ q, ∃ path, opt_output opts = Some path ∧ q = path_resolve path)
                   (diagram_action file opts)).
    { unfold diagram_action. apply writes_within_try_catch.
      - repeat (apply writes_within_bind;
                [eauto using writes_within_add_nodes, writes_within_add_edges with frames
                |intros ?]).
        cbn zeta. apply writes_within_deliver_diagram.
      - intros e. unfold catch_diagram_error. eauto with frames. }
    destruct (Hw w) as [Hmem Hfs]. split; [done|].
    intros q Hq. apply Hfs. intros (path & Hpath & ->). by apply (Hq path).
Qed.

End Diagram_more.

(** ** saveConfig, loadConfig and validateConfig *)

Section Config_lemmas.
Context `{P : Platform}.

Lemma build_config_defaults timestamp existing cfg :
  nullish existing = false →
  build_config timestamp existing cfg
  = inr (spread (spread (defaults_for timestamp existing) existing) cfg).
Proof.
  intros Hn. unfold build_config. by rewrite (get_not_nullish _ _ Hn).
Qed.

(** [saveConfig] in one step: build the configuration from what is on disk,
    write it, return the path. *)
Lemma saveConfig_eq timestamp cfg w :
  saveConfig timestamp cfg w
  = (config ← lift (build_config timestamp (existing_config w) cfg);
     writeFileSync CONFIG_PATH (json_stringify_pretty (JObj config));;
     ret CONFIG_PATH) w.
Proof.
  unfold saveConfig, existing_config. rewrite bind_existsSync.
  destruct (w_fs w !! path_resolve CONFIG_PATH) as [[text|]|] eqn:Hfile.
  - rewrite bool_decide_true by eauto.
    assert (Hread : try_catch (text ← readFileSync CONFIG_PATH; JSON_parse text)
                      (λ _, ret (JObj [])) w = (w, Ret (default (JObj []) (json_parse text)))).
    { unfold try_catch. rewrite (bind_readFileSync _ text) by done.
      unfold JSON_parse. by destruct (json_parse text). }
    by rewrite (bind_run _ _ _ _ _ Hread).
  - rewrite bool_decide_true by eauto.
    assert (Hread : try_catch (text ← readFileSync CONFIG_PATH; JSON_parse text)
                      (λ _, ret (JObj [])) w = (w, Ret (JObj []))).
    { unfold try_catch, mbind, proc_bind, bind, readFileSync. by rewrite Hfile. }
    by rewrite (bind_run _ _ _ _ _ Hread).
  - rewrite bool_decide_false by (intros [? ?]; discriminate). by rewrite bind_ret.
Qed.

(** A call of [saveConfig] that returns has written the configuration it
    built. *)
Lemma saveConfig_inv timestamp cfg w w1 p :
  saveConfig timestamp cfg w = (w1, Ret p) →
  nullish (existing_config w) = false
  ∧ p = CONFIG_PATH
  ∧ w1 = config_written
           (spread (spread (defaults_for timestamp (existing_config w)) (existing_config w))
              cfg) w.
Proof.
  rewrite saveConfig_eq. intros Hrun.
  destruct (nullish (existing_config w)) eqn:Hn.
  { unfold build_config in Hrun. rewrite (get_nullish _ _ Hn) in Hrun. discriminate. }
  rewrite (build_config_defaults _ _ _ Hn), bind_lift_inr in Hrun.
  unfold mbind, proc_bind, bind in Hrun.
  rewrite writeFileSync_run, write_refused_config in Hrun.
  destruct (w_fs w !! path_resolve CONFIG_PATH) as [[old|]|];
    first [discriminate | by injection Hrun as <- <-].
Qed.

Lemma assoc_None_keys k fields : assoc k fields = None ↔ k ∉ fields.*1.
Proof.
  induction fields as [|[k0 v0] fields IH]; cbn [assoc].
  - split; [intros _; apply not_elem_of_nil|done].
  - rewrite fmap_cons, not_elem_of_cons. cbn [fst].
    destruct (String.eqb_spec k k0) as [->|Hne]; [by split; [|intros []]|].
    rewrite IH. by split; [|intros []].
Qed.

Lemma update_prop_keys k v fields : (update_prop k v fields).*1 = fields.*1.
Proof.
  induction fields as [|[k0 v0] fields IH]; [done|].
  cbn [update_prop]. destruct (String.eqb_spec k k0) as [->|Hne]; [done|].
  by rewrite !fmap_cons, IH.
Qed.

Lemma insert_prop_keys k v fields : (insert_prop k v fields).*1 ≡ₚ k :: fields.*1.
Proof.
  induction fields as [|[k0 v0] fields IH]; [done|].
  cbn [insert_prop]. destruct (goes_before k k0); [done|].
  rewrite !fmap_cons, IH. cbn [fst]. apply Permutation_swap.
Qed.

Lemma set_prop_NoDup k v fields : NoDup fields.*1 → NoDup (set_prop k v fields).*1.
Proof.
  intros Hnodup. unfold set_prop. destruct (assoc k fields) as [v'|] eqn:Hk.
  - by rewrite update_prop_keys.
  - rewrite insert_prop_keys. apply NoDup_cons. split; [|done].
    by apply assoc_None_keys.
Qed.

Lemma spread_NoDup target source : NoDup target.*1 → NoDup (spread target source).*1.
Proof.
  unfold spread. generalize (own_props source). intros props. revert target.
  induction props as [|[k v] props IH]; intros target Hnodup; [done|].
  cbn [foldl fst snd]. by apply IH, set_prop_NoDup.
Qed.

Lemma assoc_spread target source k :
  NoDup (own_props source).*1 →
  assoc k (spread target source)
  = match assoc k (own_props source) with
    | Some v => Some v
    | None => assoc k target
    end.
Proof.
  intros Hnodup. unfold spread.
  destruct (assoc k (own_props source)) as [v|] eqn:Hk.
  - by apply assoc_spread_present.
  - by apply assoc_spread_absent.
Qed.

Lemma defaults_for_NoDup timestamp existing : NoDup (defaults_for timestamp existing).*1.
Proof.
  cbn. repeat (apply NoDup_cons; split; [intros Hin; no_member Hin|]). apply NoDup_nil_2.
Qed.

Lemma defaults_for_keys ts1 e1 ts2 e2 k :
  assoc k (defaults_for ts1 e1) = None → assoc k (defaults_for ts2 e2) = None.
Proof.
  unfold defaults_for. cbn [assoc].
  repeat (destruct (String.eqb k _); [discriminate|]). done.
Qed.

(** [loadConfig] on a file that parses to something other than null. *)
Lemma loadConfig_parsed w text config :
  w_fs w !! path_resolve CONFIG_PATH = Some (File text) →
  json_parse text = Some config →
  nullish config = false →
  loadConfig w
  = (w, Ret (if loadable config then inr config
             else inl "Failed to load config: Invalid config format")).
Proof.
  intros Hfile Hjson Hn. unfold loadConfig.
  rewrite bind_existsSync, Hfile, bool_decide_true by eauto. cbn [negb].
  unfold try_catch. rewrite (bind_readFileSync _ text) by done.
  unfold JSON_parse. rewrite Hjson, bind_ret.
  rewrite !(get_not_nullish _ _ Hn), !bind_lift_inr. unfold loadable.
  destruct (truthy (get_opt config "version")); [|done].
  destruct (truthy (get_opt config "auth")); [|done].
  by destruct (is_array (get_opt config "regions")).
Qed.

(** X8: when there is no configuration file, or the file is not JSON,
    [saveConfig] writes the defaults overlaid with [cfg] and returns the
    path; unless [cfg] supplies a [metadata] of its own, both
    [metadata.created] and [metadata.updated] are the time of the call.  A
    corrupted file is thus replaced without notice. *)
Theorem saveConfig_fresh timestamp cfg w :
  (w_fs w !! path_resolve CONFIG_PATH = None
   ∨ ∃ text, w_fs w !! path_resolve CONFIG_PATH = Some (File text)
             ∧ json_parse text = None) →
  saveConfig timestamp cfg w
  = (config_written (spread (defaults_for timestamp (JObj [])) cfg) w, Ret CONFIG_PATH)
  ∧ (assoc "metadata" (own_props cfg) = None →
     assoc "metadata" (spread (defaults_for timestamp (JObj [])) cfg)
     = Some (JObj [("created", JStr timestamp); ("updated", JStr timestamp)])).
Proof.
  intros Hfile.
  assert (Hexisting : existing_config w = JObj []).
  { unfold existing_config. destruct Hfile as [-> | (text & -> & Hjson)]; [done|].
    by rewrite Hjson. }
  split.
  - rewrite saveConfig_eq, Hexisting, build_config_defaults by done.
    rewrite bind_lift_inr. unfold mbind, proc_bind, bind.
    rewrite writeFileSync_run, write_refused_config.
    by destruct Hfile as [-> | (text & -> & Hjson)].
  - intros Hcfg. unfold spread. by rewrite assoc_spread_absent.
Qed.

(** X9: every field of the configuration [saveConfig] writes comes from the
    first of three layers that has it: [cfg], then the configuration found
    on disk, then the defaults. *)
Theorem saveConfig_layers timestamp cfg w w1 p :
  saveConfig timestamp cfg w = (w1, Ret p) →
  NoDup (own_props (existing_config w)).*1 →
  NoDup (own_props cfg).*1 →
  ∃ config,
    w1 = config_written config w
    ∧ ∀ k, assoc k config
           = layered (own_props cfg) (own_props (existing_config w))
               (defaults_for timestamp (existing_config w)) k.
Proof.
  intros Hrun Hexisting Hcfg.
  apply saveConfig_inv in Hrun as (_ & _ & ->).
  eexists. split; [reflexivity|]. intros k. unfold layered.
  by rewrite !assoc_spread.
Qed.

(** X10: saving the same [cfg] a second time, at any later time, changes no
    field of the configuration: the file the first call wrote supplies
    every default, its [metadata] included, so that [metadata.updated] never
    moves.  (The JSON text written is assumed to parse back to what was
    serialized.) *)
Theorem saveConfig_again timestamp timestamp' cfg w w1 p :
  saveConfig timestamp cfg w = (w1, Ret p) →
  NoDup (own_props (existing_config w)).*1 →
  NoDup (own_props cfg).*1 →
  (∀ config, build_config timestamp (existing_config w) cfg = inr config →
             json_parse (json_stringify_pretty (JObj config)) = Some (JObj config)) →
  ∃ config config',
    w1 = config_written config w
    ∧ saveConfig timestamp' cfg w1 = (config_written config' w1, Ret p)
    ∧ ∀ k, assoc k config' = assoc k config.
Proof.
  intros Hrun Hexisting Hcfg Hround.
  apply saveConfig_inv in Hrun as (Hn & -> & ->).
  set (config := spread (spread (defaults_for timestamp (existing_config w))
                           (existing_config w)) cfg).
  specialize (Hround config (build_config_defaults _ _ _ Hn)).
  assert (Hexisting1 : existing_config (config_written config w) = JObj config).
  { unfold existing_config, config_written. cbn [w_fs].
    by rewrite lookup_insert_eq, Hround. }
  exists config. eexists. split; [reflexivity|]. split.
  - rewrite saveConfig_eq, Hexisting1, build_config_defaults by done.
    rewrite bind_lift_inr. unfold mbind, proc_bind, bind.
    rewrite writeFileSync_run, write_refused_config.
    unfold config_written at 1 2. cbn [w_fs]. rewrite lookup_insert_eq.
    reflexivity.
  - intros k.
    assert (Hnodup : NoDup (own_props (JObj config)).*1).
    { cbn [own_props]. unfold config. do 2 apply spread_NoDup.
      apply defaults_for_NoDup. }
    rewrite !assoc_spread by done. cbn [own_props].
    destruct (assoc k (own_props cfg)) as [v|] eqn:Hk.
    + unfold config. by rewrite assoc_spread, Hk.
    + destruct (assoc k config) as [v|] eqn:Hconfig; [done|].
      unfold config in Hconfig. rewrite !assoc_spread, Hk in Hconfig by done.
      destruct (assoc k (own_props (existing_config w))); [discriminate|].
      by apply (defaults_for_keys timestamp (existing_config w)).
Qed.

(** X11: what [saveConfig] wrote, [loadConfig] reads back: it returns the
    written configuration when that has a truthy [version], a truthy [auth]
    and an array of [regions], and fails with "Invalid config format"
    otherwise.  (The JSON text written is assumed to parse back to what was
    serialized.) *)
Theorem loadConfig_after_saveConfig timestamp cfg w w1 p :
  saveConfig timestamp cfg w = (w1, Ret p) →
  (∀ config, build_config timestamp (existing_config w) cfg = inr config →
             json_parse (json_stringify_pretty (JObj config)) = Some (JObj config)) →
  ∃ config,
    w1 = config_written config w
    ∧ loadConfig w1
      = (w1, Ret (if loadable (JObj config) then inr (JObj config)
                  else inl "Failed to load config: Invalid config format")).
Proof.
  intros Hrun Hround. apply saveConfig_inv in Hrun as (Hn & _ & ->).
  set (config := spread (spread (defaults_for timestamp (existing_config w))
                           (existing_config w)) cfg).
  exists config. split; [reflexivity|].
  apply (loadConfig_parsed _ (json_stringify_pretty (JObj config)));
    [|by apply Hround, build_config_defaults|done].
  unfold config_written. cbn [w_fs]. apply lookup_insert_eq.
Qed.

Lemma typeof_string v : String.eqb (typeof v) "string" = true → ∃ s, v = JStr s.
Proof. destruct v; try discriminate. by eexists. Qed.

(** X12: a configuration file whose content [validateConfig] accepts is
    loaded by [loadConfig], unless its [version] is the empty string: the
    two functions disagree on that one case, where [validateConfig] asks for
    a string and [loadConfig] for a truthy value. *)
Theorem validateConfig_loads w text config :
  w_fs w !! path_resolve CONFIG_PATH = Some (File text) →
  json_parse text = Some config →
  validateConfig config = JBool true →
  loadConfig w
  = (w, Ret (if strict_eq_str (get_opt config "version") EmptyString
             then inl "Failed to load config: Invalid config format"
             else inr config)).
Proof.
  intros Hfile Hjson Hvalid. unfold validateConfig in Hvalid.
  destruct (truthy config) eqn:Htruthy; cbn [negb] in Hvalid.
  2:{ subst config. discriminate. }
  injection Hvalid as Hvalid.
  apply andb_prop in Hvalid as [Hvalid _]. apply andb_prop in Hvalid as [Hvalid _].
  apply andb_prop in Hvalid as [Hvalid _]. apply andb_prop in Hvalid as [Hvalid Hregions].
  apply andb_prop in Hvalid as [Hvalid Hauth]. apply andb_prop in Hvalid as [_ Hversion].
  assert (Hn : nullish config = false) by (by destruct config).
  rewrite (loadConfig_parsed w text config) by done. unfold loadable.
  destruct (typeof_string _ Hversion) as [version ->].
  assert (Hauth' : truthy (get_opt config "auth") = true).
  { destruct (get_opt config "auth") as [| |b|n|auth|xs|fields];
      cbn [existsb same_value_zero orb] in Hauth; try discriminate.
    destruct auth as [|c auth]; [discriminate|done]. }
  rewrite Hauth', Hregions. cbn [truthy andb strict_eq_str].
  by destruct (String.eqb version EmptyString).
Qed.

(** X13: the errors of [loadConfig].  Without a file the message is
    "Config not found: <path>. Run 'bcce init' first."; every other failure
    carries the prefix "Failed to load config: ", followed by the parser's
    message for a file that is not JSON, by the engine's message for a file
    that holds null, and by "Invalid config format" for a value without a
    truthy [version] and [auth] and an array of [regions].  In no case is
    anything written or printed. *)
Theorem loadConfig_errors (w : World) :
  (w_fs w !! path_resolve CONFIG_PATH = None →
   loadConfig w
   = (w, Ret (inl ("Config not found: " +:+ CONFIG_PATH +:+ ". Run 'bcce init' first."))))
  ∧ (∀ text, w_fs w !! path_resolve CONFIG_PATH = Some (File text) →
             json_parse text = None →
             loadConfig w
             = (w, Ret (inl ("Failed to load config: "
                             +:+ error_message (SyntaxError_json text)))))
  ∧ (∀ text, w_fs w !! path_resolve CONFIG_PATH = Some (File text) →
             json_parse text = Some JNull →
             loadConfig w
             = (w, Ret (inl ("Failed to load config: "
                             +:+ error_message (TypeError_read JNull "version")))))
  ∧ (∀ text config, w_fs w !! path_resolve CONFIG_PATH = Some (File text) →
                    json_parse text = Some config →
                    nullish config = false →
                    loadable config = false →
                    loadConfig w = (w, Ret (inl "Failed to load config: Invalid config format"))).
Proof.
  split; [|split; [|split]].
  - intros Hfile. unfold loadConfig. rewrite bind_existsSync, Hfile.
    by rewrite bool_decide_false by (intros [? ?]; discriminate).
  - intros text Hfile Hjson. unfold loadConfig.
    rewrite bind_existsSync, Hfile, bool_decide_true by eauto. cbn [negb].
    unfold try_catch. rewrite (bind_readFileSync _ text) by done.
    unfold JSON_parse. by rewrite Hjson.
  - intros text Hfile Hjson. unfold loadConfig.
    rewrite bind_existsSync, Hfile, bool_decide_true by eauto. cbn [negb].
    unfold try_catch. rewrite (bind_readFileSync _ text) by done.
    unfold JSON_parse. by rewrite Hjson.
  - intros text config Hfile Hjson Hn Hbad.
    by rewrite (loadConfig_parsed w text config), Hbad.
Qed.

End Config_lemmas.

(** ** policy print: unknown types and scoping *)

Section Policy_more.
Context `{P : Platform}.

(** X14: a type other than baseline, inference-profile and guardrails makes
    [print] write one line to the error stream and end the process with code
    1; nothing is printed to the output and the module memory is as before,
    and no later invocation of the same process runs. *)
Theorem print_action_invalid_type type opts rest w :
  type ∉ policy_types →
  print_action type opts w = (emit [Err invalid_type_message] w, Exit 1)
  ∧ print_all ((type, opts) :: rest) w = (emit [Err invalid_type_message] w, Exit 1).
Proof.
  intros Htype.
  assert (Hrun : print_action type opts w = (emit [Err invalid_type_message] w, Exit 1)).
  { unfold print_action, select_policy.
    destruct (String.eqb_spec type "baseline") as [->|_].
    { exfalso. apply Htype. apply list_elem_of_here. }
    destruct (String.eqb_spec type "inference-profile") as [->|_].
    { exfalso. apply Htype. apply list_elem_of_further, list_elem_of_here. }
    destruct (String.eqb_spec type "guardrails") as [->|_].
    { exfalso. apply Htype. do 2 apply list_elem_of_further. apply list_elem_of_here. }
    by rewrite bind_assoc, bind_error, bind_exit. }
  split; [exact Hrun|].
  cbn [print_all]. unfold mbind, proc_bind, bind. by rewrite Hrun.
Qed.

(** Scoping passes over statements whose resource is a plain string. *)
Lemma scope_statements_plain opts statements w :
  (∀ r, r ∈ statements → ∃ x, st_Resource (m_stmt (w_mem w) r) = ResStr x) →
  scope_statements opts statements w = (w, Ret tt).
Proof.
  induction statements as [|r statements IH]; intros Hplain; [done|].
  cbn [scope_statements]. unfold mbind at 1, proc_bind, bind at 1, read_stmt.
  destruct (Hplain r) as [x ->]; [apply list_elem_of_here|].
  rewrite bind_ret. apply IH. intros r' Hr'. apply Hplain. by apply list_elem_of_further.
Qed.

Lemma scope_and_print_plain opts policy w :
  (∀ r, r ∈ m_arr (w_mem w) policy → ∃ x, st_Resource (m_stmt (w_mem w) r) = ResStr x) →
  scope_and_print opts policy w
  = scope_and_print {| region := None; accountId := None |} policy w.
Proof.
  intros Hplain. unfold scope_and_print. cbn [given region accountId orb].
  rewrite bind_when_false.
  destruct (given (region opts) || given (accountId opts));
    [|by rewrite bind_when_false].
  rewrite bind_when_true, bind_assoc.
  unfold mbind at 1, proc_bind, bind at 1, read_arr.
  by rewrite (bind_run _ _ _ _ _ (scope_statements_plain opts _ w Hplain)).
Qed.

Lemma memory_after_plain n m r :
  memory_after n m → r ∈ baseline_with n → ∃ x, st_Resource (m_stmt m r) = ResStr x.
Proof.
  intros (_ & _ & Hstmt) Hr.
  assert (Hne : r ≠ INF0).
  { intros ->. by apply (baseline_with_no_INF0 n). }
  rewrite (Hstmt r Hne). by apply initial_resource_str.
Qed.

(** X15: [--region] and [--account-id] have no effect on the baseline and
    guardrails policies: at any point of a process that has printed
    policies, a print of either type with the options emits the same text
    and leaves the same state as the print without them (every resource of
    those statements is the string "*", which scoping passes over). *)
Theorem print_action_scoping_ignored calls type opts w w1 :
  w_mem w = initial_memory →
  Forall (λ c, c.1 ∈ policy_types) calls →
  print_all calls w = (w1, Ret tt) →
  type = "baseline" ∨ type = "guardrails" →
  print_action type opts w1
  = print_action type {| region := None; accountId := None |} w1.
Proof.
  intros Hinit Hvalid Hrun Htype.
  destruct (print_all_spec calls 0 w) as (w1' & Hrun' & _ & Hmem); [|done|].
  { rewrite Hinit. apply initial_memory_after. }
  rewrite Hrun in Hrun'. injection Hrun' as <-.
  set (n := 0 + guardrails_prints calls) in Hmem.
  unfold print_action, select_policy.
  destruct Htype as [-> | ->]; cbn [String.eqb Ascii.eqb Bool.eqb].
  - rewrite !bind_ret. apply scope_and_print_plain.
    intros r Hr. apply (memory_after_plain n); [done|].
    by destruct Hmem as (<- & _).
  - rewrite !bind_assoc. unfold mbind at 1 3, proc_bind, bind at 1 3, push.
    rewrite !bind_ret. apply scope_and_print_plain.
    cbn [w_mem m_arr m_stmt]. rewrite decide_True by done.
    destruct Hmem as (Hbase & Hinf & Hstmt).
    intros r Hr. rewrite Hbase, baseline_with_S in Hr.
    assert (Hne : r ≠ INF0).
    { intros ->. by apply (baseline_with_no_INF0 (S n)). }
    rewrite (Hstmt r Hne). by apply initial_resource_str.
Qed.


End Policy_more.

(** ** policy validate *)

Section Policy_validate_lemmas.
Context `{S : Shell}.

Lemma permission_denied_prints check w :
  permission_denied check w
  = (emit (if required check
           then [Log ("‚ùå " +:+ action check +:+ " - Permission denied");
                 Log "   This permission is required for BCCE to function"]
           else [Log ("‚ö†Ô∏è " +:+ action check +:+ " - Permission denied")]) w, Ret tt).
Proof.
  unfold permission_denied. destruct (required check); [|reflexivity].
  rewrite bind_log. unfold when, console_log. by rewrite emit_emit.
Qed.

(** Whatever the probes answer, a check prints to the output only and
    returns. *)
Lemma run_check_prints check w :
  ∃ lines, run_check check w = (emit lines w, Ret tt) ∧ forallb is_log lines = true.
Proof.
  unfold run_check.
  repeat match goal with
         | |- context [if ?b then _ else _] => destruct b
         | |- context [match execSync ?c with _ => _ end] => destruct (execSync c)
         end;
    try (by eexists [_]).
  - rewrite permission_denied_prints. eexists. split; [reflexivity|].
    by destruct (required check).
  - exists []. by rewrite emit_nil.
Qed.

Lemma run_checks_prints l : ∀ w,
  ∃ lines, run_checks l w = (emit lines w, Ret tt) ∧ forallb is_log lines = true.
Proof.
  induction l as [|check l IH]; intros w.
  - exists []. by rewrite emit_nil.
  - destruct (run_check_prints check w) as (l1 & H1 & Hl1).
    destruct (IH (emit l1 w)) as (l2 & H2 & Hl2).
    exists (l1 ++ l2). cbn [run_checks]. rewrite (bind_run _ _ _ _ _ H1), H2, emit_emit.
    split; [done|]. rewrite forallb_app. by rewrite Hl1, Hl2.
Qed.

Lemma run_check_foundation w :
  run_check {| action := "bedrock:ListFoundationModels"; required := true |} w
  = (emit (match execSync "aws bedrock list-foundation-models --max-items 1" with
           | Some _ => [Log "‚úÖ bedrock:ListFoundationModels"]
           | None => [Log "‚ùå bedrock:ListFoundationModels - Permission denied";
                      Log "   This permission is required for BCCE to function"]
           end) w, Ret tt).
Proof.
  unfold run_check.
  change (is_string _ "bedrock") with true.
  change (is_string _ "ListFoundationModels") with true. cbn match.
  destruct (execSync "aws bedrock list-foundation-models --max-items 1"); [reflexivity|].
  by rewrite permission_denied_prints.
Qed.

Lemma run_check_optional check w :
  check ∈ checks →
  check ≠ {| action := "bedrock:ListFoundationModels"; required := true |} →
  ∃ line,
    run_check check w = (emit [Log line] w, Ret tt)
    ∧ line ≠ "‚ùå bedrock:ListFoundationModels - Permission denied"
    ∧ (check = {| action := "bedrock:InvokeModel"; required := true |} →
       line = "‚è≠Ô∏è  bedrock:InvokeModel (cannot test without invoking models)").
Proof.
  intros Hin Hne. unfold checks in Hin.
  repeat (apply elem_of_cons in Hin as [->|Hin]); [done|..|by apply elem_of_nil in Hin].
  - eexists. split; [reflexivity|]. split; [discriminate|done].
  - unfold run_check.
    change (is_string _ "bedrock") with true.
    change (is_string _ "ListFoundationModels") with false.
    change (is_string _ "ListInferenceProfiles") with true. cbn match.
    destruct (execSync _); (eexists; split; [reflexivity|]; split; [discriminate|discriminate]).
  - unfold run_check.
    change (is_string _ "bedrock") with true.
    change (is_string _ "ListFoundationModels") with false.
    change (is_string _ "ListInferenceProfiles") with false.
    change (is_string _ "ListGuardrails") with true. cbn match.
    destruct (execSync _); (eexists; split; [reflexivity|]; split; [discriminate|discriminate]).
Qed.

Lemma run_checks_optional l : ∀ w,
  l ⊆ checks →
  ({| action := "bedrock:ListFoundationModels"; required := true |} ∉ l) →
  ∃ lines,
    run_checks l w = (emit (Log <$> lines) w, Ret tt)
    ∧ ("‚ùå bedrock:ListFoundationModels - Permission denied" ∉ lines)
    ∧ ({| action := "bedrock:InvokeModel"; required := true |} ∈ l →
       "‚è≠Ô∏è  bedrock:InvokeModel (cannot test without invoking models)" ∈ lines).
Proof.
  induction l as [|check l IH]; intros w Hsub Hne.
  - exists []. rewrite emit_nil. split; [done|]. split; [apply not_elem_of_nil|].
    intros Hin. by apply elem_of_nil in Hin.
  - apply not_elem_of_cons in Hne as [Hne Hne'].
    destruct (run_check_optional check w) as (line & Hrun & Hline & Hskip); [|done|].
    { apply Hsub, list_elem_of_here. }
    destruct (IH (emit [Log line] w)) as (lines & Hrest & Hlines & Hskips); [|done|].
    { intros c Hc. by apply Hsub, list_elem_of_further. }
    exists (line :: lines). cbn [run_checks]. rewrite (bind_run _ _ _ _ _ Hrun), Hrest, emit_emit.
    split; [done|]. split.
    + by apply not_elem_of_cons.
    + intros Hin. apply elem_of_cons in Hin as [Heq|Hin].
      * rewrite (Hskip (eq_sym Heq)). apply list_elem_of_here.
      * by apply list_elem_of_further, Hskips.
Qed.

(** X17: [policy validate] never fails.  Whatever the probes answer, it
    returns normally, having printed to the output stream only; it reports
    "Permission denied" for ListFoundationModels exactly when that probe
    fails, even though the permission is marked as required, and it never
    tests InvokeModel, the other required permission. *)
Theorem policy_validate_action_reports w :
  ∃ lines,
    policy_validate_action w = (emit (Log <$> lines) w, Ret tt)
    ∧ ("‚ùå bedrock:ListFoundationModels - Permission denied" ∈ lines
       ↔ probe_fails "aws bedrock list-foundation-models --max-items 1")
    ∧ "‚è≠Ô∏è  bedrock:InvokeModel (cannot test without invoking models)" ∈ lines.
Proof.
  unfold policy_validate_action, probe_fails.
  rewrite bind_log. unfold checks.
  change (run_checks (?c :: ?l)) with (run_check c;; run_checks l). rewrite !bind_assoc.
  rewrite (bind_run _ _ _ _ _ (run_check_foundation _)), emit_emit.
  match goal with
  | |- context [(run_checks ?l ≫= _) ?w1] =>
      destruct (run_checks_optional l w1) as (lines & Hrun & Hlines & Hskip)
  end.
  { intros c Hc. by apply list_elem_of_further. }
  { intros Hin. repeat (apply elem_of_cons in Hin as [?|Hin]; [done|]).
    by apply elem_of_nil in Hin. }
  rewrite (bind_run _ _ _ _ _ Hrun). unfold console_log. rewrite !emit_emit.
  specialize (Hskip (list_elem_of_here _ _)).
  destruct (execSync "aws bedrock list-foundation-models --max-items 1") as [out|].
  - eexists (_ :: _ :: lines ++ [_]). split.
    { by rewrite !fmap_cons, fmap_app. }
    split; [split; [|done]|].
    + intros Hin. repeat (apply elem_of_cons in Hin as [?|Hin]; [done|]).
      apply elem_of_app in Hin as [?|Hin]; [done|].
      by apply list_elem_of_singleton in Hin.
    + by apply list_elem_of_further, list_elem_of_further, elem_of_app; left.
  - eexists (_ :: _ :: _ :: lines ++ [_]). split.
    { by rewrite !fmap_cons, fmap_app. }
    split; [split; [done|]|].
    + intros _. apply list_elem_of_further, list_elem_of_here.
    + by do 3 apply list_elem_of_further; apply elem_of_app; left.
Qed.

End Policy_validate_lemmas.

(** ** init *)

Section Init_lemmas.
Context `{P : Platform} `{T : Text}.

Lemma prompt_settings opts user :
  js_or (opt_value (o_auth opts)) (get_opt (prompt opts user) "auth")
  = JStr (setting (o_auth opts) (a_auth user))
  ∧ js_or (opt_value (o_regions opts)) (get_opt (prompt opts user) "regions")
    = JStr (setting (o_regions opts) (a_regions user))
  ∧ js_or (opt_value (o_guardrails opts)) (get_opt (prompt opts user) "guardrails")
    = JStr (setting (o_guardrails opts) (a_guardrails user))
  ∧ js_or (opt_value (o_privatelink opts)) (get_opt (prompt opts user) "privatelink")
    = JStr (setting (o_privatelink opts) (a_privatelink user)).
Proof.
  destruct opts as [[[|? ?]|] [[|? ?]|] [[|? ?]|] [[|? ?]|] ?]; by repeat split.
Qed.

Lemma report_saved_prints configPath auth regionList guardrails privatelink :
  ∃ lines,
    forallb is_log lines = true
    ∧ ∀ w, report_saved configPath auth regionList guardrails privatelink w
           = (emit lines w, Ret tt).
Proof.
  unfold report_saved.
  destruct (strict_eq_str auth "identity-center"), privatelink;
    (eexists; split; cycle 1;
     [intros w; repeat (rewrite bind_log || rewrite bind_assoc);
      unfold when, console_log, ret; rewrite ?emit_emit; reflexivity
     |reflexivity]).
Qed.

Lemma existing_config_emit l w : existing_config (emit l w) = existing_config w.
Proof. reflexivity. Qed.

(** [saveConfig] succeeds unless the configuration on disk is null or the
    path is a directory. *)
Lemma saveConfig_writes timestamp cfg w :
  nullish (existing_config w) = false →
  w_fs w !! path_resolve CONFIG_PATH ≠ Some Dir →
  saveConfig timestamp cfg w
  = (config_written (spread (spread (defaults_for timestamp (existing_config w))
                               (existing_config w)) cfg) w, Ret CONFIG_PATH).
Proof.
  intros Hn Hdir. rewrite saveConfig_eq, build_config_defaults by done.
  rewrite bind_lift_inr. unfold mbind, proc_bind, bind.
    rewrite writeFileSync_run, write_refused_config.
  by destruct (w_fs w !! path_resolve CONFIG_PATH) as [[text|]|].
Qed.

Lemma saveConfig_throws timestamp cfg w :
  nullish (existing_config w) = true ∨ w_fs w !! path_resolve CONFIG_PATH = Some Dir →
  saveConfig timestamp cfg w
  = (w, Throw (if nullish (existing_config w)
               then TypeError_read (existing_config w) "metadata"
               else Error_fs "EISDIR" CONFIG_PATH)).
Proof.
  intros Hcase. rewrite saveConfig_eq.
  destruct (nullish (existing_config w)) eqn:Hn.
  - unfold build_config. by rewrite (get_nullish _ _ Hn).
  - destruct Hcase as [|Hdir]; [done|]. rewrite build_config_defaults by done.
    rewrite bind_lift_inr. unfold mbind, proc_bind, bind.
    rewrite writeFileSync_run, write_refused_config.
    by rewrite Hdir.
Qed.

(** [init] once it has decided to go on. *)
Lemma init_action_proceeds timestamp opts user w :
  proceeds opts user w = true →
  ∃ lines,
    forallb is_log lines = true
    ∧ init_action timestamp opts user w
      = try_catch
          (configPath ← saveConfig timestamp (JObj (init_fields opts user));
           report_saved configPath (JStr (setting (o_auth opts) (a_auth user)))
             (region_list (setting (o_regions opts) (a_regions user)))
             (String.eqb (setting (o_guardrails opts) (a_guardrails user)) "on")
             (String.eqb (setting (o_privatelink opts) (a_privatelink user)) "on"))
          (λ error,
             console_error ("❌ Failed to save configuration: " +:+ message_of error);;
             process_exit 1)
          (emit lines w).
Proof.
  intros Hgo. unfold proceeds in Hgo. unfold init_action.
  rewrite bind_existsSync.
  destruct (prompt_settings opts user) as (-> & -> & -> & ->).
  destruct (bool_decide (is_Some (w_fs w !! path_resolve ".bcce.config.json")));
    destruct (o_force opts); destruct (overwrite user); try discriminate;
    cbn [andb negb orb].
  all: eexists; (split; cycle 1).
  all: rewrite ?bind_assoc, ?bind_log, ?bind_ret; cbn [negb];
     rewrite ?bind_log, ?emit_emit.
  all: try reflexivity.
  all: reflexivity.
Qed.

(** X18: when a configuration exists, [--force] is not given and the user
    answers no to the overwrite question, [init] prints the warning and the
    cancellation and returns normally, whatever the other options and
    answers are: the file system and the module memory are as they were. *)
Theorem init_action_cancelled timestamp opts user w :
  proceeds opts user w = false →
  init_action timestamp opts user w
  = (emit [Log "⚠️  BCCE config already exists (.bcce.config.json)";
           Log "❌ Cancelled. Use --force to overwrite existing config."] w, Ret tt).
Proof.
  unfold proceeds, init_action. rewrite bind_existsSync.
  destruct (bool_decide (is_Some (w_fs w !! path_resolve ".bcce.config.json")));
    destruct (o_force opts); destruct (overwrite user); try discriminate.
  intros _. cbn [andb negb]. repeat (rewrite bind_assoc || rewrite bind_log).
  rewrite bind_ret. cbn [negb]. unfold ret. by rewrite emit_emit.
Qed.

Lemma init_fields_NoDup opts user : NoDup (init_fields opts user).*1.
Proof.
  cbn. repeat (apply NoDup_cons; split; [intros Hin; no_member Hin|]). apply NoDup_nil_2.
Qed.

(** [init] when it goes on and [saveConfig] succeeds. *)
Lemma init_action_writes timestamp opts user w :
  proceeds opts user w = true →
  nullish (existing_config w) = false →
  w_fs w !! path_resolve CONFIG_PATH ≠ Some Dir →
  ∃ lines,
    init_action timestamp opts user w
    = (emit lines
         (config_written
            (spread (spread (defaults_for timestamp (existing_config w))
                       (existing_config w)) (JObj (init_fields opts user))) w), Ret tt)
    ∧ forallb is_log lines = true.
Proof.
  intros Hgo Hn Hdir.
  destruct (init_action_proceeds timestamp opts user w Hgo) as (l1 & Hl1 & ->).
  unfold try_catch.
  rewrite (bind_run _ _ _ _ _ (saveConfig_writes _ _ (emit l1 w) Hn Hdir)).
  destruct (report_saved_prints CONFIG_PATH (JStr (setting (o_auth opts) (a_auth user)))
             (region_list (setting (o_regions opts) (a_regions user)))
             (String.eqb (setting (o_guardrails opts) (a_guardrails user)) "on")
             (String.eqb (setting (o_privatelink opts) (a_privatelink user)) "on"))
    as (l2 & Hl2 & ->).
  exists (l1 ++ l2). split.
  { rewrite <- emit_emit. reflexivity. }
  by rewrite forallb_app, Hl1, Hl2.
Qed.

(** X19: what [init] saves.  When [init] goes on and the configuration on
    disk, if any, is not null, it writes a configuration and returns,
    printing to the output stream only.  Each of [auth], [regions],
    [guardrails] and [privatelink] is the option when given and the answer
    to the prompt otherwise, unchecked for [auth], and true for the two
    switches exactly when the value is "on"; every other field is the one
    on disk, or the default: overwriting does not reset them. *)
Theorem init_action_saves timestamp opts user w :
  proceeds opts user w = true →
  nullish (existing_config w) = false →
  w_fs w !! path_resolve CONFIG_PATH ≠ Some Dir →
  NoDup (own_props (existing_config w)).*1 →
  ∃ config lines,
    init_action timestamp opts user w = (emit lines (config_written config w), Ret tt)
    ∧ forallb is_log lines = true
    ∧ ∀ k, assoc k config
           = layered (init_fields opts user) (own_props (existing_config w))
               (defaults_for timestamp (existing_config w)) k.
Proof.
  intros Hgo Hn Hdir Hnodup.
  destruct (init_action_writes timestamp opts user w Hgo Hn Hdir) as (lines & -> & Hlines).
  eexists. exists lines. split; [reflexivity|]. split; [done|].
  intros k. unfold layered. rewrite !assoc_spread; [done|done|].
  apply init_fields_NoDup.
Qed.

(** X20: when [saveConfig] throws, because the configuration on disk is
    the JSON value null or because the path of the configuration is a
    directory, [init] reports "Failed to save configuration" with the
    message of the error on the error stream and ends the process with code
    1; nothing has been written. *)
Theorem init_action_save_fails timestamp opts user w :
  proceeds opts user w = true →
  nullish (existing_config w) = true ∨ w_fs w !! path_resolve CONFIG_PATH = Some Dir →
  ∃ lines,
    init_action timestamp opts user w
    = (emit (lines
             ++ [Err ("❌ Failed to save configuration: "
                      +:+ error_message
                            (if nullish (existing_config w)
                             then TypeError_read (existing_config w) "metadata"
                             else Error_fs "EISDIR" CONFIG_PATH))]) w, Exit 1)
    ∧ forallb is_log lines = true.
Proof.
  intros Hgo Hcase.
  destruct (init_action_proceeds timestamp opts user w Hgo) as (l1 & Hl1 & ->).
  exists l1. split; [|done]. unfold try_catch, mbind, proc_bind, bind.
  rewrite (saveConfig_throws _ _ (emit l1 w) Hcase).
  rewrite existing_config_emit. unfold console_error. rewrite emit_emit.
  by destruct (nullish (existing_config w)).
Qed.

Lemma digits_spec s : digits s = true ↔ run_of is_digit s.
Proof.
  unfold run_of. induction s as [|c s IH]; [by split; [|intros [? _]]|].
  destruct s as [|c' s].
  - cbn. rewrite andb_true_r. split; [by split|by intros [_ ?]].
  - change (digits (String c (String c' s))) with (is_digit c && digits (String c' s)).
    change (forallb is_digit (String.list_ascii_of_string (String c (String c' s))))
      with (is_digit c && forallb is_digit (String.list_ascii_of_string (String c' s))).
    destruct (is_digit c); cbn [andb]; [|by split; [|intros [_ ?]]].
    rewrite IH. split; [by intros [_ ?]|by intros [_ ?]].
Qed.

Lemma not_lower_hyphen : is_lower hyphen = false.
Proof. reflexivity. Qed.

Lemma letters_digits_spec s : ∀ seen,
  letters_digits seen s = true
  ↔ ∃ mid num, s = mid +:+ String hyphen num
               ∧ (seen = true ∨ mid ≠ EmptyString)
               ∧ forallb is_lower (String.list_ascii_of_string mid) = true
               ∧ run_of is_digit num.
Proof.
  induction s as [|c s IH]; intros seen.
  - split; [done|]. intros (mid & num & Hs & _). by destruct mid.
  - cbn [letters_digits]. destruct (is_lower c) eqn:Hc.
    + rewrite IH. split.
      * intros (mid & num & -> & _ & Hmid & Hnum).
        exists (String c mid), num. split; [done|]. split; [by right|].
        split; [|done]. cbn. by rewrite Hc.
      * intros (mid & num & Hs & _ & Hmid & Hnum). destruct mid as [|c' mid].
        { injection Hs as -> _. by rewrite not_lower_hyphen in Hc. }
        injection Hs as <- ->. exists mid, num. split; [done|]. split; [by left|].
        split; [|done]. cbn in Hmid. by apply andb_prop in Hmid as [_ ?].
    + destruct (Ascii.eqb_spec c hyphen) as [->|Hne].
      * split.
        -- intros [-> Hnum%digits_spec]%andb_prop.
           exists EmptyString, s. split; [done|]. split; [by left|]. by split.
        -- intros (mid & num & Hs & Hseen & Hmid & Hnum). destruct mid as [|c' mid].
           ++ injection Hs as ->. destruct Hseen as [->|?]; [|done].
              by apply digits_spec.
           ++ injection Hs as <- _. cbn in Hmid. by rewrite Hc in Hmid.
      * split; [done|]. intros (mid & num & Hs & _ & Hmid & _).
        destruct mid as [|c' mid].
        -- by injection Hs as ->.
        -- injection Hs as <- _. cbn in Hmid. by rewrite Hc in Hmid.
Qed.

(** The region pattern accepts the strings of that shape and no other. *)
Lemma regionPattern_test_shape region :
  regionPattern_test region = true ↔ region_shape region.
Proof.
  unfold regionPattern_test, region_shape.
  destruct region as [|a [|b [|c rest]]];
    try (split; [done|]; by intros (a' & b' & mid & num & ? & _)).
  rewrite !andb_true_iff, letters_digits_spec. split.
  - intros [[[Ha Hb] Hc] (mid & num & -> & [?|Hmid] & Hlower & Hnum)]; [done|].
    apply Ascii.eqb_eq in Hc as ->. by exists a, b, mid, num.
  - intros (a' & b' & mid & num & Heq & Ha & Hb & [Hmid Hlower] & Hnum).
    injection Heq as -> -> -> ->. split; [by rewrite Ha, Hb, Ascii.eqb_refl|].
    exists mid, num. split; [done|]. split; [by right|]. by split.
Qed.

Lemma Forall_region_shape regions :
  Forall (λ r, regionPattern_test r = true) regions ↔ Forall region_shape regions.
Proof.
  split; intros Hall; eapply Forall_impl; try exact Hall;
    intros r Hr; by apply regionPattern_test_shape.
Qed.

Lemma check_regions_None regions :
  check_regions regions = None ↔ Forall (λ r, regionPattern_test r = true) regions.
Proof.
  induction regions as [|r regions IH]; cbn [check_regions]; [done|].
  destruct (regionPattern_test r) eqn:Hr; cbn [negb].
  - rewrite IH. split; [by constructor|]. intros Hall. by apply Forall_cons in Hall as [_ ?].
  - split; [done|]. intros Hall. apply Forall_cons in Hall as [? _]. congruence.
Qed.

Lemma check_regions_first good r rest :
  Forall (λ r, regionPattern_test r = true) good →
  regionPattern_test r = false →
  check_regions (good ++ r :: rest)
  = Some ("Invalid region format: " +:+ r +:+ ". Expected format: us-east-1").
Proof.
  intros Hgood Hr. induction Hgood as [|g good Hg _ IH]; cbn [app check_regions].
  - by rewrite Hr.
  - by rewrite Hg.
Qed.

(** X21: the validator of the regions prompt accepts an input exactly when
    it holds at least one region and every region is two lower-case
    letters, a hyphen, lower-case letters, a hyphen and digits.  It rejects
    an input without regions with "At least one region is required", and
    any other with the first region, in the order of the input, that is not
    of that shape. *)
Theorem validate_regions_sound input :
  (validate_regions input = None
   ↔ region_list input ≠ [] ∧ Forall region_shape (region_list input))
  ∧ (region_list input = [] →
     validate_regions input = Some "At least one region is required")
  ∧ (∀ good r rest,
       region_list input = good ++ r :: rest →
       Forall region_shape good →
       ¬ region_shape r →
       validate_regions input
       = Some ("Invalid region format: " +:+ r +:+ ". Expected format: us-east-1")).
Proof.
  unfold validate_regions. split; [|split].
  - destruct (region_list input) as [|r regions] eqn:Hlist; cbn [length Nat.eqb].
    + split; [done|]. by intros [? _].
    + rewrite check_regions_None, Forall_region_shape. split; [done|]. by intros [_ ?].
  - by intros ->.
  - intros good r rest -> Hgood Hr.
    replace (length (good ++ r :: rest) =? 0)%nat with false
      by (by destruct good).
    apply check_regions_first; [by apply Forall_region_shape|].
    destruct (regionPattern_test r) eqn:Htest; [|done].
    by apply regionPattern_test_shape in Htest.
Qed.

(** X22: regions entered at the prompt, which the validator has accepted,
    are saved as a list of at least one region, all of the shape of the
    pattern.  (Regions given with [--regions] skip the validator.) *)
Theorem init_action_prompted_regions timestamp opts user w :
  proceeds opts user w = true →
  nullish (existing_config w) = false →
  w_fs w !! path_resolve CONFIG_PATH ≠ Some Dir →
  given (o_regions opts) = false →
  validate_regions (a_regions user) = None →
  ∃ config lines regions,
    init_action timestamp opts user w = (emit lines (config_written config w), Ret tt)
    ∧ assoc "regions" config = Some (JArr (JStr <$> regions))
    ∧ regions ≠ []
    ∧ Forall region_shape regions.
Proof.
  intros Hgo Hn Hdir Hasked Hvalid.
  destruct (init_action_writes timestamp opts user w Hgo Hn Hdir) as (lines & -> & _).
  eexists. exists lines, (region_list (a_regions user)).
  split; [reflexivity|]. split.
  - rewrite assoc_spread by apply init_fields_NoDup.
    cbn [own_props init_fields assoc String.eqb Ascii.eqb Bool.eqb].
    unfold setting. by rewrite Hasked.
  - unfold validate_regions in Hvalid.
    destruct (region_list (a_regions user)) as [|r regions] eqn:Hlist; [done|].
    cbn [length Nat.eqb] in Hvalid. split; [done|].
    by apply Forall_region_shape, check_regions_None.
Qed.


End Init_lemmas.

(** ** scaffold *)

Section Scaffold_lemmas.
Context `{P : Platform} `{T : Text}.

Lemma list_ascii_append s1 s2 :
  String.list_ascii_of_string (s1 +:+ s2) = String.list_ascii_of_string s1 ++ String.list_ascii_of_string s2.
Proof.
  induction s1 as [|c s1 IH]; [done|].
  change (c :: String.list_ascii_of_string (s1 +:+ s2) = c :: (String.list_ascii_of_string s1 ++ String.list_ascii_of_string s2)).
  by rewrite IH.
Qed.

Lemma safe_unit_chars u : forallb safe_char (String.list_ascii_of_string (safe_unit u)) = true.
Proof.
  unfold safe_unit. destruct u as [|c [|c' u]]; try reflexivity.
  destruct (is_lower c || is_digit c || Ascii.eqb c hyphen) eqn:Hc; [|reflexivity].
  cbn [String.list_ascii_of_string forallb]. unfold safe_char. by rewrite Hc.
Qed.

Lemma concat_safe_units units :
  forallb safe_char (String.list_ascii_of_string (String.concat EmptyString (safe_unit <$> units)))
  = true.
Proof.
  induction units as [|u units IH]; [done|].
  rewrite fmap_cons. cbn [String.concat].
  destruct (safe_unit <$> units) as [|u' rest] eqn:Hrest.
  - apply safe_unit_chars.
  - change (String.append EmptyString ?s) with s.
    rewrite list_ascii_append, forallb_app, safe_unit_chars. exact IH.
Qed.

(** X23: the name [scaffold] makes for the directory consists of
    lower-case letters, digits and hyphens only, whatever the name of the
    workflow: it holds no slash and no dot, so that the directory is a
    direct child of workflows/examples. *)
Theorem safeName_chars name :
  forallb safe_char (String.list_ascii_of_string (safeName name)) = true.
Proof. apply concat_safe_units. Qed.


Lemma with_dirs_lookup dirs fs q : q ∈ dirs → with_dirs dirs fs !! q = Some Dir.
Proof.
  induction dirs as [|d dirs IH]; intros Hin; [by apply elem_of_nil in Hin|].
  cbn [with_dirs foldr]. destruct (decide (q = d)) as [->|Hne].
  - apply lookup_insert_eq.
  - rewrite lookup_insert_ne by done. apply IH.
    by apply elem_of_cons in Hin as [?|?].
Qed.

Lemma with_dirs_lookup_ne dirs fs q : q ∉ dirs → with_dirs dirs fs !! q = fs !! q.
Proof.
  induction dirs as [|d dirs IH]; intros Hin; [done|].
  apply not_elem_of_cons in Hin as [Hne Hin].
  cbn [with_dirs foldr]. rewrite lookup_insert_ne by done. by apply IH.
Qed.

Lemma only_exit_1_mkdirSync_recursive p : only_exit_1 (mkdirSync_recursive p).
Proof.
  intros w w' c. unfold mkdirSync_recursive. by destruct (existsb _ _).
Qed.

Lemma writes_within_mkdirSync_recursive p :
  writes_within (λ q, q ∈ path_resolve <$> path_prefixes EmptyString p)
    (mkdirSync_recursive p).
Proof.
  intros w. unfold mkdirSync_recursive. destruct (existsb _ _); [done|].
  split; [done|]. intros q Hq. cbn [fst w_fs]. by apply with_dirs_lookup_ne.
Qed.

(** X24: [scaffold] never ends with an uncaught exception and never exits
    with a code other than 1; it leaves the module memory alone and changes
    the file system at most at the directory of the workflow, its ancestors
    and the two files prompt.md and workflow.yml in it. *)
Theorem scaffold_action_frame name opts w :
  ((scaffold_action name opts w).2 = Ret tt ∨ (scaffold_action name opts w).2 = Exit 1)
  ∧ w_mem (scaffold_action name opts w).1 = w_mem w
  ∧ ∀ q, q ∉ scaffold_paths name →
         w_fs (scaffold_action name opts w).1 !! q = w_fs w !! q.
Proof.
  split.
  - unfold scaffold_action.
    match goal with |- context [try_catch ?b _] => set (body := b) end.
    assert (Hexit : only_exit_1 body).
    { unfold body. eauto 20 using only_exit_1_mkdirSync_recursive with frames. }
    unfold try_catch. destruct (body w) as [w' [u|c|e]] eqn:Hbody.
    + left. by destruct u.
    + right. by rewrite (Hexit _ _ _ Hbody).
    + by right.
  - assert (Hw : writes_within (λ q, q ∈ scaffold_paths name) (scaffold_action name opts)).
    { unfold scaffold_action, scaffold_paths. fold (scaffold_dir name).
      apply writes_within_try_catch; [|intros e; eauto with frames].
      apply writes_within_bind; [|intros _].
      { eapply writes_within_weaken; [|apply writes_within_mkdirSync_recursive].
        intros q Hq. rewrite fmap_app. apply elem_of_app. by left. }
      apply writes_within_bind; [|intros _].
      { eapply writes_within_weaken; [|apply writes_within_writeFileSync].
        intros q ->. rewrite fmap_app. apply elem_of_app. right.
        apply list_elem_of_here. }
      apply writes_within_bind; [|intros _; eauto 20 with frames].
      eapply writes_within_weaken; [|apply writes_within_writeFileSync].
      intros q ->. rewrite fmap_app. apply elem_of_app. right.
      apply list_elem_of_further, list_elem_of_here. }
    destruct (Hw w) as [Hmem Hfs]. split; [done|]. intros q Hq. by apply Hfs.
Qed.

Lemma promptContent_fallback t :
  t ≠ "test-grader" → t ≠ "agent" →
  promptContent {| template := t |} = promptContent {| template := "basic" |}.
Proof.
  intros H1 H2. unfold promptContent. cbn [template].
  by rewrite (proj2 (String.eqb_neq _ _) H1), (proj2 (String.eqb_neq _ _) H2).
Qed.

Lemma workflowContent_fallback name t :
  t ≠ "test-grader" → t ≠ "agent" →
  workflowContent name {| template := t |} = workflowContent name {| template := "basic" |}.
Proof.
  intros H1 H2. unfold workflowContent. cbn [template].
  by rewrite (proj2 (String.eqb_neq _ _) H1), (proj2 (String.eqb_neq _ _) H2).
Qed.

(** X25: a template other than test-grader and agent, a misspelt one
    included, gives the files and the result of the basic template; no
    error is reported. *)
Theorem scaffold_action_fallback name t w :
  t ≠ "test-grader" → t ≠ "agent" →
  w_fs (scaffold_action name {| template := t |} w).1
  = w_fs (scaffold_action name {| template := "basic" |} w).1
  ∧ (scaffold_action name {| template := t |} w).2
    = (scaffold_action name {| template := "basic" |} w).2.
Proof.
  intros H1 H2. unfold scaffold_action.
  rewrite (promptContent_fallback t H1 H2), (workflowContent_fallback name t H1 H2).
  unfold try_catch, mbind, proc_bind, bind, mkdirSync_recursive.
  destruct (existsb _ _); [done|].
  rewrite !writeFileSync_run. destruct (write_refused _ _) as [code|]; [done|].
  rewrite !writeFileSync_run. by destruct (write_refused _ _) as [code|].
Qed.

Lemma path_prefixes_last p : ∀ seen, seen +:+ p ∈ path_prefixes seen p.
Proof.
  induction p as [|c p IH]; intros seen.
  - rewrite append_empty_r. apply list_elem_of_here.
  - cbn [path_prefixes]. destruct (Ascii.eqb_spec c slash) as [->|Hne].
    + apply list_elem_of_further.
      replace (seen +:+ String slash p) with ((seen +:+ "/") +:+ p); [apply IH|].
      by rewrite append_assoc.
    + replace (seen +:+ String c p) with ((seen +:+ String c EmptyString) +:+ p); [apply IH|].
      by rewrite append_assoc.
Qed.

(** A file in a directory that exists is written unless a directory is in
    its place. *)
Lemma write_accepted_in_dir w dir name :
  dir ≠ EmptyString → plain_name name = true →
  w_fs w !! path_resolve dir = Some Dir →
  w_fs w !! path_resolve (dir +:+ "/" +:+ name) ≠ Some Dir →
  write_refused w (dir +:+ "/" +:+ name) = None.
Proof.
  intros Hdir Hname Hthere Hfree. unfold write_refused.
  rewrite path_dirname_child, Hthere by done.
  destruct (w_fs w !! path_resolve (dir +:+ "/" +:+ name)) as [[old|]|]; try done.
  by destruct (String.eqb _ _).
Qed.

Lemma mkdirSync_recursive_clear p w :
  Forall (λ d, ∀ content, w_fs w !! d ≠ Some (File content))
    (path_resolve <$> path_prefixes EmptyString p) →
  mkdirSync_recursive p w
  = ({| w_fs := with_dirs (path_resolve <$> path_prefixes EmptyString p) (w_fs w);
        w_out := w_out w; w_mem := w_mem w |}, Ret tt).
Proof.
  intros Hclear. unfold mkdirSync_recursive.
  destruct (existsb _ _) eqn:Hex; [|done].
  apply existsb_exists in Hex as (d & Hd & Hfile).
  apply list_elem_of_In in Hd. rewrite Forall_forall in Hclear.
  specialize (Hclear d Hd). destruct (w_fs w !! d) as [[content|]|]; try done.
  by destruct (Hclear content).
Qed.

Lemma mkdirSync_recursive_blocked p w d content :
  d ∈ path_resolve <$> path_prefixes EmptyString p →
  w_fs w !! d = Some (File content) →
  ∃ code, mkdirSync_recursive p w = (w, Throw (Error_fs code p)).
Proof.
  intros Hd Hfile. unfold mkdirSync_recursive.
  destruct (existsb _ _) eqn:Hex; [by eexists|].
  assert (Hex' : existsb (λ d, match w_fs w !! d with Some (File _) => true | _ => false end)
                   (path_resolve <$> path_prefixes EmptyString p) = true).
  { apply existsb_exists. exists d. split; [by apply list_elem_of_In|]. by rewrite Hfile. }
  congruence.
Qed.

Lemma scaffold_action_clear name opts w :
  clear_for name (w_fs w) →
  ∃ lines,
    scaffold_action name opts w
    = ({| w_fs := scaffolded name opts (w_fs w);
          w_out := w_out w ++ lines; w_mem := w_mem w |}, Ret tt)
    ∧ forallb is_log lines = true
    ∧ Log ("   Template: " +:+ template opts) ∈ lines.
Proof.
  intros [Hdirs Hfiles].
  apply Forall_cons in Hfiles as [[Hpm Hpm'] Hfiles].
  apply Forall_cons in Hfiles as [[Hwf Hwf'] _].
  assert (Hdir : path_resolve (scaffold_dir name)
                 ∈ path_resolve <$> path_prefixes EmptyString (scaffold_dir name)).
  { apply list_elem_of_fmap_2. apply (path_prefixes_last (scaffold_dir name) EmptyString). }
  assert (Hname : scaffold_dir name ≠ EmptyString) by done.
  unfold scaffold_action. fold (scaffold_dir name). unfold try_catch.
  rewrite (bind_run _ _ _ _ _ (mkdirSync_recursive_clear _ w Hdirs)).
  unfold mbind at 1, proc_bind, bind at 1.
  rewrite writeFileSync_run, (write_accepted_in_dir _ (scaffold_dir name) "prompt.md");
    try done; cbn [w_fs]; cycle 1.
  { by apply with_dirs_lookup. }
  { by rewrite with_dirs_lookup_ne. }
  unfold mbind at 1, proc_bind, bind at 1.
  rewrite writeFileSync_run, (write_accepted_in_dir _ (scaffold_dir name) "workflow.yml");
    try done; cbn [w_fs]; cycle 1.
  { rewrite lookup_insert_ne; [by apply with_dirs_lookup|].
    intros Heq. apply Hpm. pose proof Hdir as Hd. rewrite <- Heq in Hd. exact Hd. }
  { destruct (decide (path_resolve (scaffold_dir name +:+ "/workflow.yml")
                      = path_resolve (scaffold_dir name +:+ "/prompt.md"))) as [Heq|Hne].
    - change (scaffold_dir name +:+ "/" +:+ "workflow.yml")
        with (scaffold_dir name +:+ "/workflow.yml").
      by rewrite Heq, lookup_insert_eq.
    - rewrite lookup_insert_ne by done. by rewrite with_dirs_lookup_ne. }
  eexists. split; [|split].
  - repeat (rewrite bind_log || rewrite bind_assoc). unfold console_log.
    rewrite ?emit_emit. unfold emit, scaffolded. cbn [w_fs w_out w_mem]. reflexivity.
  - reflexivity.
  - cbn [app]. repeat first [apply list_elem_of_here | apply list_elem_of_further].
Qed.

(** X26: when nothing is in its way, [scaffold] makes the directory and its
    ancestors, writes prompt.md and workflow.yml with the texts of the
    template, and returns, printing to the output stream only, the name of
    the template as given among the lines. *)
Theorem scaffold_action_creates name opts w :
  clear_for name (w_fs w) →
  ∃ lines,
    scaffold_action name opts w
    = ({| w_fs := scaffolded name opts (w_fs w);
          w_out := w_out w ++ lines; w_mem := w_mem w |}, Ret tt)
    ∧ forallb is_log lines = true
    ∧ Log ("   Template: " +:+ template opts) ∈ lines.
Proof. apply scaffold_action_clear. Qed.

(** X27: when the directory of the workflow or one of its ancestors is a
    file, [scaffold] writes nothing, reports "Scaffolding error" with the
    message of the error and ends the process with code 1. *)
Theorem scaffold_action_blocked name opts w d content :
  d ∈ path_resolve <$> path_prefixes EmptyString (scaffold_dir name) →
  w_fs w !! d = Some (File content) →
  ∃ code,
    scaffold_action name opts w
    = (emit [Err ("❌ Scaffolding error: "
                  +:+ error_message (Error_fs code (scaffold_dir name)))] w, Exit 1).
Proof.
  intros Hd Hfile. unfold scaffold_action. fold (scaffold_dir name).
  destruct (mkdirSync_recursive_blocked _ w d content Hd Hfile) as (code & Hrun).
  exists code. unfold try_catch, mbind at 1, proc_bind, bind at 1.
  by rewrite Hrun.
Qed.

Lemma clear_for_scaffolded name opts fs :
  clear_for name fs → clear_for name (scaffolded name opts fs).
Proof.
  intros [Hdirs Hfiles].
  apply Forall_cons in Hfiles as [[Hpm Hpm'] Hfiles].
  apply Forall_cons in Hfiles as [[Hwf Hwf'] _].
  split.
  - apply Forall_forall. intros d Hd content. unfold scaffolded.
    rewrite !lookup_insert_ne by (by intros <-).
    by rewrite with_dirs_lookup.
  - repeat (apply Forall_cons_2; [split; [done|]|]); [| |apply Forall_nil_2];
      unfold scaffolded.
    + destruct (decide (path_resolve (scaffold_dir name +:+ "/workflow.yml")
                        = path_resolve (scaffold_dir name +:+ "/prompt.md"))) as [Heq|Hne].
      * by rewrite Heq, lookup_insert_eq.
      * by rewrite lookup_insert_ne, lookup_insert_eq.
    + by rewrite lookup_insert_eq.
Qed.

Lemma scaffolded_idemp name opts fs :
  clear_for name fs →
  scaffolded name opts (scaffolded name opts fs) = scaffolded name opts fs.
Proof.
  intros [Hdirs Hfiles].
  apply Forall_cons in Hfiles as [[Hpm Hpm'] Hfiles].
  apply Forall_cons in Hfiles as [[Hwf Hwf'] _].
  apply map_eq. intros q. unfold scaffolded.
  destruct (decide (q = path_resolve (scaffold_dir name +:+ "/workflow.yml"))) as [->|Hwfq].
  { by rewrite !lookup_insert_eq. }
  rewrite (lookup_insert_ne _ _ q) by done.
  destruct (decide (q = path_resolve (scaffold_dir name +:+ "/prompt.md"))) as [->|Hpmq].
  { rewrite lookup_insert_eq. rewrite (lookup_insert_ne _ _ _ _ (λ H, Hwfq (eq_sym H))).
    by rewrite lookup_insert_eq. }
  rewrite (lookup_insert_ne _ _ q) by done.
  rewrite (lookup_insert_ne _ _ q) by done.
  rewrite (lookup_insert_ne _ _ q) by done.
  destruct (decide (q ∈ path_resolve <$> path_prefixes EmptyString (scaffold_dir name)))
    as [Hin|Hout].
  - by rewrite !with_dirs_lookup.
  - rewrite with_dirs_lookup_ne by done. by rewrite !lookup_insert_ne by done.
Qed.

(** X28: [scaffold] can be repeated: after a run that returned, a second
    run with the same name and template returns as well and leaves the file
    system as the first run left it.  Files scaffolded earlier are
    overwritten without notice. *)
Theorem scaffold_action_again name opts w w1 :
  clear_for name (w_fs w) →
  scaffold_action name opts w = (w1, Ret tt) →
  ∃ w2, scaffold_action name opts w1 = (w2, Ret tt) ∧ w_fs w2 = w_fs w1.
Proof.
  intros Hclear Hrun.
  destruct (scaffold_action_clear name opts w Hclear) as (lines & Hrun' & _).
  rewrite Hrun' in Hrun. injection Hrun as <-.
  destruct (scaffold_action_clear name opts
              {| w_fs := scaffolded name opts (w_fs w); w_out := w_out w ++ lines;
                 w_mem := w_mem w |}) as (lines' & -> & _).
  { by apply clear_for_scaffolded. }
  eexists. split; [reflexivity|]. cbn [w_fs]. by apply scaffolded_idemp.
Qed.

End Scaffold_lemmas.

(** ** Instances *)


(** X6, witness: the document without steps. *)
Lemma diagram_action_empty_witness :
  @diagram_action sample_more "wf.yml" to_console (workflow_world no_steps_yaml)
  = (emit [Log ("📊 Workflow diagram (DOT format):" +:+ newline);
           Log (diagram_header +:+ newline +:+ "}" +:+ newline)]
       (workflow_world no_steps_yaml), Ret tt).
Proof.
  apply (@diagram_action_empty sample_more "wf.yml" to_console
           (workflow_world no_steps_yaml) no_steps_yaml no_steps_doc
           eq_refl eq_refl eq_refl);
    reflexivity.
Defined.

(** X8, witness: a first save in an empty directory. *)
Lemma saveConfig_fresh_witness :
  @saveConfig sample_more "T1" guardrails_on (world_of [])
  = (@config_written sample_more first_save (world_of []), Ret ".bcce.config.json").
Proof.
  apply (@saveConfig_fresh sample_more "T1" guardrails_on (world_of [])).
  left. reflexivity.
Defined.

(** X9, witness: the old configuration saved again with guardrails on. *)
Lemma saveConfig_layers_witness :
  ∃ config,
    (@saveConfig sample "T2" guardrails_on
       (world_of [(".bcce.config.json", File old_config_text)])).1
    = @config_written sample config
        (world_of [(".bcce.config.json", File old_config_text)])
    ∧ assoc "guardrails" config = Some (JBool true)
    ∧ assoc "auth" config = Some (JStr "cognito-oidc")
    ∧ assoc "privatelink" config = Some (JBool false).
Proof.
  destruct (@saveConfig_layers sample "T2" guardrails_on
              (world_of [(".bcce.config.json", File old_config_text)])
              (@saveConfig sample "T2" guardrails_on
                 (world_of [(".bcce.config.json", File old_config_text)])).1
              ".bcce.config.json" eq_refl)
    as (config & Hw & Hlayers).
  - repeat (apply NoDup_cons; split; [intros Hin; no_member Hin|]). apply NoDup_nil_2.
  - apply NoDup_singleton.
  - exists config. split; [exact Hw|]. rewrite !Hlayers. by repeat split.
Defined.

(** X10, witness: the first save repeated at the time T2. *)
Lemma saveConfig_again_witness :
  ∃ config config',
    (@saveConfig sample_more "T1" guardrails_on (world_of [])).1
    = @config_written sample_more config (world_of [])
    ∧ @saveConfig sample_more "T2" guardrails_on
        (@saveConfig sample_more "T1" guardrails_on (world_of [])).1
      = (@config_written sample_more config'
           (@saveConfig sample_more "T1" guardrails_on (world_of [])).1,
         Ret ".bcce.config.json")
    ∧ ∀ k, assoc k config' = assoc k config.
Proof.
  apply (@saveConfig_again sample_more "T1" "T2" guardrails_on (world_of [])
           (@saveConfig sample_more "T1" guardrails_on (world_of [])).1
           ".bcce.config.json" eq_refl).
  - apply NoDup_nil_2.
  - apply NoDup_singleton.
  - intros config Hconfig. vm_compute in Hconfig.
    injection Hconfig as Hconfig. rewrite <- Hconfig. reflexivity.
Defined.

(** X11, witness: the first save is read back. *)
Lemma loadConfig_after_saveConfig_witness :
  ∃ config,
    (@saveConfig sample_more "T1" guardrails_on (world_of [])).1
    = @config_written sample_more config (world_of [])
    ∧ @loadConfig sample_more (@saveConfig sample_more "T1" guardrails_on (world_of [])).1
      = ((@saveConfig sample_more "T1" guardrails_on (world_of [])).1,
         Ret (if @loadable sample_more (JObj config) then inr (JObj config)
              else inl "Failed to load config: Invalid config format")).
Proof.
  apply (@loadConfig_after_saveConfig sample_more "T1" guardrails_on (world_of [])
           (@saveConfig sample_more "T1" guardrails_on (world_of [])).1
           ".bcce.config.json" eq_refl).
  intros config Hconfig. vm_compute in Hconfig.
  injection Hconfig as Hconfig. rewrite <- Hconfig. reflexivity.
Defined.

(** X12, witness: the complete configuration. *)
Lemma validateConfig_loads_witness :
  @loadConfig sample_more
    (world_of [(".bcce.config.json", File (show_json (JObj full_config)))])
  = (world_of [(".bcce.config.json", File (show_json (JObj full_config)))],
     Ret (inr (JObj full_config))).
Proof.
  apply (@validateConfig_loads sample_more
           (world_of [(".bcce.config.json", File (show_json (JObj full_config)))])
           (show_json (JObj full_config)) (JObj full_config));
    reflexivity.
Defined.

(** X13, witness: no file; a file that is not JSON; an empty object. *)
Lemma loadConfig_errors_witness :
  @loadConfig sample_more (world_of [])
  = (world_of [],
     Ret (inl "Config not found: .bcce.config.json. Run 'bcce init' first."))
  ∧ @loadConfig sample_more (world_of [(".bcce.config.json", File "{")])
    = (world_of [(".bcce.config.json", File "{")],
       Ret (inl ("Failed to load config: "
                 +:+ @error_message sample_more (SyntaxError_json "{"))))
  ∧ @loadConfig sample_more (world_of [(".bcce.config.json", File "{}")])
    = (world_of [(".bcce.config.json", File "{}")],
       Ret (inl "Failed to load config: Invalid config format")).
Proof.
  split; [|split].
  - apply (proj1 (@loadConfig_errors sample_more (world_of []))). reflexivity.
  - apply (proj1 (proj2 (@loadConfig_errors sample_more
                           (world_of [(".bcce.config.json", File "{")]))) "{");
      reflexivity.
  - apply (proj2 (proj2 (proj2 (@loadConfig_errors sample_more
                                  (world_of [(".bcce.config.json", File "{}")]))))
             "{}" (JObj []));
      reflexivity.
Defined.

(** X14, witness: the type "admin". *)
Lemma print_action_invalid_type_witness :
  @print_action sample "admin" unscoped (world_of [])
  = (emit [Err invalid_type_message] (world_of []), Exit 1).
Proof.
  apply (@print_action_invalid_type sample "admin" unscoped [] (world_of [])).
  intros Hin. no_member Hin.
Defined.

(** X15, witness: a scoped print of the baseline after a guardrails
    print. *)
Lemma print_action_scoping_ignored_witness :
  @print_action sample "baseline" east
    (@print_all sample [("guardrails", unscoped)] (world_of [])).1
  = @print_action sample "baseline" {| region := None; accountId := None |}
      (@print_all sample [("guardrails", unscoped)] (world_of [])).1.
Proof.
  apply (@print_action_scoping_ignored sample [("guardrails", unscoped)] "baseline" east
           (world_of [])
           (@print_all sample [("guardrails", unscoped)] (world_of [])).1 eq_refl).
  - repeat constructor.
  - reflexivity.
  - by left.
Defined.


(** X18, witness: a configuration exists and the user declines. *)
Lemma init_action_cancelled_witness :
  @init_action sample sample_text "T1" no_init_opts cautious configured
  = (emit [Log "⚠️  BCCE config already exists (.bcce.config.json)";
           Log "❌ Cancelled. Use --force to overwrite existing config."] configured,
     Ret tt).
Proof.
  apply (@init_action_cancelled sample sample_text "T1" no_init_opts cautious configured).
  reflexivity.
Defined.

(** X19, witness: every option given, over the old configuration;
    [--guardrails ON] is not "on". *)
Lemma init_action_saves_witness :
  ∃ config lines,
    @init_action sample sample_text "T2" forced cautious configured
    = (emit lines (@config_written sample config configured), Ret tt)
    ∧ assoc "auth" config = Some (JStr "cognito-oidc")
    ∧ assoc "regions" config = Some (JArr [JStr "eu-west-1"; JStr "us-east-1"])
    ∧ assoc "guardrails" config = Some (JBool false)
    ∧ assoc "privatelink" config = Some (JBool true)
    ∧ assoc "version" config = Some (JStr "0.0.9").
Proof.
  destruct (@init_action_saves sample sample_text "T2" forced cautious configured)
    as (config & lines & Hrun & _ & Hfields).
  - reflexivity.
  - reflexivity.
  - discriminate.
  - repeat (apply NoDup_cons; split; [intros Hin; no_member Hin|]). apply NoDup_nil_2.
  - exists config, lines. split; [exact Hrun|]. rewrite !Hfields. by repeat split.
Defined.

(** X20, witness: the path of the configuration is a directory. *)
Lemma init_action_save_fails_witness :
  ∃ lines,
    @init_action sample sample_text "T1" forced cautious
      (world_of [(".bcce.config.json", Dir)])
    = (emit (lines ++ [Err "❌ Failed to save configuration: error"])
         (world_of [(".bcce.config.json", Dir)]), Exit 1).
Proof.
  destruct (@init_action_save_fails sample sample_text "T1" forced cautious
              (world_of [(".bcce.config.json", Dir)]))
    as (lines & Hrun & _).
  - reflexivity.
  - right. reflexivity.
  - exists lines. exact Hrun.
Defined.

(** X22, witness: two regions entered at the prompt. *)
Lemma init_action_prompted_regions_witness :
  ∃ config lines regions,
    @init_action sample sample_text "T1" no_init_opts cautious (world_of [])
    = (emit lines (@config_written sample config (world_of [])), Ret tt)
    ∧ assoc "regions" config = Some (JArr (JStr <$> regions))
    ∧ regions ≠ []
    ∧ Forall region_shape regions.
Proof.
  apply (@init_action_prompted_regions sample sample_text "T1" no_init_opts cautious
           (world_of [])).
  - reflexivity.
  - reflexivity.
  - discriminate.
  - reflexivity.
  - reflexivity.
Defined.

(** X25, witness: a template that does not exist. *)
Lemma scaffold_action_fallback_witness :
  w_fs (@scaffold_action sample sample_text "My Flow" {| template := "fancy" |}
          (world_of [])).1
  = w_fs (@scaffold_action sample sample_text "My Flow" basic (world_of [])).1.
Proof.
  apply (@scaffold_action_fallback sample sample_text "My Flow" "fancy" (world_of []));
    discriminate.
Defined.

Lemma clear_for_empty : @clear_for sample sample_text "My Flow" (w_fs (world_of [])).
Proof.
  change (w_fs (world_of [])) with (∅ : gmap string Node).
  split.
  - apply Forall_forall. intros d _ content. by rewrite lookup_empty.
  - repeat (apply Forall_cons_2; [split; [intros Hin; vm_compute in Hin; no_member Hin|]|]);
      [..|apply Forall_nil_2]; by rewrite lookup_empty.
Qed.

(** X26, witness: the workflow "My Flow" in an empty directory. *)
Lemma scaffold_action_creates_witness :
  ∃ lines,
    @scaffold_action sample sample_text "My Flow" basic (world_of [])
    = ({| w_fs := @scaffolded sample sample_text "My Flow" basic ∅;
          w_out := lines; w_mem := initial_memory |}, Ret tt)
    ∧ w_fs (@scaffold_action sample sample_text "My Flow" basic (world_of [])).1
      !! "workflows/examples/my-flow/prompt.md"
      = Some (File (promptContent basic)).
Proof.
  destruct (@scaffold_action_creates sample sample_text "My Flow" basic (world_of [])
              clear_for_empty)
    as (lines & Hrun & _).
  exists lines. split; [exact Hrun|]. rewrite Hrun. reflexivity.
Defined.

(** X27, witness: workflows is a file. *)
Lemma scaffold_action_blocked_witness :
  @scaffold_action sample sample_text "My Flow" basic
    (world_of [("workflows", File "notes")])
  = (emit [Err "❌ Scaffolding error: error"] (world_of [("workflows", File "notes")]),
     Exit 1).
Proof.
  destruct (@scaffold_action_blocked sample sample_text "My Flow" basic
              (world_of [("workflows", File "notes")]) "workflows" "notes")
    as (code & Hrun).
  - apply list_elem_of_here.
  - reflexivity.
  - exact Hrun.
Defined.

(** X28, witness: "My Flow" scaffolded twice. *)
Lemma scaffold_action_again_witness :
  ∃ w2,
    @scaffold_action sample sample_text "My Flow" basic
      (@scaffold_action sample sample_text "My Flow" basic (world_of [])).1
    = (w2, Ret tt)
    ∧ w_fs w2
      = w_fs (@scaffold_action sample sample_text "My Flow" basic (world_of [])).1.
Proof.
  apply (@scaffold_action_again sample sample_text "My Flow" basic (world_of [])
           (@scaffold_action sample sample_text "My Flow" basic (world_of [])).1
           clear_for_empty).
  destruct (@scaffold_action_clear sample sample_text "My Flow" basic (world_of [])
              clear_for_empty) as (lines & Hrun & _).
  by rewrite Hrun.
Defined.
